(** * Yellow-pages lead scrapers: a shallow embedding and its properties

    The repository holds three near-duplicate pipelines:
    - [yp_5_janitor.py]            (module [Janitor]),
    - [yp_b2b_warehouse_scraper.py] (module [B2B]),
    - [yp_6_safety.py]             (module [Safety]).

    Python [str] values are modelled as Stdlib strings whose characters are
    read as the code points 0..255.  Sets of identities are [gset string].
    The browser, the site and the spreadsheet are an explicit environment;
    what the controller does to them is recorded in an event log. *)

From Stdlib Require Import ZArith NArith Ascii String Bool Lia DecimalString.
From stdpp Require Import base option list gmap strings.

#[local] Set Warnings "-clear-no-such-hyp,-level-tolerance".

Local Open Scope string_scope.
Local Open Scope list_scope.
#[local] Arguments String.append !_ _ / : simpl nomatch.

(** ** Python string primitives *)

Module Py.

Definition code (c : ascii) : N := N_of_ascii c.

(** [str.isspace] on the code points 0..255. *)
Definition is_space (c : ascii) : bool :=
  let n := code c in
  ((9 <=? n) && (n <=? 13) || (28 <=? n) && (n <=? 32)
   || (n =? 133) || (n =? 160))%N.

(** Characters changed by [str.lower] on the code points 0..255. *)
Definition is_upper (c : ascii) : bool :=
  let n := code c in
  ((65 <=? n) && (n <=? 90)
   || (192 <=? n) && (n <=? 222) && negb (n =? 215))%N.

Definition lower_char (c : ascii) : ascii :=
  if is_upper c then ascii_of_N (code c + 32) else c.

Fixpoint lower (s : string) : string :=
  match s with
  | EmptyString => EmptyString
  | String c s' => String (lower_char c) (lower s')
  end.

Fixpoint lstrip (s : string) : string :=
  match s with
  | EmptyString => EmptyString
  | String c s' => if is_space c then lstrip s' else s
  end.

Definition is_empty (s : string) : bool :=
  match s with EmptyString => true | _ => false end.

Fixpoint rstrip (s : string) : string :=
  match s with
  | EmptyString => EmptyString
  | String c s' =>
      let r := rstrip s' in
      if is_space c && is_empty r then EmptyString else String c r
  end.

(** [s.strip()] *)
Definition strip (s : string) : string := rstrip (lstrip s).

(** [s.rstrip('/')] *)
Fixpoint rstrip_char (ch : ascii) (s : string) : string :=
  match s with
  | EmptyString => EmptyString
  | String c s' =>
      let r := rstrip_char ch s' in
      if Ascii.eqb c ch && is_empty r then EmptyString else String c r
  end.

(** [s.startswith(p)] *)
Fixpoint startswith (p s : string) : bool :=
  match p, s with
  | EmptyString, _ => true
  | String a p', String b s' => Ascii.eqb a b && startswith p' s'
  | String _ _, EmptyString => false
  end.

(** [p in s] *)
Fixpoint contains (p s : string) : bool :=
  startswith p s ||
  match s with
  | EmptyString => false
  | String _ s' => contains p s'
  end.

(** [any(p in s for p in ps)] *)
Definition any_in (ps : list string) (s : string) : bool :=
  existsb (fun p => contains p s) ps.

(** Truthiness of a [str]. *)
Definition truthy (s : string) : bool := negb (is_empty s).

Fixpoint drop (n : nat) (s : string) : string :=
  match n, s with
  | O, _ => s
  | S n', String _ s' => drop n' s'
  | S _, EmptyString => EmptyString
  end.

(** [s[:n]] *)
Fixpoint take (n : nat) (s : string) : string :=
  match n, s with
  | S n', String c s' => String c (take n' s')
  | _, _ => EmptyString
  end.

(** [s.replace(p, empty)] for a non-empty [p]: occurrences are removed
    left to right, without overlap. *)
Fixpoint remove_all (p : string) (s : string) (skip : nat) : string :=
  match s with
  | EmptyString => EmptyString
  | String c s' =>
      match skip with
      | S k => remove_all p s' k
      | O =>
          if startswith p s then remove_all p s' (String.length p - 1)
          else String c (remove_all p s' 0)
      end
  end.

(** [s.split(sep)[0]] for a one-character [sep]. *)
Fixpoint before (sep : ascii) (s : string) : string :=
  match s with
  | EmptyString => EmptyString
  | String c s' => if Ascii.eqb c sep then EmptyString else String c (before sep s')
  end.

(** [str(n)] for a natural number. *)
Definition str_of_nat (n : nat) : string := NilEmpty.string_of_uint (Nat.to_uint n).

(** [s.endswith(suffix)] *)
Definition endswith (suffix s : string) : bool :=
  (String.length suffix <=? String.length s)%nat
  && String.eqb (drop (String.length s - String.length suffix) s) suffix.

(** [str(z)] for an integer. *)
Definition str_of_int (z : Z) : string := NilEmpty.string_of_int (Z.to_int z).

(** [fnmatch] of a name against a pattern made of a literal prefix, one
    star and a literal suffix (case-sensitive, as on POSIX). *)
Definition fnmatch_star (prefix suffix name : string) : bool :=
  startswith prefix name && endswith suffix (drop (String.length prefix) name).

End Py.

(** ** The digest of [hashlib.md5]

    32-bit words are integers reduced modulo [2^32]; bytes are integers in
    [0, 256). *)

Module MD5.
Local Open Scope Z_scope.

Definition w32 (x : Z) : Z := x mod 2 ^ 32.

Definition rotl (x c : Z) : Z :=
  w32 (Z.lor (Z.shiftl x c) (Z.shiftr x (32 - c))).

Definition not32 (x : Z) : Z := Z.lxor x 0xffffffff.

Definition K : list Z :=
  [ 0xd76aa478; 0xe8c7b756; 0x242070db; 0xc1bdceee; 0xf57c0faf; 0x4787c62a; 0xa8304613; 0xfd469501;
    0x698098d8; 0x8b44f7af; 0xffff5bb1; 0x895cd7be; 0x6b901122; 0xfd987193; 0xa679438e; 0x49b40821;
    0xf61e2562; 0xc040b340; 0x265e5a51; 0xe9b6c7aa; 0xd62f105d; 0x02441453; 0xd8a1e681; 0xe7d3fbc8;
    0x21e1cde6; 0xc33707d6; 0xf4d50d87; 0x455a14ed; 0xa9e3e905; 0xfcefa3f8; 0x676f02d9; 0x8d2a4c8a;
    0xfffa3942; 0x8771f681; 0x6d9d6122; 0xfde5380c; 0xa4beea44; 0x4bdecfa9; 0xf6bb4b60; 0xbebfbc70;
    0x289b7ec6; 0xeaa127fa; 0xd4ef3085; 0x04881d05; 0xd9d4d039; 0xe6db99e5; 0x1fa27cf8; 0xc4ac5665;
    0xf4292244; 0x432aff97; 0xab9423a7; 0xfc93a039; 0x655b59c3; 0x8f0ccc92; 0xffeff47d; 0x85845dd1;
    0x6fa87e4f; 0xfe2ce6e0; 0xa3014314; 0x4e0811a1; 0xf7537e82; 0xbd3af235; 0x2ad7d2bb; 0xeb86d391 ].

Definition R : list Z :=
  [ 7; 12; 17; 22; 7; 12; 17; 22; 7; 12; 17; 22; 7; 12; 17; 22;
    5; 9; 14; 20; 5; 9; 14; 20; 5; 9; 14; 20; 5; 9; 14; 20;
    4; 11; 16; 23; 4; 11; 16; 23; 4; 11; 16; 23; 4; 11; 16; 23;
    6; 10; 15; 21; 6; 10; 15; 21; 6; 10; 15; 21; 6; 10; 15; 21 ].

Record regs := Regs { rA : Z; rB : Z; rC : Z; rD : Z }.

Definition init : regs :=
  Regs 0x67452301 0xefcdab89 0x98badcfe 0x10325476.

(** One of the 64 operations on the message words [M]. *)
Definition op (M : list Z) (r : regs) (i : nat) : regs :=
  let '(Regs a b c d) := r in
  let zi := Z.of_nat i in
  let '(f, g) :=
    if zi <? 16 then (Z.lor (Z.land b c) (Z.land (not32 b) d), zi)
    else if zi <? 32 then (Z.lor (Z.land d b) (Z.land (not32 d) c), (5 * zi + 1) mod 16)
    else if zi <? 48 then (Z.lxor (Z.lxor b c) d, (3 * zi + 5) mod 16)
    else (Z.lxor c (Z.lor b (not32 d)), (7 * zi) mod 16) in
  let f' := w32 (f + a + nth i K 0 + nth (Z.to_nat g) M 0) in
  Regs d (w32 (b + rotl f' (nth i R 0))) b c.

(** Little-endian 32-bit words of a byte sequence. *)
Fixpoint words (bs : list Z) : list Z :=
  match bs with
  | b0 :: b1 :: b2 :: b3 :: rest =>
      (b0 + 256 * b1 + 65536 * b2 + 16777216 * b3) :: words rest
  | _ => []
  end.

Definition block (h : regs) (chunk : list Z) : regs :=
  let r := fold_left (op (words chunk)) (seq 0 64) h in
  Regs (w32 (rA h + rA r)) (w32 (rB h + rB r))
       (w32 (rC h + rC r)) (w32 (rD h + rD r)).

Fixpoint blocks (n : nat) (h : regs) (bs : list Z) : regs :=
  match n with
  | O => h
  | S n' => blocks n' (block h (firstn 64 bs)) (skipn 64 bs)
  end.

Definition le_bytes (n : nat) (x : Z) : list Z :=
  map (fun i => (x / 256 ^ Z.of_nat i) mod 256) (seq 0 n).

Definition pad (msg : list Z) : list Z :=
  let len := Z.of_nat (length msg) in
  let zeros := Z.to_nat ((55 - len) mod 64) in
  msg ++ [128] ++ repeat 0 zeros ++ le_bytes 8 ((8 * len) mod 2 ^ 64).

Definition digest (msg : list Z) : regs :=
  let p := pad msg in
  blocks (length p / 64)%nat init p.

Definition hex_digit (n : Z) : ascii :=
  match n with
  | 0 => "0" | 1 => "1" | 2 => "2" | 3 => "3" | 4 => "4" | 5 => "5"
  | 6 => "6" | 7 => "7" | 8 => "8" | 9 => "9" | 10 => "a" | 11 => "b"
  | 12 => "c" | 13 => "d" | 14 => "e" | _ => "f"
  end%char.

Definition hex_byte (b : Z) (k : string) : string :=
  String (hex_digit (b / 16)) (String (hex_digit (b mod 16)) k).

Definition hex_word (w : Z) (k : string) : string :=
  hex_byte (w mod 256)
    (hex_byte ((w / 256) mod 256)
       (hex_byte ((w / 65536) mod 256)
          (hex_byte ((w / 16777216) mod 256) k))).

(** [hashlib.md5(msg).hexdigest()] *)
Definition hexdigest (msg : list Z) : string :=
  let '(Regs a b c d) := digest msg in
  hex_word a (hex_word b (hex_word c (hex_word d EmptyString))).

End MD5.

(** [s.encode()]: UTF-8 of the code points 0..255. *)
Fixpoint encode (s : string) : list Z :=
  match s with
  | EmptyString => []
  | String c s' =>
      let n := Z.of_N (Py.code c) in
      (if (n <? 128)%Z then [n] else [192 + n / 64; 128 + n mod 64])%Z ++ encode s'
  end.

(** ** The two regular expressions of the email extractors *)

Module Re.

Definition is_alpha (c : ascii) : bool :=
  let n := Py.code c in
  ((65 <=? n) && (n <=? 90) || (97 <=? n) && (n <=? 122))%N.

Definition is_alnum (c : ascii) : bool :=
  let n := Py.code c in
  is_alpha c || ((48 <=? n) && (n <=? 57))%N.

(** [[a-zA-Z0-9._%+-]] *)
Definition local_char (c : ascii) : bool :=
  is_alnum c || Ascii.eqb c "." || Ascii.eqb c "_" || Ascii.eqb c "%"
  || Ascii.eqb c "+" || Ascii.eqb c "-".

(** [[a-zA-Z0-9.-]] *)
Definition domain_char (c : ascii) : bool :=
  is_alnum c || Ascii.eqb c "." || Ascii.eqb c "-".

(** The class of the captured group: any character but the two quotes,
    the angle brackets, the question mark and white space. *)
Definition mailto_char (c : ascii) : bool :=
  negb (Ascii.eqb c "034" || Ascii.eqb c "'" || Ascii.eqb c "<"
        || Ascii.eqb c ">" || Ascii.eqb c "?" || Py.is_space c).

Definition is_quote (c : ascii) : bool :=
  Ascii.eqb c "034" || Ascii.eqb c "'".

(** Longest prefix of characters in a class: a greedy [[...]*]. *)
Fixpoint span (f : ascii -> bool) (s : string) : string :=
  match s with
  | EmptyString => EmptyString
  | String c s' => if f c then String c (span f s') else EmptyString
  end.

(** A lower-case literal matched under [re.IGNORECASE]. *)
Fixpoint istartswith (p s : string) : bool :=
  match p, s with
  | EmptyString, _ => true
  | String a p', String b s' => Ascii.eqb a (Py.lower_char b) && istartswith p' s'
  | String _ _, EmptyString => false
  end.

(** The mailto pattern anchored at the head of [s]: [href=], a quote,
    [mailto:], then the captured group (one character or more). *)
Definition mailto_at (s : string) : option string :=
  if istartswith "href=" s then
    match Py.drop 5 s with
    | String q s2 =>
        if is_quote q && istartswith "mailto:" s2 then
          let g := span mailto_char (Py.drop 7 s2) in
          if Py.is_empty g then None else Some g
        else None
    | EmptyString => None
    end
  else None.

(** [re.search] of the mailto pattern under [re.IGNORECASE], then
    [.group(1)]: the leftmost match. *)
Fixpoint search_mailto (s : string) : option string :=
  match mailto_at s with
  | Some g => Some g
  | None =>
      match s with
      | EmptyString => None
      | String _ s' => search_mailto s'
      end
  end.

(** In a run [d] of domain characters (at offset [pos] of the run), the end
    of the match through the last [.] that is not the first character of the
    run and is followed by two letters or more. *)
Fixpoint last_tld (d : string) (pos : nat) : option nat :=
  match d with
  | EmptyString => None
  | String c d' =>
      match last_tld d' (S pos) with
      | Some e => Some e
      | None =>
          let letters := String.length (span is_alpha d') in
          if Ascii.eqb c "." && (1 <=? pos)%nat && (2 <=? letters)%nat
          then Some (pos + 1 + letters)%nat
          else None
      end
  end.

(** The email pattern, a run of local characters, [@], a run of domain
    characters, a dot and two letters or more, anchored at the head of [s]:
    the whole match. *)
Definition email_at (s : string) : option string :=
  let l := span local_char s in
  if Py.is_empty l then None
  else
    match Py.drop (String.length l) s with
    | String c rest =>
        if Ascii.eqb c "@" then
          let d := span domain_char rest in
          match last_tld d 0 with
          | Some e => Some (l +:+ "@" +:+ Py.take e d)
          | None => None
          end
        else None
    | EmptyString => None
    end.

(** [re.findall] of the email pattern: the matches from left to right,
    without overlap; [skip] counts the characters of the last match still
    to pass. *)
Fixpoint findall_email_from (s : string) (skip : nat) : list string :=
  match s with
  | EmptyString => []
  | String _ s' =>
      match skip with
      | S k => findall_email_from s' k
      | O =>
          match email_at s with
          | Some m => m :: findall_email_from s' (String.length m - 1)
          | None => findall_email_from s' 0
          end
      end
  end.

Definition findall_email (s : string) : list string := findall_email_from s 0.

End Re.

(** ** Data model *)

(** A tag of the parsed markup: its [.text] and its [href] attribute. *)
Record Element := { text : string; href : option string }.

(** One rendered result fragment, as the selectors of [parse_listing] see
    it: the first match of each selector, if any. *)
Record Fragment := {
  business_name_span : option Element;
  business_name : option Element;
  track_visit_website : option Element;
  phones : option Element;
  street_address : option Element;
  locality : option Element;
  categories : option Element }.

(** The lead dictionary.  The three files name some keys differently
    (Niche or Industry, Email Address or Email, and so on); the columns that
    are always written blank are left out. *)
Record Lead := {
  company_name : string;
  niche : string;
  category : string;
  email_address : string;
  phone_number : string;
  website_url : string;
  address : string;
  date_added : string;
  source : string;
  lead_id : string }.

Definition set_email (l : Lead) (e : string) : Lead :=
  {| company_name := company_name l; niche := niche l; category := category l;
     email_address := e; phone_number := phone_number l;
     website_url := website_url l; address := address l;
     date_added := date_added l; source := source l; lead_id := lead_id l |}.

(** A row of the spreadsheet: the sequence number and the public columns. *)
Record Row := {
  row_num : nat;
  row_company : string;
  row_niche : string;
  row_category : string;
  row_email : string;
  row_phone : string;
  row_website : string;
  row_address : string;
  row_date_added : string;
  row_source : string }.

(** Dropping the keys that start with an underscore and setting the
    sequence number. *)
Definition to_row (i : nat) (l : Lead) : Row :=
  {| row_num := i; row_company := company_name l; row_niche := niche l;
     row_category := category l; row_email := email_address l;
     row_phone := phone_number l; row_website := website_url l;
     row_address := address l; row_date_added := date_added l;
     row_source := source l |}.

(** [for i, lead in enumerate(clean_leads, 1): lead[#] = i] *)
Fixpoint number_rows (i : nat) (ls : list Lead) : list Row :=
  match ls with
  | [] => []
  | l :: ls' => to_row i l :: number_rows (S i) ls'
  end.

(** A record read back from the spreadsheet, with the identity computed by
    [gen]. *)
Definition of_row (gen : string -> string -> string) (r : Row) : Lead :=
  {| company_name := row_company r; niche := row_niche r;
     category := row_category r; email_address := row_email r;
     phone_number := row_phone r; website_url := row_website r;
     address := row_address r; date_added := row_date_added r;
     source := row_source r;
     lead_id := gen (row_company r) (row_phone r) |}.

(** ** Records read back from the spreadsheets *)

(** A value that [pandas.read_excel] hands out for a cell: a text, an
    integer, or NaN for an empty cell.  Other floats are outside the model. *)
Inductive Cell := Text (s : string) | Num (z : Z) | NaN.

(** A record of [df.to_dict(records)], and a row of [df.iterrows()]: the
    cells by column name. *)
Definition Rec : Type := gmap string Cell.

(** [d.get(key, empty string)] *)
Definition rec_get (d : Rec) (key : string) : Cell :=
  default (Text EmptyString) (d !! key).

(** [str(v)] *)
Definition str (v : Cell) : string :=
  match v with
  | Text s => s
  | Num z => Py.str_of_int z
  | NaN => "nan"
  end.

(** Truth value of a cell: NaN is a non-zero float. *)
Definition cell_truthy (v : Cell) : bool :=
  match v with
  | Text s => Py.truthy s
  | Num z => negb (z =? 0)%Z
  | NaN => true
  end.

(** A file of the output directory: [Unreadable] when [pandas.read_excel]
    raises on it. *)
Inductive File := Unreadable | Sheet (records : list Rec).

(** The output directory: names and files, in the order of the listing. *)
Definition Dir : Type := list (string * File).

(** [os.path.join(directory, name)] on POSIX, for a relative [name]. *)
Definition path_join (directory name : string) : string :=
  directory +:+ "/" +:+ name.

(** What a function does: it returns a value or an exception escapes. *)
Inductive Outcome (A : Type) := Returns (a : A) | Raises.
Arguments Returns {A} a.
Arguments Raises {A}.

(** The loop [for lead in all_leads: key = ...; if key not in seen: ...];
    [None] when computing a key raises. *)
Fixpoint dedupe (key : Rec -> option string) (seen : gset string)
  (leads : list Rec) : option (list Rec) :=
  match leads with
  | [] => Some []
  | lead :: rest =>
      match key lead with
      | None => None
      | Some k =>
          if bool_decide (k ∈ seen) then dedupe key seen rest
          else cons lead <$> dedupe key ({[k]} ∪ seen) rest
      end
  end.

(** [for i, lead in enumerate(unique, i): lead[#] = i] *)
Fixpoint renumber (i : nat) (leads : list Rec) : list Rec :=
  match leads with
  | [] => []
  | lead :: rest => <["#" := Num (Z.of_nat i)]> lead :: renumber (S i) rest
  end.

(** ** The drivers of a run *)

(** What a driver does, in order: a load of the global scope, a write of
    the progress file (with a page in the B2B file, [OpProgress], without
    in the janitor file, [OpMark]), a task (with a label in the B2B file,
    [OpScrape], without in the other two, [OpTask]), a pause of
    [time.sleep(random.uniform(lo, hi))]. *)
Inductive Op :=
  | OpLoadIds
  | OpProgress (search_idx location_idx page : Z) (status : string)
  | OpMark (term_idx location_idx : Z) (status : string)
  | OpScrape (term label location : string)
  | OpTask (term location : string)
  | OpWait (lo hi : Z).

(** The steps done, and whether an exception escaped after them. *)
Definition Trace : Type := list Op * bool.


(** [l[i]] for an integer index: a negative index counts from the end;
    [None] is the IndexError. *)
Definition py_index {A : Type} (l : list A) (i : Z) : option A :=
  if (0 <=? i)%Z then l !! Z.to_nat i
  else if (- Z.of_nat (length l) <=? i)%Z
       then l !! Z.to_nat (Z.of_nat (length l) + i)
       else None.


(** ** The browser and the site *)

(** A search-results document: whether a [.search-results] element is
    there, and the [.result] elements; [None] stands for an element whose
    markup cannot be read or parsed. *)
Record SearchDom := {
  has_search_results : bool;
  result_elements : list (option Fragment) }.

(** What the session exposes when the controller looks for listings;
    [Dead] is a session whose calls raise. *)
Inductive View := Dead | Shown (d : SearchDom).

Definition Blank : View :=
  Shown {| has_search_results := false; result_elements := [] |}.

(** The outcome of [driver.get] on a search-results address: it returns or
    raises, and the session then shows some view. *)
Inductive Nav := NavOk (v : View) | NavFail (v : View).

(** A detail page or a page of a company site. *)
Record Page := {
  page_source : string;
  (** the markup read again after scrolling *)
  page_source_scrolled : string;
  title : string;
  (** the [href]s of the anchors with an email class; [None] when the
      query raises *)
  email_elements : option (list string);
  (** the [href]s of the anchors whose [href] holds [mailto:] *)
  mailto_links : option (list string);
  (** the [href]s of the anchors of the re-parsed markup *)
  soup_links : list string }.

Record Env := {
  (** [driver.get] on a search-results address, by address and attempt *)
  nav : string -> nat -> Nav;
  (** [driver.get] on any other address; [None] when it raises *)
  web : string -> option Page;
  (** [datetime.now()] formatted *)
  today : string;
  (** the rows of the task's own spreadsheet; [None] when the file is
      missing or unreadable *)
  existing_file : option (list Row) }.

(** What the controller does to the session and the spreadsheet.  The
    fetches and pauses inside the email cascade are not logged. *)
Inductive Event :=
| EvCreate
| EvQuit
| EvGet (url : string)
| EvSleep (seconds : Z)
| EvSleepUniform (lo hi : Z)
| EvSave (rows : list Row).

Record St := {
  all_leads : list Lead;
  local_ids : gset string;
  new_leads_count : nat;
  blocked_count : nat;
  log : list Event }.

Definition emit (st : St) (evs : list Event) : St :=
  {| all_leads := all_leads st; local_ids := local_ids st;
     new_leads_count := new_leads_count st;
     blocked_count := blocked_count st; log := log st ++ evs |}.

(** How one turn of the page loop ends: fall through to the next page,
    [break], or an exception that leaves the loop. *)
Inductive Flow := Next | Stop | Raised.

Definition is_nil {A} (l : list A) : bool :=
  match l with [] => true | _ => false end.

Definition BLOCKED : string := "__BLOCKED__".

Definition elem_text (o : option Element) : string :=
  match o with
  | Some el => Py.strip (text el)
  | None => EmptyString
  end.

(** [website_el[href] if website_el else empty]; [None] is the [KeyError]
    of a tag without [href]. *)
Definition website_href (listing : Fragment) : option string :=
  match track_visit_website listing with
  | Some el => href el
  | None => Some EmptyString
  end.

(** The two address fragments joined with one space, empty ones dropped. *)
Definition join_address (street loc : string) : string :=
  match Py.is_empty street, Py.is_empty loc with
  | true, true => EmptyString
  | true, false => loc
  | false, true => street
  | false, false => street +:+ " " +:+ loc
  end.

Definition detail_link (listing : Fragment) : string :=
  match business_name listing with
  | Some el =>
      match href el with
      | Some h => if Py.truthy h then "https://www.yellowpages.com" +:+ h else EmptyString
      | None => EmptyString
      end
  | None => EmptyString
  end.

Definition name_element (listing : Fragment) : option Element :=
  match business_name_span listing with
  | Some el => Some el
  | None => business_name listing
  end.

Definition page_url (base_url : string) (page : nat) : string :=
  if (page =? 1)%nat then base_url else base_url +:+ "?page=" +:+ Py.str_of_nat page.

Definition task_url (location search_term : string) : string :=
  "https://www.yellowpages.com/" +:+ location +:+ "/" +:+ search_term.

(** ** The email cascade of the janitor and B2B files

    [extract_email_from_website] and [extract_email_from_detail] are the same
    text in [yp_5_janitor.py] and [yp_b2b_warehouse_scraper.py] but for the
    email blacklist and the tests made on the company website before it is
    fetched, which are the variables of this section.  [DEBUG] is [False]. *)

Section Cascade.

Variable EMAIL_BLACKLIST : list string.
(** the test that lets [extract_email_from_website] go on *)
Variable site_guard : string -> bool.
(** the test that lets [extract_email_from_detail] turn to the website *)
Variable fallback_guard : string -> bool.
Variable web : string -> option Page.

Definition is_valid_email (email : string) : bool :=
  if negb (Py.truthy email) || negb (Py.contains "@" email) then false
  else negb (Py.any_in EMAIL_BLACKLIST (Py.lower email)).

(** Method 1: the first mailto link of the markup. *)
Definition source_mailto (src : string) : option string :=
  match Re.search_mailto src with
  | Some g =>
      let email := Py.strip g in
      if is_valid_email email then Some email else None
  | None => None
  end.

(** The first email-shaped token of the markup that is valid. *)
Definition source_regex (src : string) : option string :=
  List.find is_valid_email (Re.findall_email src).

(** [href.replace(mailto:, empty).split(?)[0].strip()] *)
Definition href_email (h : string) : string :=
  Py.strip (Py.before "?" (Py.remove_all "mailto:" h 0)).

(** The first [href] holding [mailto:] whose address is valid. *)
Fixpoint scan_hrefs (hrefs : list string) : option string :=
  match hrefs with
  | [] => None
  | h :: rest =>
      if Py.contains "mailto:" h && is_valid_email (href_email h)
      then Some (href_email h)
      else scan_hrefs rest
  end.

(** A query on the rendered anchors inside [try ... except: pass]. *)
Definition scan_elements (q : option (list string)) : option string :=
  match q with
  | Some hrefs => scan_hrefs hrefs
  | None => None
  end.

Definition scan_source (src : string) : option string :=
  match source_mailto src with
  | Some email => Some email
  | None => source_regex src
  end.

Definition contact_paths : list string :=
  [ "/contact"; "/contact-us"; "/about"; "/about-us"; "/contactus" ].

(** Method 3 of [extract_email_from_website]: the contact pages in order. *)
Fixpoint contact_pages (base_url : string) (paths : list string) : string :=
  match paths with
  | [] => EmptyString
  | path :: rest =>
      match web (base_url +:+ path) with
      | None => contact_pages base_url rest
      | Some pg =>
          match scan_source (page_source pg) with
          | Some email => email
          | None => contact_pages base_url rest
          end
      end
  end.

Definition extract_email_from_website (website_url : string) : string :=
  if negb (site_guard website_url) then EmptyString
  else
    let website_url :=
      if Py.startswith "http" website_url then website_url
      else "https://" +:+ website_url in
    match web website_url with
    | None => EmptyString
    | Some pg =>
        if Py.any_in ["404"; "not found"; "error"; "denied"] (Py.lower (title pg))
        then EmptyString
        else
          match scan_source (page_source pg) with
          | Some email => email
          | None => contact_pages (Py.rstrip_char "/" website_url) contact_paths
          end
    end.

Definition is_blocked (page_source : string) : bool :=
  Py.contains "you have been blocked" (Py.lower page_source)
  || (Py.contains "cloudflare" (Py.lower page_source)
      && Py.contains "ray id" (Py.lower page_source)).

Definition extract_email_from_detail (detail_url website_url : string) : string :=
  match web detail_url with
  | None => EmptyString
  | Some pg =>
      if is_blocked (page_source pg) then
        if fallback_guard website_url then
          let email := extract_email_from_website website_url in
          if Py.truthy email then email else BLOCKED
        else BLOCKED
      else
        let src := page_source_scrolled pg in
        match source_mailto src with
        | Some email => email
        | None =>
        match scan_elements (email_elements pg) with
        | Some email => email
        | None =>
        match scan_elements (mailto_links pg) with
        | Some email => email
        | None =>
        match scan_hrefs (soup_links pg) with
        | Some email => email
        | None =>
        match source_regex src with
        | Some email => email
        | None =>
            if fallback_guard website_url then
              let email := extract_email_from_website website_url in
              if Py.truthy email then email else EmptyString
            else EmptyString
        end end end end end
  end.

End Cascade.

(** ** The page loop of the janitor and B2B files

    [scrape_search] is the same loop in both files; the listing step, the
    email cascade, the writer and the page ceiling are the variables. *)

Section SearchScraper.

Variable MAX_PAGES : nat.
Variable get_listings_from_page : View -> option (list Lead).
Variable extract_email_from_detail : string -> string -> string.
Variable save_leads_to_excel : list Lead -> option (list Row).
Variable nav : string -> nat -> Nav.
Variable base_url : string.
Variable existing_ids : gset string.

Definition START_PAGE : nat := 1.
Definition MAX_RETRIES : nat := 3.
Definition FETCH_EMAILS : bool := true.
Definition RESTART_DRIVER_EACH_PAGE : bool := true.

(** [for attempt in range(MAX_RETRIES)]: the attempts still to make, the
    view the session shows so far, and what is logged. *)
Fixpoint load_page (url : string) (attempts : list nat) (cur : View)
  : View * list Event :=
  match attempts with
  | [] => (cur, [])
  | attempt :: rest =>
      match nav url attempt with
      | NavOk v => (v, [EvGet url; EvSleep 2])
      | NavFail v =>
          let '(v', evs) := load_page url rest v in
          if (attempt <? MAX_RETRIES - 1)%nat
          then (v', EvGet url :: EvSleep 5 :: evs)
          else (v', EvGet url :: evs)
      end
  end.

(** The duplicate filter: a listing is kept when its identity is in neither
    scope, and its identity joins the local scope at once. *)
Fixpoint filter_dupes (local : gset string) (page_listings : list Lead)
  : list Lead * gset string :=
  match page_listings with
  | [] => ([], local)
  | listing :: rest =>
      if bool_decide (lead_id listing ∉ existing_ids)
         && bool_decide (lead_id listing ∉ local)
      then
        let '(new_listings, local') :=
          filter_dupes ({[lead_id listing]} ∪ local) rest in
        (listing :: new_listings, local')
      else filter_dupes local rest
  end.

(** The email loop over the new listings: the leads with their emails, the
    block counter and what is logged. *)
Fixpoint fetch_emails (new_listings : list Lead) (blocked : nat)
  : list Lead * nat * list Event :=
  match new_listings with
  | [] => ([], blocked, [])
  | lead :: rest =>
      let email := extract_email_from_detail (source lead) (website_url lead) in
      if String.eqb email BLOCKED then
        if (5 <=? blocked + 1)%nat then
          let '(ls, b, evs) := fetch_emails rest 0 in
          (lead :: ls, b, EvQuit :: EvSleep 10 :: EvCreate :: evs)
        else
          let '(ls, b, evs) := fetch_emails rest (blocked + 1) in
          (lead :: ls, b, evs)
      else if Py.truthy email then
        let '(ls, b, evs) := fetch_emails rest blocked in
        (set_email lead email :: ls, b, evs)
      else
        let '(ls, b, evs) := fetch_emails rest blocked in
        (lead :: ls, b, evs)
  end.

Definition save_events (leads : list Lead) : list Event :=
  match save_leads_to_excel leads with
  | Some rows => [EvSave rows]
  | None => []
  end.

(** One turn of [for page in range(START_PAGE, MAX_PAGES + 1)]. *)
Definition page_step (st : St) (page : nat) : Flow * St :=
  let url := page_url base_url page in
  let '(view, evs) := load_page url (seq 0 MAX_RETRIES) Blank in
  let st := emit st evs in
  match get_listings_from_page view with
  | None => (Raised, st)
  | Some page_listings =>
      if is_nil page_listings then (Stop, st)
      else
        let '(new_listings, local') := filter_dupes (local_ids st) page_listings in
        if is_nil new_listings then
          (Next,
           {| all_leads := all_leads st; local_ids := local';
              new_leads_count := new_leads_count st;
              blocked_count := blocked_count st;
              log := log st ++ (if (page <? MAX_PAGES)%nat
                                then [EvSleepUniform 6 12] else []) |})
        else
          let '(fetched, blocked', fetch_evs) :=
            if FETCH_EMAILS then fetch_emails new_listings (blocked_count st)
            else (new_listings, blocked_count st, []) in
          let leads := all_leads st ++ fetched in
          let pause :=
            if (page <? MAX_PAGES)%nat then
              (if RESTART_DRIVER_EACH_PAGE
               then [EvQuit; EvSleep 3; EvCreate] else [])
              ++ [EvSleepUniform 12 17]
            else [] in
          (Next,
           {| all_leads := leads; local_ids := local';
              new_leads_count := new_leads_count st + length new_listings;
              blocked_count := blocked';
              log := log st ++ fetch_evs ++ save_events leads ++ pause |})
  end.

(** The page loop; the flag tells whether an exception left it. *)
Fixpoint pages_loop (pages : list nat) (st : St) : St * bool :=
  match pages with
  | [] => (st, false)
  | page :: rest =>
      match page_step st page with
      | (Next, st') => pages_loop rest st'
      | (Stop, st') => (st', false)
      | (Raised, st') => (st', true)
      end
  end.

(** [scrape_search] from [driver = create_driver()] on, given the leads
    loaded from the task's own file. *)
Definition run_task (existing_file_leads : list Lead) : St :=
  let st0 :=
    {| all_leads := existing_file_leads;
       local_ids := list_to_set (lead_id <$> existing_file_leads);
       new_leads_count := 0; blocked_count := 0; log := [EvCreate] |} in
  let '(st, raised) :=
    pages_loop (seq START_PAGE (MAX_PAGES + 1 - START_PAGE)) st0 in
  let st :=
    if raised && negb (is_nil (all_leads st))
    then emit st (save_events (all_leads st)) else st in
  emit st [EvQuit].

End SearchScraper.

(** ** [yp_5_janitor.py] *)

Module Janitor.

Definition NICHE_LABEL : string := "Janitorial/Cleaning Supplier".
Definition MAX_PAGES : nat := 5.

Definition INVALID_WEBSITE_PATTERNS : list string :=
  [ "localsearch.com"; "yellowpages.com"; "yp.com"; "superpages.com";
    "whitepages.com"; "manta.com"; "yelp.com" ].

Definition is_valid_website (url : string) : bool :=
  if negb (Py.truthy url) || negb (Py.truthy (Py.strip url)) || String.eqb url "N/A"
  then false
  else
    let url_lower := Py.strip (Py.lower url) in
    negb (Py.any_in INVALID_WEBSITE_PATTERNS url_lower).

(** [str(x)] is [x] on a [str]. *)
Definition generate_lead_id (company_name phone : string) : string :=
  let key := Py.strip (Py.lower company_name) +:+ "|" +:+ Py.strip phone in
  Py.take 12 (MD5.hexdigest (encode key)).

Definition EMAIL_BLACKLIST : list string :=
  [ "example.com"; "domain.com"; "email.com"; "yoursite"; "yourdomain";
    "sentry.io"; "schema.org"; "json"; "wixpress"; "wix.com";
    "googleapis"; "google.com"; "facebook"; "twitter"; "instagram";
    ".png"; ".jpg"; ".gif"; ".svg"; ".css"; ".js";
    "yellowpages"; "yp.com"; "placeholder"; "test.com";
    "wordpress"; "squarespace"; "shopify"; "godaddy"; "wufoo" ].

Definition is_valid_email : string -> bool :=
  is_valid_email EMAIL_BLACKLIST.

(** [website_url and is_valid_website(website_url)] *)
Definition website_guard (website_url : string) : bool :=
  Py.truthy website_url && is_valid_website website_url.

Definition extract_email_from_website (web : string -> option Page)
  : string -> string :=
  extract_email_from_website EMAIL_BLACKLIST website_guard web.

Definition extract_email_from_detail (web : string -> option Page)
  : string -> string -> string :=
  extract_email_from_detail EMAIL_BLACKLIST website_guard website_guard web.

(** [None] is the Python [None], also when an exception is caught. *)
Definition parse_listing (today : string) (listing : Fragment) : option Lead :=
  let company := elem_text (name_element listing) in
  if negb (Py.truthy company) then None
  else
    match website_href listing with
    | None => None
    | Some website =>
        if negb (is_valid_website website) then None
        else
          let phone := elem_text (phones listing) in
          Some {| company_name := company; niche := NICHE_LABEL;
                  category := elem_text (categories listing);
                  email_address := EmptyString; phone_number := phone;
                  website_url := website;
                  address := join_address (elem_text (street_address listing))
                                          (elem_text (locality listing));
                  date_added := today; source := detail_link listing;
                  lead_id := generate_lead_id company phone |}
    end.

(** The listings of the page the session shows; [None] when a session call
    outside the inner [try] raises. *)
Definition get_listings_from_page (today : string) (v : View) : option (list Lead) :=
  match v with
  | Dead => None
  | Shown d =>
      if negb (has_search_results d || negb (is_nil (result_elements d)))
      then Some []
      else Some (omap (fun el => el ≫= parse_listing today) (result_elements d))
  end.

(** The rows written; [None] when the function returns without writing. *)
Definition save_leads_to_excel (leads : list Lead) : option (list Row) :=
  if is_nil leads then None
  else
    let valid_leads := List.filter (fun l => is_valid_website (website_url l)) leads in
    if is_nil valid_leads then None
    else Some (number_rows 1 valid_leads).

Definition load_existing (env : Env) : list Lead :=
  match existing_file env with
  | Some rows =>
      of_row generate_lead_id
        <$> List.filter (fun r => is_valid_website (row_website r)) rows
  | None => []
  end.

Definition pages_loop (env : Env) (base_url : string) (existing_ids : gset string)
  : list nat -> St -> St * bool :=
  pages_loop MAX_PAGES (get_listings_from_page (today env))
    (extract_email_from_detail (web env)) save_leads_to_excel
    (nav env) base_url existing_ids.

Definition page_step (env : Env) (base_url : string) (existing_ids : gset string)
  : St -> nat -> Flow * St :=
  page_step MAX_PAGES (get_listings_from_page (today env))
    (extract_email_from_detail (web env)) save_leads_to_excel
    (nav env) base_url existing_ids.

Definition scrape_search (env : Env) (search_term location : string)
  (existing_ids : gset string) : St :=
  run_task MAX_PAGES (get_listings_from_page (today env))
    (extract_email_from_detail (web env)) save_leads_to_excel
    (nav env) (task_url location search_term) existing_ids
    (load_existing env).

Definition NICHE_KEY : string := "janitor".
Definition OUTPUT_DIR : string := "exports_janitor".

(** [is_valid_website] on a value read back: [None] when it raises, as
    [strip] does on a value that is not a text. *)
Definition is_valid_website_value (url : Cell) : option bool :=
  match url with
  | Text s => Some (is_valid_website s)
  | Num z => if (z =? 0)%Z then Some false else None
  | NaN => None
  end.

(** The identity of a record read back:
    [generate_lead_id(str(row.get(Company Name)), str(row.get(Phone Number)))]. *)
Definition record_id (row : Rec) : string :=
  generate_lead_id (str (rec_get row "Company Name"))
                   (str (rec_get row "Phone Number")).

(** [load_existing_leads] on a file that exists. *)
Definition load_existing_leads (f : File) : gset string :=
  match f with
  | Unreadable => ∅
  | Sheet records => list_to_set (record_id <$> records)
  end.

(** [load_all_existing_lead_ids]; [None] is a missing output directory. *)
Definition load_all_existing_lead_ids (dir : option Dir) : gset string :=
  match dir with
  | None => ∅
  | Some files =>
      fold_left
        (fun all_ids '(filename, f) =>
           if Py.endswith ".xlsx" filename
           then all_ids ∪ load_existing_leads f
           else all_ids)
        files ∅
  end.

(** The comprehension [l for l in leads if is_valid_website(...)]; [None]
    when a test raises. *)
Fixpoint filter_valid (leads : list Rec) : option (list Rec) :=
  match leads with
  | [] => Some []
  | l :: rest =>
      match is_valid_website_value (rec_get l "Website URL") with
      | None => None
      | Some keep =>
          (fun kept => if keep then l :: kept else kept) <$> filter_valid rest
      end
  end.

(** What one turn of [for f in files] adds to [all_leads]: nothing when the
    body of the [try] raises. *)
Definition read_valid (f : File) : list Rec :=
  match f with
  | Unreadable => []
  | Sheet records => default [] (filter_valid records)
  end.

(** The files [merge_all_files] reads: the glob, then the name filter on
    the paths. *)
Definition merge_inputs (dir : Dir) : Dir :=
  List.filter
    (fun '(name, _) =>
       let f := path_join OUTPUT_DIR name in
       Py.fnmatch_star ("yp_" +:+ NICHE_KEY +:+ "_") ".xlsx" name
       && negb (Py.contains "MERGED" f) && negb (Py.contains "EMAILS" f)
       && negb (Py.contains "HOT" f))
    dir.

(** The list [all_leads] of [merge_all_files] after the loop over the
    files. *)
Definition merge_pool (files : Dir) : list Rec :=
  concat (read_valid ∘ snd <$> files).

(** [merge_all_files], on the output directory after [ensure_output_dir]:
    the records handed to the data frame that is written and returned;
    [None] when the function returns [None] without writing. *)
Definition merge_all_files (dir : Dir) : option (list Rec) :=
  let files := merge_inputs dir in
  if is_nil files then None
  else
    let all_leads := merge_pool files in
    if is_nil all_leads then None
    else renumber 1 <$> dedupe (fun lead => Some (record_id lead)) ∅ all_leads.

(** *** The drivers *)

Section Drivers.

(** The configured search terms and locations, and the configured indices
    of the single and batch modes. *)
Variable SEARCH_TERMS : list string.
Variable LOCATIONS : list string.
Variable CURRENT_TERM_INDEX : Z.
Variable CURRENT_LOCATION_INDEX : Z.

Definition run_single_search : Trace :=
  match py_index SEARCH_TERMS CURRENT_TERM_INDEX,
        py_index LOCATIONS CURRENT_LOCATION_INDEX with
  | Some term, Some location => ([OpLoadIds; OpTask term location], false)
  | _, _ => ([], true)
  end.

(** The loop of [run_batch_search], from location index [li] on. *)
Fixpoint batch_locations (term : string) (li : nat) (locations : list string)
  : list Op :=
  match locations with
  | [] => []
  | location :: rest =>
      [ OpMark CURRENT_TERM_INDEX (Z.of_nat li) "in_progress";
        OpTask term location;
        OpLoadIds ]
      ++ (if (Z.of_nat li <? Z.of_nat (length LOCATIONS) - 1)%Z
          then [OpWait 20 40] else [])
      ++ batch_locations term (S li) rest
  end.

Definition run_batch_search : Trace :=
  match py_index SEARCH_TERMS CURRENT_TERM_INDEX with
  | Some term =>
      ([OpLoadIds]
       ++ batch_locations term 0 LOCATIONS
       ++ [OpMark CURRENT_TERM_INDEX (Z.of_nat (length LOCATIONS) - 1) "completed"],
       false)
  | None => ([], true)
  end.

(** The inner loop of [run_all_searches], from location index [li] on;
    [combo] is threaded through. *)
Fixpoint all_locations (total_combos ti : nat) (term : string)
  (li : nat) (locations : list string) (combo : nat) : list Op * nat :=
  match locations with
  | [] => ([], combo)
  | location :: rest =>
      let combo := S combo in
      let turn :=
        [ OpMark (Z.of_nat ti) (Z.of_nat li) "in_progress";
          OpTask term location;
          OpLoadIds ]
        ++ (if (combo <? total_combos)%nat then [OpWait 20 40] else []) in
      let '(ops, combo') :=
        all_locations total_combos ti term (S li) rest combo in
      (turn ++ ops, combo')
  end.

(** The outer loop of [run_all_searches], from term index [ti] on. *)
Fixpoint all_terms (total_combos ti : nat) (terms : list string) (combo : nat)
  : list Op :=
  match terms with
  | [] => []
  | term :: rest =>
      let '(ops, combo') := all_locations total_combos ti term 0 LOCATIONS combo in
      ops ++ all_terms total_combos (S ti) rest combo'
  end.

Definition run_all_searches : list Op :=
  let total_combos := (length SEARCH_TERMS * length LOCATIONS)%nat in
  [OpLoadIds]
  ++ all_terms total_combos 0 SEARCH_TERMS 0
  ++ [ OpMark (Z.of_nat (length SEARCH_TERMS) - 1)
              (Z.of_nat (length LOCATIONS) - 1) "completed" ].

End Drivers.

End Janitor.

(** ** [yp_b2b_warehouse_scraper.py] *)

Module B2B.

Definition MAX_PAGES : nat := 10.

(** On [str] arguments. *)
Definition generate_lead_id (company_name phone : string) : string :=
  let key := Py.strip (Py.lower company_name) +:+ "|" +:+ Py.strip phone in
  Py.take 12 (MD5.hexdigest (encode key)).

Definition EMAIL_BLACKLIST : list string :=
  [ "example.com"; "domain.com"; "email.com"; "yoursite"; "yourdomain";
    "sentry.io"; "schema.org"; "json"; "wixpress"; "wix.com";
    "googleapis"; "google.com"; "facebook"; "twitter"; "instagram";
    ".png"; ".jpg"; ".gif"; ".svg"; ".css"; ".js";
    "yellowpages"; "yp.com"; "placeholder"; "test.com";
    "wordpress"; "squarespace"; "shopify"; "godaddy" ].

Definition is_valid_email : string -> bool :=
  is_valid_email EMAIL_BLACKLIST.

(** The negation of [not website_url or website_url == N/A]. *)
Definition site_guard (website_url : string) : bool :=
  negb (negb (Py.truthy website_url) || String.eqb website_url "N/A").

Definition extract_email_from_website (web : string -> option Page)
  : string -> string :=
  extract_email_from_website EMAIL_BLACKLIST site_guard web.

Definition extract_email_from_detail (web : string -> option Page)
  : string -> string -> string :=
  extract_email_from_detail EMAIL_BLACKLIST site_guard Py.truthy web.

Definition parse_listing (industry_label today : string) (listing : Fragment)
  : option Lead :=
  let company := elem_text (name_element listing) in
  if negb (Py.truthy company) then None
  else
    let phone := elem_text (phones listing) in
    let address := join_address (elem_text (street_address listing))
                                (elem_text (locality listing)) in
    match website_href listing with
    | None => None
    | Some website =>
        Some {| company_name := company; niche := industry_label;
                category := elem_text (categories listing);
                email_address := EmptyString; phone_number := phone;
                website_url := website; address := address;
                date_added := today; source := detail_link listing;
                lead_id := generate_lead_id company phone |}
    end.

Definition get_listings_from_page (industry_label today : string) (v : View)
  : option (list Lead) :=
  match v with
  | Dead => None
  | Shown d =>
      if negb (has_search_results d || negb (is_nil (result_elements d)))
      then Some []
      else Some (omap (fun el => el ≫= parse_listing industry_label today)
                      (result_elements d))
  end.

Definition save_leads_to_excel (leads : list Lead) : option (list Row) :=
  if is_nil leads then None
  else Some (number_rows 1 leads).

Definition load_existing (env : Env) : list Lead :=
  match existing_file env with
  | Some rows => of_row generate_lead_id <$> rows
  | None => []
  end.

Definition pages_loop (env : Env) (search_label base_url : string)
  (existing_ids : gset string) : list nat -> St -> St * bool :=
  pages_loop MAX_PAGES (get_listings_from_page search_label (today env))
    (extract_email_from_detail (web env)) save_leads_to_excel
    (nav env) base_url existing_ids.

Definition page_step (env : Env) (search_label base_url : string)
  (existing_ids : gset string) : St -> nat -> Flow * St :=
  page_step MAX_PAGES (get_listings_from_page search_label (today env))
    (extract_email_from_detail (web env)) save_leads_to_excel
    (nav env) base_url existing_ids.

Definition scrape_search (env : Env) (search_term search_label location : string)
  (existing_ids : gset string) : St :=
  run_task MAX_PAGES (get_listings_from_page search_label (today env))
    (extract_email_from_detail (web env)) save_leads_to_excel
    (nav env) (task_url location search_term) existing_ids
    (load_existing env).

Definition OUTPUT_DIR : string := "exports_b2b_warehouse".

(** [generate_lead_id] on values read back: [None] when [lower] or [strip]
    raises, as they do on a value that is not a text. *)
Definition generate_lead_id_value (company_name phone : Cell) : option string :=
  match company_name, phone with
  | Text c, Text p => Some (generate_lead_id c p)
  | _, _ => None
  end.

(** [generate_lead_id(row[Company Name], row.get(Phone Number, empty))];
    [None] when it raises, also on a missing name column. *)
Definition row_id (row : Rec) : option string :=
  row !! "Company Name"
    ≫= fun c => generate_lead_id_value c (rec_get row "Phone Number").

(** [load_existing_leads] on a file that exists: the bare [except] turns
    any exception into the empty set. *)
Definition load_existing_leads (f : File) : gset string :=
  match f with
  | Unreadable => ∅
  | Sheet records =>
      match mapM row_id records with
      | Some ids => list_to_set ids
      | None => ∅
      end
  end.

(** [load_all_existing_lead_ids]; [None] is a missing output directory. *)
Definition load_all_existing_lead_ids (dir : option Dir) : gset string :=
  match dir with
  | None => ∅
  | Some files =>
      fold_left
        (fun all_ids '(filename, f) =>
           if Py.endswith ".xlsx" filename
           then all_ids ∪ load_existing_leads f
           else all_ids)
        files ∅
  end.

(** [generate_lead_id(lead.get(Company Name, empty), lead.get(Phone Number, empty))] *)
Definition record_id (lead : Rec) : option string :=
  generate_lead_id_value (rec_get lead "Company Name")
                         (rec_get lead "Phone Number").

(** The files [merge_all_files] reads: the glob alone. *)
Definition merge_inputs (dir : Dir) : Dir :=
  List.filter (fun '(name, _) => Py.fnmatch_star "yp_b2b_" ".xlsx" name) dir.

Definition read_records (f : File) : list Rec :=
  match f with
  | Unreadable => []
  | Sheet records => records
  end.

(** The list [all_leads] of [merge_all_files] after the loop over the
    files. *)
Definition merge_pool (files : Dir) : list Rec :=
  concat (read_records ∘ snd <$> files).

(** [merge_all_files], on the output directory after [ensure_output_dir]:
    the records handed to the data frame that is written and returned,
    [None] when it returns [None] without writing; the exception of a key
    that cannot be computed escapes. *)
Definition merge_all_files (dir : Dir) : Outcome (option (list Rec)) :=
  let files := merge_inputs dir in
  if is_nil files then Returns None
  else
    let all_leads := merge_pool files in
    if is_nil all_leads then Returns None
    else
      match dedupe record_id ∅ all_leads with
      | None => Raises
      | Some unique_leads => Returns (Some (renumber 1 unique_leads))
      end.

(** *** The drivers *)

Section Drivers.

(** The configured searches, as (term, label), and locations. *)
Variable SEARCHES : list (string * string).
Variable LOCATIONS : list string.

(** The inner loop of [run_all_searches], from location index [li] on;
    [combo_count] is threaded through. *)
Fixpoint all_locations (total_combos si : nat) (search : string * string)
  (li : nat) (locations : list string) (combo_count : nat) : list Op * nat :=
  match locations with
  | [] => ([], combo_count)
  | location :: rest =>
      let combo_count := S combo_count in
      let turn :=
        [ OpProgress (Z.of_nat si) (Z.of_nat li) 0 "in_progress";
          OpScrape (fst search) (snd search) location;
          OpLoadIds ]
        ++ (if (combo_count <? total_combos)%nat then [OpWait 20 40] else []) in
      let '(ops, combo_count') :=
        all_locations total_combos si search (S li) rest combo_count in
      (turn ++ ops, combo_count')
  end.

(** The outer loop of [run_all_searches], from search index [si] on. *)
Fixpoint all_searches (total_combos si : nat) (searches : list (string * string))
  (combo_count : nat) : list Op :=
  match searches with
  | [] => []
  | search :: rest =>
      let '(ops, combo_count') :=
        all_locations total_combos si search 0 LOCATIONS combo_count in
      ops ++ all_searches total_combos (S si) rest combo_count'
  end.

Definition run_all_searches : list Op :=
  let total_combos := (length SEARCHES * length LOCATIONS)%nat in
  [OpLoadIds]
  ++ all_searches total_combos 0 SEARCHES 0
  ++ [ OpProgress (Z.of_nat (length SEARCHES) - 1) (Z.of_nat (length LOCATIONS) - 1)
                  0 "completed" ].




End Drivers.

End B2B.

(** ** [yp_6_safety.py] *)

Module Safety.

Definition NICHE_LABEL : string := "Industrial Safety Supplier".
Definition MAX_PAGES : nat := 5.
Definition FETCH_EMAILS : bool := true.

Definition EMAIL_BLACKLIST : list string :=
  [ "example.com"; "domain.com"; "sentry.io"; "schema.org"; "wixpress";
    "googleapis"; "yellowpages"; ".png"; ".jpg"; ".css"; ".js" ].

Definition is_valid_website (url : string) : bool :=
  if negb (Py.truthy url) || negb (Py.truthy (Py.strip url)) then false
  else
    let url_lower := Py.strip (Py.lower url) in
    let invalid_patterns :=
      [ "localsearch.com"; "yellowpages.com"; "yp.com"; "superpages.com";
        "whitepages.com"; "manta.com"; "yelp.com" ] in
    negb (Py.any_in invalid_patterns url_lower).

Definition gen_id (name phone : string) : string :=
  Py.take 12
    (MD5.hexdigest (encode (Py.strip (Py.lower name) +:+ "|" +:+ Py.strip phone))).

Definition valid_email (e : string) : bool :=
  Py.truthy e && Py.contains "@" e
  && negb (Py.any_in EMAIL_BLACKLIST (Py.lower e)).

(** The mailto link, then the email-shaped tokens, of one markup. *)
Definition scan_source (src : string) : option string :=
  match Re.search_mailto src with
  | Some g =>
      if valid_email g then Some (Py.strip g)
      else List.find valid_email (Re.findall_email src)
  | None => List.find valid_email (Re.findall_email src)
  end.

Fixpoint contact_pages (web : string -> option Page) (base : string)
  (paths : list string) : string :=
  match paths with
  | [] => EmptyString
  | p :: rest =>
      match web (base +:+ p) with
      | None => contact_pages web base rest
      | Some pg =>
          match scan_source (page_source pg) with
          | Some e => e
          | None => contact_pages web base rest
          end
      end
  end.

Definition get_email_from_site (web : string -> option Page) (url : string) : string :=
  if negb (Py.truthy url) || negb (is_valid_website url) then EmptyString
  else
    let url := if Py.startswith "http" url then url else "https://" +:+ url in
    match web url with
    | None => EmptyString
    | Some pg =>
        match scan_source (page_source pg) with
        | Some e => e
        | None =>
            contact_pages web (Py.rstrip_char "/" url)
              [ "/contact"; "/contact-us"; "/about" ]
        end
    end.

Definition is_blocked (src : string) : bool :=
  Py.contains "blocked" (Py.lower src)
  || (Py.contains "cloudflare" (Py.lower src)
      && Py.contains "ray id" (Py.lower src)).

Definition get_email (web : string -> option Page) (detail_url website : string)
  : string :=
  match web detail_url with
  | None => EmptyString
  | Some pg =>
      if is_blocked (page_source pg) then
        if Py.truthy website && is_valid_website website
        then get_email_from_site web website
        else BLOCKED
      else
        match scan_source (page_source_scrolled pg) with
        | Some e => e
        | None =>
            if Py.truthy website && is_valid_website website
            then get_email_from_site web website
            else EmptyString
        end
  end.

Definition parse_listing (today : string) (lst : Fragment) : option Lead :=
  let name := elem_text (name_element lst) in
  if negb (Py.truthy name) then None
  else
    match website_href lst with
    | None => None
    | Some web =>
        if negb (is_valid_website web) then None
        else
          let phone := elem_text (phones lst) in
          Some {| company_name := name; niche := NICHE_LABEL;
                  category := elem_text (categories lst);
                  email_address := EmptyString; phone_number := phone;
                  website_url := web;
                  address := join_address (elem_text (street_address lst))
                                          (elem_text (locality lst));
                  date_added := today; source := detail_link lst;
                  lead_id := gen_id name phone |}
    end.

Definition get_page_listings (today : string) (v : View) : option (list Lead) :=
  match v with
  | Dead => None
  | Shown d =>
      if is_nil (result_elements d) then Some []
      else Some (omap (fun el => el ≫= parse_listing today) (result_elements d))
  end.

Definition save_xlsx (leads : list Lead) : option (list Row) :=
  if is_nil leads then None
  else
    let clean := List.filter (fun l => is_valid_website (website_url l)) leads in
    if is_nil clean then None
    else Some (number_rows 1 clean).

Definition save_events (leads : list Lead) : list Event :=
  match save_xlsx leads with
  | Some rows => [EvSave rows]
  | None => []
  end.

(** The email loop of [scrape]. *)
Fixpoint fetch_emails (web : string -> option Page) (new_lst : list Lead)
  (blocks : nat) : list Lead * nat * list Event :=
  match new_lst with
  | [] => ([], blocks, [])
  | l :: rest =>
      let em := get_email web (source l) (website_url l) in
      let '(l', blocks1) :=
        if String.eqb em BLOCKED then (l, blocks + 1)%nat
        else if Py.truthy em then (set_email l em, blocks)
        else (l, blocks) in
      if (5 <=? blocks1)%nat then
        let '(ls, b, evs) := fetch_emails web rest 0 in
        (l' :: ls, b, EvQuit :: EvSleep 5 :: EvCreate :: evs)
      else
        let '(ls, b, evs) := fetch_emails web rest blocks1 in
        (l' :: ls, b, evs)
  end.

(** One turn of [for pg in range(1, MAX_PAGES+1)]. *)
Definition page_step (env : Env) (url : string) (existing_ids : gset string)
  (st : St) (pg : nat) : Flow * St :=
  let pg_url := page_url url pg in
  match nav env pg_url 0 with
  | NavFail _ => (Next, emit st [EvGet pg_url])
  | NavOk view =>
      let st := emit st [EvGet pg_url; EvSleep 2] in
      match get_page_listings (today env) view with
      | None => (Raised, st)
      | Some listings =>
          if is_nil listings then (Stop, st)
          else
            let new_lst :=
              List.filter
                (fun l => bool_decide (lead_id l ∉ existing_ids)
                          && bool_decide (lead_id l ∉ local_ids st))
                listings in
            let local' :=
              fold_left (fun ids l => {[lead_id l]} ∪ ids) new_lst (local_ids st) in
            if is_nil new_lst then
              (Next,
               {| all_leads := all_leads st; local_ids := local';
                  new_leads_count := new_leads_count st;
                  blocked_count := blocked_count st; log := log st |})
            else
              let '(fetched, blocks', fetch_evs) :=
                if FETCH_EMAILS
                then fetch_emails (web env) new_lst (blocked_count st)
                else (new_lst, blocked_count st, []) in
              let leads := all_leads st ++ fetched in
              let pause :=
                if (pg <? MAX_PAGES)%nat
                then [EvQuit; EvSleep 3; EvCreate; EvSleepUniform 12 17]
                else [] in
              (Next,
               {| all_leads := leads; local_ids := local';
                  new_leads_count := new_leads_count st + length new_lst;
                  blocked_count := blocks';
                  log := log st ++ fetch_evs ++ save_events leads ++ pause |})
      end
  end.

Fixpoint pages_loop (env : Env) (url : string) (existing_ids : gset string)
  (pages : list nat) (st : St) : St * bool :=
  match pages with
  | [] => (st, false)
  | pg :: rest =>
      match page_step env url existing_ids st pg with
      | (Next, st') => pages_loop env url existing_ids rest st'
      | (Stop, st') => (st', false)
      | (Raised, st') => (st', true)
      end
  end.

Definition load_existing (env : Env) : list Lead :=
  match existing_file env with
  | Some rows =>
      of_row gen_id
        <$> List.filter (fun r => is_valid_website (row_website r)) rows
  | None => []
  end.

(** [scrape]: the handler of an escaped exception only prints. *)
Definition scrape (env : Env) (term location : string)
  (existing_ids : gset string) : St :=
  let leads := load_existing env in
  let st0 :=
    {| all_leads := leads; local_ids := list_to_set (lead_id <$> leads);
       new_leads_count := 0; blocked_count := 0; log := [EvCreate] |} in
  let '(st, _) :=
    pages_loop env (task_url location term) existing_ids
      (seq 1 MAX_PAGES) st0 in
  emit st [EvQuit].

Definition OUTPUT_DIR : string := "exports_safety".



(** [gen_id(r.get(Company Name, empty), r.get(Phone Number, empty))] *)
Definition row_id (r : Rec) : string :=
  gen_id (str (rec_get r "Company Name")) (str (rec_get r "Phone Number")).


(** *** The run at the end of the file *)

Section Run.

Variable SEARCH_TERMS : list string.
Variable LOCATIONS : list string.
Variable CURRENT_TERM_INDEX : Z.
Variable CURRENT_LOCATION_INDEX : Z.
Variable RUN_ALL : bool.

Fixpoint run_locations (term : string) (locations : list string) : list Op :=
  match locations with
  | [] => []
  | loc :: rest =>
      [OpTask term loc; OpLoadIds; OpWait 15 30] ++ run_locations term rest
  end.

Fixpoint run_terms (terms : list string) : list Op :=
  match terms with
  | [] => []
  | term :: rest => run_locations term LOCATIONS ++ run_terms rest
  end.

(** The statements under RUN, after [ensure_dir()]. *)
Definition run : Trace :=
  if RUN_ALL then ([OpLoadIds] ++ run_terms SEARCH_TERMS, false)
  else
    match py_index SEARCH_TERMS CURRENT_TERM_INDEX,
          py_index LOCATIONS CURRENT_LOCATION_INDEX with
    | Some term, Some loc => ([OpLoadIds; OpTask term loc], false)
    | _, _ => ([OpLoadIds], true)
    end.

End Run.

End Safety.

(** ** Strings that are white space only *)

Fixpoint all_space (s : string) : bool :=
  match s with
  | EmptyString => true
  | String c s' => Py.is_space c && all_space s'
  end.

(** A pattern that neither starts nor ends with white space. *)
Fixpoint ends_solid (p : string) : bool :=
  match p with
  | EmptyString => false
  | String c EmptyString => negb (Py.is_space c)
  | String _ p' => ends_solid p'
  end.

Definition solid (p : string) : bool :=
  match p with
  | EmptyString => false
  | String c _ => negb (Py.is_space c) && ends_solid p
  end.

(** ** The identity as the specification words it

    The first 12 hexadecimal characters of the digest of
    lowercase(trim(name)), a bar, trim(phone). *)





(** ** Sample inputs *)

Definition tag (t : string) : Element := {| text := t; href := None |}.
Definition anchor (t h : string) : Element := {| text := t; href := Some h |}.

(** A result fragment with a name, a detail link, a phone and, when [site]
    is given, a website link. *)
Definition sample_listing (name path phone : string) (site : option string) : Fragment :=
  {| business_name_span := Some (tag name);
     business_name := Some (anchor name path);
     track_visit_website :=
       match site with Some h => Some (anchor "Website" h) | None => None end;
     phones := Some (tag phone);
     street_address := Some (tag "10 Main St");
     locality := Some (tag "Queens, NY 11101");
     categories := Some (tag "Wholesalers") |}.

Definition results_page (frs : list Fragment) : View :=
  Shown {| has_search_results := true; result_elements := Some <$> frs |}.

(** A site whose first results page for the task holds [frs] and whose
    other pages hold no result; no other address can be loaded. *)
Definition one_page_site (url : string) (frs : list Fragment) : Env :=
  {| nav := fun u _ => if String.eqb u url then NavOk (results_page frs) else NavOk Blank;
     web := fun _ => None;
     today := "01/02/26";
     existing_file := None |}.


Definition acme_listing : Fragment :=
  sample_listing "Acme Supply" "/queens-ny/mip/acme-supply-1" "(718) 555-0100"
    (Some "https://acme-supply.com").

(** The same business listed a second time, in another case and with
    another detail link. *)
Definition acme_listing_again : Fragment :=
  sample_listing "ACME SUPPLY " "/queens-ny/mip/acme-supply-2" "(718) 555-0100"
    (Some "https://acme-supply.com").

Definition wholesale_url : string := task_url "queens-ny" "wholesale".


(** A site that cannot be reached: every navigation raises and leaves an
    empty document. *)
Definition down_site : Env :=
  {| nav := fun _ _ => NavFail Blank;
     web := fun _ => None;
     today := "01/02/26";
     existing_file := None |}.

(** A site whose every navigation raises on a page-load timeout while the
    session already shows the results [frs]. *)
Definition slow_site (frs : list Fragment) : Env :=
  {| nav := fun _ _ => NavFail (results_page frs);
     web := fun _ => None;
     today := "01/02/26";
     existing_file := None |}.


Definition is_save (ev : Event) : bool :=
  match ev with EvSave _ => true | _ => false end.

Definition is_get (ev : Event) : bool :=
  match ev with EvGet _ => true | _ => false end.

(** The addresses navigated to, in order. *)
Fixpoint gets (evs : list Event) : list string :=
  match evs with
  | [] => []
  | EvGet u :: evs' => u :: gets evs'
  | _ :: evs' => gets evs'
  end.



(** The identity of a listing is already in the global or the local scope. *)
Definition known (ex local : gset string) (l : Lead) : Prop :=
  lead_id l ∈ ex \/ lead_id l ∈ local.

(** A page turn that changed nothing but the log, and wrote nothing. *)
Definition skipped (st st' : St) : Prop :=
  all_leads st' = all_leads st
  /\ local_ids st' = local_ids st
  /\ new_leads_count st' = new_leads_count st
  /\ exists evs, log st' = log st ++ evs /\ List.filter is_save evs = [].

(** The listings the janitor file parses from the page that holds
    [acme_listing]. *)
Definition acme_leads : list Lead :=
  Eval vm_compute in
    default [] (Janitor.get_listings_from_page "01/02/26" (results_page [acme_listing])).

Definition acme_id : string := "de06b94d395d".

Definition fresh_state : St :=
  {| all_leads := []; local_ids := ∅; new_leads_count := 0;
     blocked_count := 0; log := [EvCreate] |}.



(** The detail page of a listing, answered by the content-delivery
    network with a challenge. *)
Definition challenge_page : Page :=
  {| page_source := "<html><head><title>Attention Required! | Cloudflare</title></head><body><h1>Sorry, you have been blocked</h1><span>Cloudflare Ray ID: 8f2a1c</span></body></html>";
     page_source_scrolled := "<html><head><title>Attention Required! | Cloudflare</title></head><body><h1>Sorry, you have been blocked</h1><span>Cloudflare Ray ID: 8f2a1c</span></body></html>";
     title := "Attention Required! | Cloudflare";
     email_elements := Some [];
     mailto_links := Some [];
     soup_links := [] |}.

(** The home page of the company, with a mailto link. *)
Definition acme_home : Page :=
  {| page_source := "<html><body><h1>Acme</h1><a href='mailto:info@acme.com'>Write to us</a></body></html>";
     page_source_scrolled := "<html><body><h1>Acme</h1><a href='mailto:info@acme.com'>Write to us</a></body></html>";
     title := "Acme Supply";
     email_elements := Some [];
     mailto_links := Some ["mailto:info@acme.com"];
     soup_links := ["mailto:info@acme.com"] |}.

Definition acme_detail_url : string :=
  "https://www.yellowpages.com/queens-ny/mip/acme-supply-1".

Definition acme_web (url : string) : option Page :=
  if String.eqb url acme_detail_url then Some challenge_page
  else if String.eqb url "https://acme.com" then Some acme_home
  else None.

(** An email cell is empty or holds an address the validator accepts. *)
Definition email_ok (valid : string -> bool) (e : string) : Prop :=
  e = EmptyString \/ valid e = true.

(** Every write in the log holds only rows whose email cell is fine. *)
Definition saves_ok (valid : string -> bool) (evs : list Event) : Prop :=
  Forall (fun ev =>
            match ev with
            | EvSave rows => Forall (fun r => email_ok valid (row_email r)) rows
            | _ => True
            end) evs.

(** The email cells of the task's own spreadsheet are fine. *)
Definition existing_emails_ok (valid : string -> bool) (env : Env) : Prop :=
  match existing_file env with
  | Some rows => Forall (fun r => email_ok valid (row_email r)) rows
  | None => True
  end.

(** The email field of every lead is fine, and is not the sentinel. *)
Definition leads_ok (valid : string -> bool) (leads : list Lead) : Prop :=
  Forall (fun l => email_ok valid (email_address l)) leads.

(** A site whose single listing has a blocked detail page and no website
    of its own to fall back on but a directory entry. *)
Definition blocked_site : Env :=
  {| nav := fun u _ =>
       if String.eqb u wholesale_url then NavOk (results_page [acme_listing])
       else NavOk Blank;
     web := fun u => if String.eqb u acme_detail_url then Some challenge_page else None;
     today := "01/02/26";
     existing_file :=
       Some [ {| row_num := 1; row_company := "Borough Paper Co.";
                 row_niche := "Janitorial/Cleaning Supplier";
                 row_category := "Paper Products";
                 row_email := "sales@boroughpaper.com";
                 row_phone := "(718) 555-0199";
                 row_website := "https://boroughpaper.com";
                 row_address := "5 Dock St Brooklyn, NY 11201";
                 row_date_added := "12/30/25";
                 row_source := "https://www.yellowpages.com/brooklyn-ny/mip/borough-paper-2" |} ] |}.

(** The leads added to the loaded ones have pairwise distinct identities,
    none of which is in the global scope or among the loaded leads; the
    local scope is the set of all identities accumulated. *)
Definition accepted_once (ex : gset string) (existing : list Lead) (st : St) : Prop :=
  exists added,
    all_leads st = existing ++ added
    /\ NoDup (lead_id <$> added)
    /\ (forall i, i ∈ lead_id <$> added -> i ∉ ex /\ i ∉ lead_id <$> existing)
    /\ local_ids st = list_to_set (lead_id <$> all_leads st).

Definition twice_listed_env : Env :=
  one_page_site wholesale_url [acme_listing; acme_listing_again].
Definition acme_env : Env := one_page_site wholesale_url [acme_listing].

(** ** The email loop, read as a map *)

(** What the email loop does to one lead, given the result of the cascade. *)
Definition assign_email (result : string) (lead : Lead) : Lead :=
  if String.eqb result BLOCKED then lead
  else if Py.truthy result then set_email lead result
  else lead.

(** How many of the leads get the sentinel from the cascade. *)
Definition sentinel_count (extract : string -> string -> string) (leads : list Lead) : nat :=
  length (List.filter
            (fun l => String.eqb (extract (source l) (website_url l)) BLOCKED) leads).

(** How many sessions the log creates. *)
Definition creates (evs : list Event) : nat :=
  length (List.filter (fun ev => match ev with EvCreate => true | _ => false end) evs).

(** The rows of the last write of the log, if any. *)
Fixpoint last_save (evs : list Event) : option (list Row) :=
  match evs with
  | [] => None
  | ev :: evs' =>
      match last_save evs' with
      | Some rows => Some rows
      | None => match ev with EvSave rows => Some rows | _ => None end
      end
  end.

(** The addresses of a run of pages: page [first] tried [k1] times, the
    next page [k2] times, and so on. *)
Fixpoint visits (base_url : string) (first : nat) (tries : list nat) : list string :=
  match tries with
  | [] => []
  | k :: rest => replicate k (page_url base_url first) ++ visits base_url (S first) rest
  end.




(** Sample records read back, and a sample output directory. *)
Definition sample_record (name phone website : Cell) : Rec :=
  <["Company Name" := name]>
    (<["Phone Number" := phone]> (<["Website URL" := website]> ∅)).

Definition acme_record : Rec :=
  sample_record (Text "Acme Supply") (Text "(718) 555-0100")
                (Text "https://acme-supply.com").
Definition acme_record_again : Rec :=
  sample_record (Text "ACME SUPPLY ") (Text "(718) 555-0100")
                (Text "https://www.acme-supply.com").
Definition borough_record : Rec :=
  sample_record (Text "Borough Paper Co.") NaN (Text "https://boroughpaper.com").
Definition no_site_record : Rec :=
  sample_record (Text "Corner Mops") (Text "(718) 555-0111") NaN.
Definition delta_record : Rec :=
  sample_record (Text "Delta Chemical") (Text "(718) 555-0122")
                (Text "https://deltachem.com").

Definition janitor_dir : Dir :=
  [ ("yp_janitor_queens-ny_janitorial-supplies.xlsx",
     Sheet [acme_record; borough_record]);
    ("yp_janitor_brooklyn-ny_janitorial-supplies.xlsx",
     Sheet [acme_record_again]);
    ("yp_janitor_bronx-ny_janitorial-supplies.xlsx",
     Sheet [delta_record; no_site_record]);
    ("yp_janitor_notes.xlsx", Unreadable) ].

Definition b2b_dir : Dir :=
  [ ("yp_b2b_queens-ny_wholesale.xlsx", Sheet [acme_record; delta_record]);
    ("yp_b2b_ALL_LEADS_MERGED.xlsx", Sheet [acme_record_again]) ].




(** The tasks of a list of steps, in order. *)
Definition scrapes (ops : list Op) : list (string * string * string) :=
  omap (fun op => match op with
                  | OpScrape term label location => Some (term, label, location)
                  | _ => None
                  end) ops.

(** The steps that mark the run as completed. *)
Definition is_completed (op : Op) : bool :=
  match op with
  | OpProgress _ _ _ status => String.eqb status "completed"
  | OpMark _ _ status => String.eqb status "completed"
  | _ => false
  end.

(** The tasks without label of a list of steps, in order. *)
Definition tasks (ops : list Op) : list (string * string) :=
  omap (fun op => match op with
                  | OpTask term location => Some (term, location)
                  | _ => None
                  end) ops.

Definition sample_terms : list string :=
  [ "janitorial-supplies"; "cleaning-supplies" ].

(** The number of pauses. *)
Definition waits (ops : list Op) : nat :=
  length (List.filter (fun op => match op with OpWait _ _ => true | _ => false end) ops).

Definition sample_locations : list string :=
  [ "queens-ny"; "brooklyn-ny"; "bronx-ny" ].

(** * Properties *)

(** ** Strings *)

Lemma app_empty_r (s : string) : s +:+ EmptyString = s.
Proof. induction s as [|c s IH]; simpl; [reflexivity | now rewrite IH]. Qed.

Lemma app_assoc_s (a b c : string) : (a +:+ b) +:+ c = a +:+ (b +:+ c).
Proof. induction a as [|x a IH]; simpl; [reflexivity | now rewrite IH]. Qed.

Lemma startswith_app (p b : string) : Py.startswith p (p +:+ b) = true.
Proof.
  induction p as [|c p IH]; simpl; [reflexivity |].
  rewrite Ascii.eqb_refl. exact IH.
Qed.

Lemma startswith_inv (p s : string) :
  Py.startswith p s = true -> exists b, s = p +:+ b.
Proof.
  revert s. induction p as [|c p IH]; intros s H.
  - exists s. reflexivity.
  - destruct s as [|d s]; simpl in H; [discriminate |].
    apply andb_true_iff in H as [Hc Hp].
    apply Ascii.eqb_eq in Hc. subst d.
    destruct (IH _ Hp) as [b ->]. exists b. reflexivity.
Qed.

Lemma contains_of_startswith (p s : string) :
  Py.startswith p s = true -> Py.contains p s = true.
Proof. intros H. destruct s; simpl; rewrite H; reflexivity. Qed.

Lemma contains_cons (p : string) (c : ascii) (s : string) :
  Py.contains p s = true -> Py.contains p (String c s) = true.
Proof. intros H. simpl. rewrite H. apply orb_true_r. Qed.

Lemma contains_app (a p b : string) : Py.contains p (a +:+ p +:+ b) = true.
Proof.
  induction a as [|c a IH].
  - apply contains_of_startswith. exact (startswith_app p b).
  - apply (contains_cons p c (a +:+ p +:+ b)), IH.
Qed.

Lemma contains_inv (p s : string) :
  Py.contains p s = true -> exists a b, s = a +:+ p +:+ b.
Proof.
  induction s as [|c s IH]; simpl; intros H.
  - rewrite orb_false_r in H. destruct p; [|discriminate].
    exists EmptyString, EmptyString. reflexivity.
  - apply orb_true_iff in H as [H|H].
    + destruct (startswith_inv p (String c s) H) as [b Hb].
      exists EmptyString, b. exact Hb.
    + destruct (IH H) as (a & b & ->).
      exists (String c a), b. reflexivity.
Qed.

Lemma lstrip_keeps (a : string) (c : ascii) (r : string) :
  Py.is_space c = false ->
  exists a', Py.lstrip (a +:+ String c r) = a' +:+ String c r.
Proof.
  intros Hc. induction a as [|x a IH]; simpl.
  - rewrite Hc. exists EmptyString. reflexivity.
  - destruct (Py.is_space x).
    + exact IH.
    + exists (String x a). reflexivity.
Qed.

Lemma is_empty_app_cons (w : string) (d : ascii) (b : string) :
  Py.is_empty (w +:+ String d b) = false.
Proof. destruct w; reflexivity. Qed.

Lemma rstrip_keeps (w : string) (d : ascii) (b : string) :
  Py.is_space d = false ->
  Py.rstrip (w +:+ String d b) = w +:+ String d (Py.rstrip b).
Proof.
  intros Hd. induction w as [|x w IH]; simpl.
  - rewrite Hd. reflexivity.
  - rewrite IH, is_empty_app_cons, andb_false_r. reflexivity.
Qed.

Lemma ends_solid_split (p : string) :
  ends_solid p = true ->
  exists q d, p = q +:+ String d EmptyString /\ Py.is_space d = false.
Proof.
  induction p as [|c p IH]; simpl; [discriminate |].
  destruct p as [|c' p'].
  - intros H. exists EmptyString, c. split; [reflexivity |].
    now apply negb_true_iff.
  - intros H. destruct (IH H) as (q & d & Hq & Hd).
    exists (String c q), d. split; [|exact Hd].
    simpl. now rewrite <- Hq.
Qed.

Lemma contains_strip (p s : string) :
  solid p = true -> Py.contains p s = true -> Py.contains p (Py.strip s) = true.
Proof.
  intros Hp Hc.
  destruct (contains_inv _ _ Hc) as (a & b & ->).
  destruct p as [|c p']; [discriminate |].
  simpl in Hp. apply andb_true_iff in Hp as [Hc1 Hend].
  apply negb_true_iff in Hc1.
  destruct (ends_solid_split (String c p') Hend) as (q & d & Hq & Hd).
  unfold Py.strip.
  change (a +:+ String c p' +:+ b) with (a +:+ String c (p' +:+ b)).
  destruct (lstrip_keeps a c (p' +:+ b) Hc1) as [a' ->].
  change (a' +:+ String c (p' +:+ b)) with (a' +:+ (String c p' +:+ b)).
  rewrite Hq.
  replace (a' +:+ (q +:+ String d EmptyString) +:+ b)
    with ((a' +:+ q) +:+ String d b)
    by (rewrite !app_assoc_s; reflexivity).
  rewrite (rstrip_keeps _ _ _ Hd).
  replace ((a' +:+ q) +:+ String d (Py.rstrip b))
    with (a' +:+ (q +:+ String d EmptyString) +:+ Py.rstrip b)
    by (rewrite !app_assoc_s; reflexivity).
  apply contains_app.
Qed.

Lemma all_space_strip (s : string) : all_space s = true -> Py.strip s = EmptyString.
Proof.
  unfold Py.strip. induction s as [|c s IH]; simpl; [reflexivity |].
  intros H. apply andb_true_iff in H as [Hc Hs]. rewrite Hc. auto.
Qed.

Lemma any_in_strip (ps : list string) (s : string) :
  forallb solid ps = true ->
  Py.any_in ps s = true -> Py.any_in ps (Py.strip s) = true.
Proof.
  unfold Py.any_in. intros Hs H.
  apply existsb_exists in H as (p & Hin & Hp).
  apply existsb_exists. exists p. split; [exact Hin |].
  apply contains_strip; [|exact Hp].
  rewrite forallb_forall in Hs. auto.
Qed.

Lemma is_space_lower_char (c : ascii) : Py.is_space (Py.lower_char c) = Py.is_space c.
Proof. destruct c as [[] [] [] [] [] [] [] []]; reflexivity. Qed.

Lemma lower_char_idem (c : ascii) : Py.lower_char (Py.lower_char c) = Py.lower_char c.
Proof. destruct c as [[] [] [] [] [] [] [] []]; reflexivity. Qed.

Lemma lower_idem (s : string) : Py.lower (Py.lower s) = Py.lower s.
Proof.
  induction s as [|c s IH]; simpl; [reflexivity |].
  now rewrite lower_char_idem, IH.
Qed.

Lemma lstrip_lower (s : string) : Py.lstrip (Py.lower s) = Py.lower (Py.lstrip s).
Proof.
  induction s as [|c s IH]; simpl; [reflexivity |].
  rewrite is_space_lower_char. destruct (Py.is_space c); [exact IH | reflexivity].
Qed.

Lemma is_empty_lower (s : string) : Py.is_empty (Py.lower s) = Py.is_empty s.
Proof. destruct s; reflexivity. Qed.

Lemma rstrip_lower (s : string) : Py.rstrip (Py.lower s) = Py.lower (Py.rstrip s).
Proof.
  induction s as [|c s IH]; simpl; [reflexivity |].
  rewrite is_space_lower_char, IH, is_empty_lower.
  destruct (Py.is_space c && Py.is_empty (Py.rstrip s)); reflexivity.
Qed.

(** Lower-casing and trimming commute. *)
Lemma strip_lower (s : string) : Py.strip (Py.lower s) = Py.lower (Py.strip s).
Proof. unfold Py.strip. now rewrite lstrip_lower, rstrip_lower. Qed.







(** ** The website filter *)

Lemma forallb_solid_patterns : forallb solid Janitor.INVALID_WEBSITE_PATTERNS = true.
Proof. reflexivity. Qed.

Lemma janitor_rejects_blacklisted (url : string) :
  Py.any_in Janitor.INVALID_WEBSITE_PATTERNS (Py.lower url) = true ->
  Janitor.is_valid_website url = false.
Proof.
  intros H. unfold Janitor.is_valid_website.
  destruct (negb (Py.truthy url) || negb (Py.truthy (Py.strip url)) || String.eqb url "N/A");
    [reflexivity |].
  rewrite (any_in_strip _ _ forallb_solid_patterns H). reflexivity.
Qed.

Lemma safety_rejects_blacklisted (url : string) :
  Py.any_in Janitor.INVALID_WEBSITE_PATTERNS (Py.lower url) = true ->
  Safety.is_valid_website url = false.
Proof.
  intros H. unfold Safety.is_valid_website.
  destruct (negb (Py.truthy url) || negb (Py.truthy (Py.strip url)));
    [reflexivity |].
  change (negb (Py.any_in Janitor.INVALID_WEBSITE_PATTERNS (Py.strip (Py.lower url))) = false).
  rewrite (any_in_strip _ _ forallb_solid_patterns H). reflexivity.
Qed.

Lemma janitor_rejects_blank (url : string) :
  all_space url = true -> Janitor.is_valid_website url = false.
Proof.
  intros H. unfold Janitor.is_valid_website.
  rewrite (all_space_strip url H). simpl. now rewrite orb_true_r.
Qed.

Lemma safety_rejects_blank (url : string) :
  all_space url = true -> Safety.is_valid_website url = false.
Proof.
  intros H. unfold Safety.is_valid_website.
  rewrite (all_space_strip url H). simpl. now rewrite orb_true_r.
Qed.

(** C9, as stated, fails in the safety file: its filter has no test for the
    sentinel and lets the string N/A through. *)
Lemma safety_is_valid_website_accepts_sentinel :
  Safety.is_valid_website "N/A" = true /\ Janitor.is_valid_website "N/A" = false.
Proof. split; reflexivity. Qed.

(** C9 (amended).  In the janitor and safety files [is_valid_website] is
    [False] on every empty or white-space-only string and on every address
    whose lower-case form holds one of the seven blacklist fragments, and
    [True] on https://example-business.com; the sentinel N/A is rejected by
    the janitor file and accepted by the safety file. *)
Theorem is_valid_website_filter (url : string) :
  (all_space url = true ->
   Janitor.is_valid_website url = false /\ Safety.is_valid_website url = false)
  /\ (Py.any_in Janitor.INVALID_WEBSITE_PATTERNS (Py.lower url) = true ->
      Janitor.is_valid_website url = false /\ Safety.is_valid_website url = false)
  /\ Janitor.is_valid_website "N/A" = false
  /\ Safety.is_valid_website "N/A" = true
  /\ Janitor.is_valid_website "https://example-business.com" = true
  /\ Safety.is_valid_website "https://example-business.com" = true.
Proof.
  split; [|split].
  - intros H. split; [now apply janitor_rejects_blank | now apply safety_rejects_blank].
  - intros H. split;
      [now apply janitor_rejects_blacklisted | now apply safety_rejects_blacklisted].
  - repeat split; reflexivity.
Qed.

Lemma is_valid_website_filter_witness :
  (Janitor.is_valid_website "   " = false /\ Safety.is_valid_website "   " = false)
  /\ (Janitor.is_valid_website " https://www.Yelp.com/biz/acme-supply" = false
      /\ Safety.is_valid_website " https://www.Yelp.com/biz/acme-supply" = false).
Proof.
  split.
  - exact (proj1 (is_valid_website_filter "   ") eq_refl).
  - exact (proj1 (proj2 (is_valid_website_filter
                           " https://www.Yelp.com/biz/acme-supply")) eq_refl).
Defined.

(** ** The identity scheme *)










Lemma janitor_parse_listing_inv (today : string) (listing : Fragment) (l : Lead) :
  Janitor.parse_listing today listing = Some l ->
  website_href listing = Some (website_url l)
  /\ Janitor.is_valid_website (website_url l) = true
  /\ email_address l = EmptyString
  /\ lead_id l = Janitor.generate_lead_id (company_name l) (phone_number l)
  /\ phone_number l = elem_text (phones listing).
Proof.
  unfold Janitor.parse_listing.
  destruct (negb (Py.truthy (elem_text (name_element listing)))); [discriminate |].
  destruct (website_href listing) as [w|]; [|discriminate].
  destruct (Janitor.is_valid_website w) eqn:Hw; simpl; [|discriminate].
  intros [= <-]. simpl. auto.
Qed.

Lemma safety_parse_listing_inv (today : string) (lst : Fragment) (l : Lead) :
  Safety.parse_listing today lst = Some l ->
  website_href lst = Some (website_url l)
  /\ Safety.is_valid_website (website_url l) = true
  /\ email_address l = EmptyString
  /\ lead_id l = Safety.gen_id (company_name l) (phone_number l)
  /\ phone_number l = elem_text (phones lst).
Proof.
  unfold Safety.parse_listing.
  destruct (negb (Py.truthy (elem_text (name_element lst)))); [discriminate |].
  destruct (website_href lst) as [w|]; [|discriminate].
  destruct (Safety.is_valid_website w) eqn:Hw; simpl; [|discriminate].
  intros [= <-]. simpl. auto.
Qed.




(** ** The listing parser *)










(** ** The duplicate filter *)

Lemma filter_dupes_cons (ex local : gset string) (l : Lead) (rest : list Lead) :
  filter_dupes ex local (l :: rest) =
    if bool_decide (lead_id l ∉ ex) && bool_decide (lead_id l ∉ local)
    then (l :: fst (filter_dupes ex ({[lead_id l]} ∪ local) rest),
          snd (filter_dupes ex ({[lead_id l]} ∪ local) rest))
    else filter_dupes ex local rest.
Proof.
  simpl. destruct (bool_decide _ && bool_decide _); [|reflexivity].
  destruct (filter_dupes ex ({[lead_id l]} ∪ local) rest). reflexivity.
Qed.

(** The local scope after a page is the scope before it plus the accepted
    identities; the accepted identities are new to both scopes and pairwise
    distinct. *)
Lemma filter_dupes_spec (ex : gset string) (listings : list Lead) :
  forall local : gset string,
    let new := fst (filter_dupes ex local listings) in
    let local' := snd (filter_dupes ex local listings) in
    local' = local ∪ list_to_set (lead_id <$> new)
    /\ NoDup (lead_id <$> new)
    /\ (forall l, l ∈ new -> l ∈ listings /\ lead_id l ∉ ex /\ lead_id l ∉ local)
    /\ (forall l, l ∈ listings -> lead_id l ∈ ex \/ lead_id l ∈ local').
Proof.
  induction listings as [|l rest IH]; intros local.
  - simpl. split; [set_solver |]. split; [constructor |].
    split; intros l Hl; apply elem_of_nil in Hl; contradiction.
  - rewrite filter_dupes_cons.
    destruct (bool_decide (lead_id l ∉ ex)) eqn:E1;
      [destruct (bool_decide (lead_id l ∉ local)) eqn:E2 |]; simpl.
    + apply bool_decide_eq_true in E1, E2.
      destruct (IH ({[lead_id l]} ∪ local)) as (Hloc & Hnd & Hnew & Hall).
      split; [|split; [|split]].
      * rewrite Hloc. set_solver.
      * constructor; [|exact Hnd].
        intros Hin. apply list_elem_of_fmap in Hin as (l' & Heq & Hl').
        destruct (Hnew l' Hl') as (_ & _ & Hn). set_solver.
      * intros l' Hl'. apply elem_of_cons in Hl' as [->|Hl'].
        -- split; [left | auto].
        -- destruct (Hnew l' Hl') as (? & ? & ?).
           split; [now right | split; [assumption | set_solver]].
      * intros l' Hl'. apply elem_of_cons in Hl' as [->|Hl'].
        -- right. rewrite Hloc. set_solver.
        -- apply Hall, Hl'.
    + apply bool_decide_eq_true in E1. apply bool_decide_eq_false in E2.
      destruct (IH local) as (Hloc & Hnd & Hnew & Hall).
      split; [exact Hloc | split; [exact Hnd | split]].
      * intros l' Hl'. destruct (Hnew l' Hl') as (? & ? & ?).
        split; [now right | auto].
      * intros l' Hl'. apply elem_of_cons in Hl' as [->|Hl'].
        -- right. rewrite Hloc. apply dec_stable in E2. set_solver.
        -- apply Hall, Hl'.
    + apply bool_decide_eq_false in E1.
      destruct (IH local) as (Hloc & Hnd & Hnew & Hall).
      split; [exact Hloc | split; [exact Hnd | split]].
      * intros l' Hl'. destruct (Hnew l' Hl') as (? & ? & ?).
        split; [now right | auto].
      * intros l' Hl'. apply elem_of_cons in Hl' as [->|Hl'].
        -- left. now apply dec_stable in E1.
        -- apply Hall, Hl'.
Qed.

(** A listing is accepted exactly when its identity is in neither scope at
    the moment it is considered. *)
Lemma filter_dupes_accepts_iff (ex local : gset string) (l : Lead) (rest : list Lead) :
  (lead_id l ∉ ex /\ lead_id l ∉ local <->
   exists new local', filter_dupes ex local (l :: rest) = (l :: new, local')
                      /\ (new, local') = filter_dupes ex ({[lead_id l]} ∪ local) rest)
  /\ (~ (lead_id l ∉ ex /\ lead_id l ∉ local) ->
      filter_dupes ex local (l :: rest) = filter_dupes ex local rest).
Proof.
  rewrite filter_dupes_cons. split; [split |].
  - intros [H1 H2].
    rewrite (bool_decide_eq_true_2 _ H1), (bool_decide_eq_true_2 _ H2). simpl.
    eexists _, _. split; [reflexivity |].
    destruct (filter_dupes ex ({[lead_id l]} ∪ local) rest); reflexivity.
  - intros (new & local' & H & Hrest).
    destruct (bool_decide (lead_id l ∉ ex)) eqn:E1;
      [destruct (bool_decide (lead_id l ∉ local)) eqn:E2 |]; simpl in H.
    + apply bool_decide_eq_true in E1, E2. auto.
    + apply bool_decide_eq_false in E2. exfalso.
      pose proof (filter_dupes_spec ex rest local) as (_ & _ & Hnew & _).
      rewrite H in Hnew. simpl in Hnew.
      destruct (Hnew l) as (_ & _ & Hn); [left | contradiction].
    + apply bool_decide_eq_false in E1. exfalso.
      pose proof (filter_dupes_spec ex rest local) as (_ & _ & Hnew & _).
      rewrite H in Hnew. simpl in Hnew.
      destruct (Hnew l) as (_ & Hn & _); [left | contradiction].
  - intros Hn.
    destruct (bool_decide (lead_id l ∉ ex)) eqn:E1;
      [destruct (bool_decide (lead_id l ∉ local)) eqn:E2 |]; simpl; try reflexivity.
    apply bool_decide_eq_true in E1, E2. exfalso. auto.
Qed.

(** When every identity of the page is already in a scope, nothing is
    accepted and the local scope is unchanged. *)
Lemma filter_dupes_all_known (ex local : gset string) (listings : list Lead) :
  Forall (fun l => lead_id l ∈ ex \/ lead_id l ∈ local) listings ->
  filter_dupes ex local listings = ([], local).
Proof.
  induction 1 as [|l rest Hl _ IH]; [reflexivity |].
  rewrite filter_dupes_cons.
  destruct (bool_decide (lead_id l ∉ ex)) eqn:E1;
    [destruct (bool_decide (lead_id l ∉ local)) eqn:E2 |]; simpl; try exact IH.
  apply bool_decide_eq_true in E1, E2. destruct Hl; contradiction.
Qed.

(** C2.  In the safety file the identities of a page are added to the local
    scope only after the whole page has been filtered: a business listed
    twice on one page is accepted twice and written twice, where the janitor
    and B2B files accept it once. *)
Theorem safety_same_page_duplicate_accepted :
  lead_id <$> all_leads (Safety.scrape twice_listed_env "wholesale" "queens-ny" ∅)
    = ["de06b94d395d"; "de06b94d395d"]
  /\ new_leads_count (Safety.scrape twice_listed_env "wholesale" "queens-ny" ∅) = 2
  /\ length (List.filter is_save
               (log (Safety.scrape twice_listed_env "wholesale" "queens-ny" ∅))) = 1
  /\ lead_id <$> all_leads (Janitor.scrape_search twice_listed_env "wholesale" "queens-ny" ∅)
    = ["de06b94d395d"]
  /\ lead_id <$> all_leads
                 (B2B.scrape_search twice_listed_env "wholesale" "Wholesale" "queens-ny" ∅)
    = ["de06b94d395d"].
Proof. vm_compute. repeat split; reflexivity. Qed.

(** ** The page loop of the janitor and B2B files *)

Section SearchScraperFacts.

Variable MAX_PAGES : nat.
Variable get_listings : View -> option (list Lead).
Variable extract : string -> string -> string.
Variable save : list Lead -> option (list Row).
Variable nav : string -> nat -> Nav.
Variable base_url : string.
Variable ex : gset string.

Local Abbreviation step := (page_step MAX_PAGES get_listings extract save nav base_url ex).
Local Abbreviation loop := (pages_loop MAX_PAGES get_listings extract save nav base_url ex).
Local Abbreviation load p := (load_page nav (page_url base_url p) (seq 0 MAX_RETRIES) Blank).

(** The four ways the retry loop can go. *)
Lemma load_page_cases (url : string) (cur : View) :
  (exists v, nav url 0 = NavOk v
     /\ load_page nav url (seq 0 MAX_RETRIES) cur = (v, [EvGet url; EvSleep 2]))
  \/ (exists v0 v, nav url 0 = NavFail v0 /\ nav url 1 = NavOk v
     /\ load_page nav url (seq 0 MAX_RETRIES) cur
        = (v, [EvGet url; EvSleep 5; EvGet url; EvSleep 2]))
  \/ (exists v0 v1 v, nav url 0 = NavFail v0 /\ nav url 1 = NavFail v1
     /\ nav url 2 = NavOk v
     /\ load_page nav url (seq 0 MAX_RETRIES) cur
        = (v, [EvGet url; EvSleep 5; EvGet url; EvSleep 5; EvGet url; EvSleep 2]))
  \/ (exists v0 v1 v, nav url 0 = NavFail v0 /\ nav url 1 = NavFail v1
     /\ nav url 2 = NavFail v
     /\ load_page nav url (seq 0 MAX_RETRIES) cur
        = (v, [EvGet url; EvSleep 5; EvGet url; EvSleep 5; EvGet url])).
Proof.
  simpl.
  destruct (nav url 0) as [v0|v0]; [left; eauto |].
  destruct (nav url 1) as [v1|v1]; [right; left; eauto |].
  destruct (nav url 2) as [v2|v2]; [right; right; left; eauto 10 |].
  right; right; right. eauto 10.
Qed.

(** A turn whose page yields no listing stops the loop. *)
Lemma page_step_no_listing (st : St) (p : nat) :
  get_listings (fst (load p)) = Some [] ->
  step st p = (Stop, emit st (snd (load p))).
Proof.
  intros H. unfold page_step.
  destruct (load_page _ _ _ _) as [v evs]. simpl in *. rewrite H. reflexivity.
Qed.


(** A turn whose listings are all known goes on to the next page without
    writing. *)
Lemma page_step_all_known (st : St) (p : nat) (ls : list Lead) :
  get_listings (fst (load p)) = Some ls ->
  ls <> [] ->
  Forall (fun l => lead_id l ∈ ex \/ lead_id l ∈ local_ids st) ls ->
  step st p =
    (Next,
     {| all_leads := all_leads st; local_ids := local_ids st;
        new_leads_count := new_leads_count st;
        blocked_count := blocked_count st;
        log := log st ++ snd (load p)
               ++ (if (p <? MAX_PAGES)%nat then [EvSleepUniform 6 12] else []) |}).
Proof.
  intros H Hne Hall. unfold page_step.
  destruct (load_page _ _ _ _) as [v evs]. simpl in *. rewrite H.
  destruct ls as [|l ls']; [contradiction |]. simpl is_nil. cbv iota.
  rewrite (filter_dupes_all_known ex (local_ids st) (l :: ls') Hall).
  simpl. now rewrite <- app_assoc.
Qed.




Lemma fetch_emails_cons (lead : Lead) (rest : list Lead) (blocked : nat) :
  fetch_emails extract (lead :: rest) blocked =
    let email := extract (source lead) (website_url lead) in
    if String.eqb email BLOCKED then
      if (5 <=? blocked + 1)%nat then
        let '(ls, b, evs) := fetch_emails extract rest 0 in
        (lead :: ls, b, EvQuit :: EvSleep 10 :: EvCreate :: evs)
      else
        let '(ls, b, evs) := fetch_emails extract rest (blocked + 1) in
        (lead :: ls, b, evs)
    else if Py.truthy email then
      let '(ls, b, evs) := fetch_emails extract rest blocked in
      (set_email lead email :: ls, b, evs)
    else
      let '(ls, b, evs) := fetch_emails extract rest blocked in
      (lead :: ls, b, evs).
Proof. reflexivity. Qed.







End SearchScraperFacts.

(** ** The page loop of the safety file *)

Lemma safety_filter_all_known (ex local : gset string) (ls : list Lead) :
  Forall (known ex local) ls ->
  List.filter (fun l => bool_decide (lead_id l ∉ ex) && bool_decide (lead_id l ∉ local)) ls = [].
Proof.
  induction 1 as [|l rest Hl _ IH]; simpl; [reflexivity |].
  destruct (bool_decide (lead_id l ∉ ex)) eqn:E1;
    [destruct (bool_decide (lead_id l ∉ local)) eqn:E2 |]; simpl; try exact IH.
  apply bool_decide_eq_true in E1, E2. destruct Hl; contradiction.
Qed.

Lemma safety_page_step_nav_fail (env : Env) (url : string) (ex : gset string)
  (st : St) (pg : nat) (v : View) :
  nav env (page_url url pg) 0 = NavFail v ->
  Safety.page_step env url ex st pg = (Next, emit st [EvGet (page_url url pg)]).
Proof. intros H. unfold Safety.page_step. now rewrite H. Qed.


Lemma safety_page_step_all_known (env : Env) (url : string) (ex : gset string)
  (st : St) (pg : nat) (v : View) (ls : list Lead) :
  nav env (page_url url pg) 0 = NavOk v ->
  Safety.get_page_listings (today env) v = Some ls ->
  ls <> [] ->
  Forall (known ex (local_ids st)) ls ->
  Safety.page_step env url ex st pg
    = (Next, emit st [EvGet (page_url url pg); EvSleep 2]).
Proof.
  intros H Hl Hne Hall. unfold Safety.page_step. rewrite H, Hl.
  cbv zeta.
  change (local_ids (emit st [EvGet (page_url url pg); EvSleep 2]))
    with (local_ids st).
  rewrite (safety_filter_all_known ex (local_ids st) ls Hall).
  destruct ls as [|l ls']; [contradiction |]. reflexivity.
Qed.


Lemma safety_fetch_emails_cons (web : string -> option Page) (l : Lead)
  (rest : list Lead) (blocks : nat) :
  Safety.fetch_emails web (l :: rest) blocks =
    let em := Safety.get_email web (source l) (website_url l) in
    let '(l', blocks1) :=
      if String.eqb em BLOCKED then (l, blocks + 1)%nat
      else if Py.truthy em then (set_email l em, blocks)
      else (l, blocks) in
    if (5 <=? blocks1)%nat then
      let '(ls, b, evs) := Safety.fetch_emails web rest 0 in
      (l' :: ls, b, EvQuit :: EvSleep 5 :: EvCreate :: evs)
    else
      let '(ls, b, evs) := Safety.fetch_emails web rest blocks1 in
      (l' :: ls, b, evs).
Proof. reflexivity. Qed.





(** ** A page without qualifying listings *)








(** ** A page of duplicates *)

Lemma load_page_no_save (nav : string -> nat -> Nav) (url : string)
  (attempts : list nat) (cur : View) :
  List.filter is_save (snd (load_page nav url attempts cur)) = [].
Proof.
  revert cur. induction attempts as [|a rest IH]; intros cur; simpl; [reflexivity |].
  destruct (nav url a) as [v|v]; [reflexivity |].
  specialize (IH v). destruct (load_page nav url rest v) as [v' evs].
  simpl in IH. destruct (a <? _)%nat; simpl; exact IH.
Qed.

Lemma filter_is_save_app (a b : list Event) :
  List.filter is_save a = [] -> List.filter is_save b = [] ->
  List.filter is_save (a ++ b) = [].
Proof. intros Ha Hb. now rewrite List.filter_app, Ha, Hb. Qed.

Lemma search_scraper_skips (MAX_PAGES : nat) (get_listings : View -> option (list Lead))
  (extract : string -> string -> string) (save : list Lead -> option (list Row))
  (nav : string -> nat -> Nav) (base : string) (ex : gset string)
  (st : St) (p : nat) (rest : list nat) (ls : list Lead) :
  ls <> [] -> Forall (known ex (local_ids st)) ls ->
  get_listings (fst (load_page nav (page_url base p) (seq 0 MAX_RETRIES) Blank)) = Some ls ->
  exists st',
    page_step MAX_PAGES get_listings extract save nav base ex st p = (Next, st')
    /\ pages_loop MAX_PAGES get_listings extract save nav base ex (p :: rest) st
       = pages_loop MAX_PAGES get_listings extract save nav base ex rest st'
    /\ skipped st st'.
Proof.
  intros Hne Hall Hl.
  pose proof (page_step_all_known MAX_PAGES get_listings extract save nav base ex
                st p ls Hl Hne Hall) as Hs.
  eexists. split; [exact Hs |]. split.
  - simpl. now rewrite Hs.
  - unfold skipped. cbn [all_leads local_ids new_leads_count log]. repeat split.
    eexists. split; [reflexivity |].
    apply filter_is_save_app; [apply load_page_no_save |].
    destruct (p <? MAX_PAGES)%nat; reflexivity.
Qed.

(** C5.  A page whose listings all carry an identity that is already in the
    global or the local scope adds no lead and writes nothing, and the loop
    goes on with the pages that remain (none, at the page ceiling). *)
Theorem all_duplicates_page_skipped (env : Env) (base label : string)
  (ex : gset string) (st : St) (p : nat) (rest : list nat) (ls : list Lead) :
  ls <> [] ->
  Forall (known ex (local_ids st)) ls ->
  let loaded := load_page (nav env) (page_url base p) (seq 0 MAX_RETRIES) Blank in
  (Janitor.get_listings_from_page (today env) (fst loaded) = Some ls ->
   exists st',
     Janitor.page_step env base ex st p = (Next, st')
     /\ Janitor.pages_loop env base ex (p :: rest) st
        = Janitor.pages_loop env base ex rest st'
     /\ skipped st st')
  /\ (B2B.get_listings_from_page label (today env) (fst loaded) = Some ls ->
   exists st',
     B2B.page_step env label base ex st p = (Next, st')
     /\ B2B.pages_loop env label base ex (p :: rest) st
        = B2B.pages_loop env label base ex rest st'
     /\ skipped st st')
  /\ (forall v, nav env (page_url base p) 0 = NavOk v ->
   Safety.get_page_listings (today env) v = Some ls ->
   exists st',
     Safety.page_step env base ex st p = (Next, st')
     /\ Safety.pages_loop env base ex (p :: rest) st
        = Safety.pages_loop env base ex rest st'
     /\ skipped st st').
Proof.
  intros Hne Hall. cbv zeta. split; [|split].
  - intros Hl. now apply (search_scraper_skips _ _ _ _ _ _ _ _ _ _ ls).
  - intros Hl. now apply (search_scraper_skips _ _ _ _ _ _ _ _ _ _ ls).
  - intros v Hn Hl.
    pose proof (safety_page_step_all_known env base ex st p v ls Hn Hl Hne Hall) as Hs.
    eexists. split; [exact Hs |]. split.
    + simpl. now rewrite Hs.
    + unfold skipped. simpl. repeat split. eexists. split; reflexivity.
Qed.

Lemma all_duplicates_page_skipped_witness :
  exists st',
    Janitor.pages_loop acme_env wholesale_url {[acme_id]} [1; 2] fresh_state
    = Janitor.pages_loop acme_env wholesale_url {[acme_id]} [2] st'
    /\ skipped fresh_state st'.
Proof.
  assert (Hne : acme_leads <> []) by discriminate.
  assert (Hk : Forall (known {[acme_id]} (local_ids fresh_state)) acme_leads).
  { constructor; [|constructor]. left. apply elem_of_singleton. reflexivity. }
  destruct (proj1 (all_duplicates_page_skipped acme_env wholesale_url
                     "Wholesale" {[acme_id]} fresh_state 1 [2] acme_leads Hne Hk)
                  eq_refl) as (st' & _ & Hloop & Hskip).
  exists st'. split; assumption.
Defined.

(** ** Failed navigation *)

(** C6, as stated, fails in the safety file: a navigation that raises is
    tried once, no delay follows, and the controller goes on to the next
    page number instead of ending the task as on a page without listings. *)
Lemma safety_failed_load_not_retried :
  log (Safety.scrape down_site "wholesale" "queens-ny" ∅)
  = [ EvCreate;
      EvGet "https://www.yellowpages.com/queens-ny/wholesale";
      EvGet "https://www.yellowpages.com/queens-ny/wholesale?page=2";
      EvGet "https://www.yellowpages.com/queens-ny/wholesale?page=3";
      EvGet "https://www.yellowpages.com/queens-ny/wholesale?page=4";
      EvGet "https://www.yellowpages.com/queens-ny/wholesale?page=5";
      EvQuit ].
Proof. vm_compute. reflexivity. Qed.

(** In the janitor file the same site is tried three times, five seconds
    apart, and the empty document left behind ends the task. *)
Example janitor_failed_load_retried :
  log (Janitor.scrape_search down_site "wholesale" "queens-ny" ∅)
  = [ EvCreate;
      EvGet "https://www.yellowpages.com/queens-ny/wholesale"; EvSleep 5;
      EvGet "https://www.yellowpages.com/queens-ny/wholesale"; EvSleep 5;
      EvGet "https://www.yellowpages.com/queens-ny/wholesale";
      EvQuit ].
Proof. vm_compute. reflexivity. Qed.

(** After the last failed attempt the listing step reads whatever the
    session shows: when the navigation timed out on a document that already
    holds results, they are parsed and written. *)
Example janitor_exhausted_retries_reads_session :
  new_leads_count (Janitor.scrape_search (slow_site [acme_listing]) "wholesale" "queens-ny" ∅)
  = 1.
Proof. vm_compute. reflexivity. Qed.

(** C6 (amended).  In the janitor and B2B files a navigation to a results
    page that raises is tried at most three times, with a sleep of five
    seconds after each failed attempt but the last; when the session shows
    no listing after the third failure, the page counts as a page without
    listings and the task ends.  The safety file tries once and, on failure,
    goes on to the next page number. *)
Theorem page_load_retries (env : Env) (base label : string) (ex : gset string)
  (st : St) (p : nat) :
  let url := page_url base p in
  let loaded := load_page (nav env) url (seq 0 MAX_RETRIES) Blank in
  ((exists v, nav env url 0 = NavOk v /\ loaded = (v, [EvGet url; EvSleep 2]))
   \/ (exists v0 v, nav env url 0 = NavFail v0 /\ nav env url 1 = NavOk v
       /\ loaded = (v, [EvGet url; EvSleep 5; EvGet url; EvSleep 2]))
   \/ (exists v0 v1 v, nav env url 0 = NavFail v0 /\ nav env url 1 = NavFail v1
       /\ nav env url 2 = NavOk v
       /\ loaded = (v, [EvGet url; EvSleep 5; EvGet url; EvSleep 5; EvGet url; EvSleep 2]))
   \/ (exists v0 v1 v, nav env url 0 = NavFail v0 /\ nav env url 1 = NavFail v1
       /\ nav env url 2 = NavFail v
       /\ loaded = (v, [EvGet url; EvSleep 5; EvGet url; EvSleep 5; EvGet url])))
  /\ (forall v0 v1 v,
        nav env url 0 = NavFail v0 -> nav env url 1 = NavFail v1 ->
        nav env url 2 = NavFail v ->
        (Janitor.get_listings_from_page (today env) v = Some [] ->
         Janitor.page_step env base ex st p
         = (Stop, emit st [EvGet url; EvSleep 5; EvGet url; EvSleep 5; EvGet url]))
        /\ (B2B.get_listings_from_page label (today env) v = Some [] ->
         B2B.page_step env label base ex st p
         = (Stop, emit st [EvGet url; EvSleep 5; EvGet url; EvSleep 5; EvGet url])))
  /\ (forall v, nav env url 0 = NavFail v ->
        Safety.page_step env base ex st p = (Next, emit st [EvGet url])).
Proof.
  cbv zeta. split; [apply load_page_cases | split].
  - intros v0 v1 v H0 H1 H2.
    assert (Hload : load_page (nav env) (page_url base p) (seq 0 MAX_RETRIES) Blank
                    = (v, [EvGet (page_url base p); EvSleep 5; EvGet (page_url base p);
                           EvSleep 5; EvGet (page_url base p)])).
    { simpl. rewrite H0, H1, H2. reflexivity. }
    split; intros Hl.
    + unfold Janitor.page_step. rewrite page_step_no_listing; rewrite Hload;
        [reflexivity | exact Hl].
    + unfold B2B.page_step. rewrite page_step_no_listing; rewrite Hload;
        [reflexivity | exact Hl].
  - intros v Hn. now apply (safety_page_step_nav_fail env base ex st p v).
Qed.

Lemma page_load_retries_witness :
  Janitor.page_step down_site wholesale_url ∅ fresh_state 1
  = (Stop, emit fresh_state [EvGet wholesale_url; EvSleep 5; EvGet wholesale_url;
                             EvSleep 5; EvGet wholesale_url])
  /\ Safety.page_step down_site wholesale_url ∅ fresh_state 1
     = (Next, emit fresh_state [EvGet wholesale_url]).
Proof.
  split.
  - exact (proj1 (proj1 (proj2 (page_load_retries down_site wholesale_url "Wholesale"
                                  ∅ fresh_state 1))
                         Blank Blank Blank eq_refl eq_refl eq_refl) eq_refl).
  - exact (proj2 (proj2 (page_load_retries down_site wholesale_url "Wholesale"
                           ∅ fresh_state 1)) Blank eq_refl).
Defined.

(** ** Exceptions that leave the page loop *)






(** ** The email cascade *)

Lemma lstrip_suffix (s : string) : exists a, s = a +:+ Py.lstrip s.
Proof.
  induction s as [|c s [a IH]]; [exists EmptyString; reflexivity |].
  simpl. destruct (Py.is_space c).
  - exists (String c a). simpl. now rewrite <- IH.
  - exists EmptyString. reflexivity.
Qed.

Lemma rstrip_prefix (s : string) : exists b, s = Py.rstrip s +:+ b.
Proof.
  induction s as [|c s [b IH]]; [exists EmptyString; reflexivity |].
  simpl. destruct (Py.is_space c && Py.is_empty (Py.rstrip s)).
  - exists (String c s). reflexivity.
  - exists b. simpl. now rewrite <- IH.
Qed.

Lemma strip_substring (s : string) : exists a b, s = a +:+ Py.strip s +:+ b.
Proof.
  destruct (lstrip_suffix s) as [a Ha].
  destruct (rstrip_prefix (Py.lstrip s)) as [b Hb].
  exists a, b. unfold Py.strip. now rewrite <- Hb.
Qed.

Lemma contains_of_strip (p s : string) :
  Py.contains p (Py.strip s) = true -> Py.contains p s = true.
Proof.
  intros H. destruct (contains_inv _ _ H) as (c & d & Hcd).
  destruct (strip_substring s) as (a & b & Hab).
  rewrite Hab, Hcd.
  replace (a +:+ (c +:+ p +:+ d) +:+ b) with ((a +:+ c) +:+ p +:+ (d +:+ b))
    by (rewrite !app_assoc_s; reflexivity).
  apply contains_app.
Qed.

Lemma any_in_of_strip (ps : list string) (s : string) :
  Py.any_in ps (Py.strip s) = true -> Py.any_in ps s = true.
Proof.
  unfold Py.any_in. intros H.
  apply existsb_exists in H as (p & Hin & Hp).
  apply existsb_exists. exists p. split; [exact Hin | now apply contains_of_strip].
Qed.

Lemma contains_nonempty (p s : string) :
  Py.is_empty p = false -> Py.contains p s = true -> Py.truthy s = true.
Proof. intros Hp H. destruct s; [|reflexivity]. destruct p; discriminate. Qed.

(** Trimming keeps an address valid. *)
Lemma safety_valid_email_strip (e : string) :
  Safety.valid_email e = true -> Safety.valid_email (Py.strip e) = true.
Proof.
  unfold Safety.valid_email. intros H.
  apply andb_true_iff in H as [H Hb]. apply andb_true_iff in H as [_ Hat].
  assert (Hat' : Py.contains "@" (Py.strip e) = true)
    by (apply contains_strip; [reflexivity | exact Hat]).
  rewrite Hat', (contains_nonempty "@" _ eq_refl Hat').
  apply negb_true_iff in Hb.
  destruct (Py.any_in Safety.EMAIL_BLACKLIST (Py.lower (Py.strip e))) eqn:E;
    [|reflexivity].
  rewrite <- strip_lower in E. apply any_in_of_strip in E. congruence.
Qed.

Lemma find_valid {A : Type} (f : A -> bool) (l : list A) (x : A) :
  List.find f l = Some x -> f x = true.
Proof. intros H. now apply List.find_some in H. Qed.

Section CascadeFacts.

Variable BL : list string.
Variable site_guard fallback_guard : string -> bool.
Variable web : string -> option Page.

Local Abbreviation valid := (is_valid_email BL).

Lemma source_mailto_valid (src e : string) :
  source_mailto BL src = Some e -> valid e = true.
Proof.
  unfold source_mailto. destruct (Re.search_mailto src) as [g|]; [|discriminate].
  destruct (valid (Py.strip g)) eqn:E; [|discriminate]. now intros [= <-].
Qed.

Lemma source_regex_valid (src e : string) :
  source_regex BL src = Some e -> valid e = true.
Proof. apply find_valid. Qed.

Lemma scan_source_valid (src e : string) :
  scan_source BL src = Some e -> valid e = true.
Proof.
  unfold scan_source. destruct (source_mailto BL src) as [m|] eqn:E.
  - intros [= <-]. now apply source_mailto_valid in E.
  - apply source_regex_valid.
Qed.

Lemma scan_hrefs_valid (hrefs : list string) (e : string) :
  scan_hrefs BL hrefs = Some e -> valid e = true.
Proof.
  induction hrefs as [|h rest IH]; simpl; [discriminate |].
  destruct (Py.contains "mailto:" h && valid (href_email h)) eqn:E; [|exact IH].
  intros [= <-]. now apply andb_true_iff in E as [_ E].
Qed.

Lemma scan_elements_valid (q : option (list string)) (e : string) :
  scan_elements BL q = Some e -> valid e = true.
Proof. destruct q; [apply scan_hrefs_valid | discriminate]. Qed.

Lemma contact_pages_ok (base : string) (paths : list string) :
  email_ok valid (contact_pages BL web base paths).
Proof.
  induction paths as [|p rest IH]; simpl; [now left |].
  destruct (web (base +:+ p)) as [pg|]; [|exact IH].
  destruct (scan_source BL (page_source pg)) as [e|] eqn:E; [|exact IH].
  right. now apply scan_source_valid in E.
Qed.

(** The website cascade returns the empty string or a valid address. *)
Lemma extract_email_from_website_ok (website_url : string) :
  email_ok valid (extract_email_from_website BL site_guard web website_url).
Proof.
  unfold extract_email_from_website.
  destruct (negb (site_guard website_url)); [now left |].
  destruct (web _) as [pg|]; [|now left].
  destruct (Py.any_in _ _); [now left |].
  destruct (scan_source BL (page_source pg)) as [e|] eqn:E.
  - right. now apply scan_source_valid in E.
  - apply contact_pages_ok.
Qed.

Lemma valid_not_blocked (e : string) : valid e = true -> e <> BLOCKED.
Proof. intros H ->. discriminate. Qed.

Lemma valid_truthy (e : string) : valid e = true -> Py.truthy e = true.
Proof. destruct e; [discriminate | reflexivity]. Qed.

(** The detail cascade returns the empty string, the sentinel or a valid
    address. *)
Lemma extract_email_from_detail_ok (detail_url website_url : string) :
  let e := extract_email_from_detail BL site_guard fallback_guard web
             detail_url website_url in
  e = BLOCKED \/ email_ok valid e.
Proof.
  cbv zeta. unfold extract_email_from_detail.
  destruct (web detail_url) as [pg|]; [|right; now left].
  destruct (is_blocked (page_source pg)).
  - destruct (fallback_guard website_url); [|now left].
    destruct (Py.truthy _) eqn:E; [|now left].
    right. apply extract_email_from_website_ok.
  - destruct (source_mailto BL _) as [e|] eqn:E1;
      [right; right; now apply source_mailto_valid in E1 |].
    destruct (scan_elements BL (email_elements pg)) as [e|] eqn:E2;
      [right; right; now apply scan_elements_valid in E2 |].
    destruct (scan_elements BL (mailto_links pg)) as [e|] eqn:E3;
      [right; right; now apply scan_elements_valid in E3 |].
    destruct (scan_hrefs BL (soup_links pg)) as [e|] eqn:E4;
      [right; right; now apply scan_hrefs_valid in E4 |].
    destruct (source_regex BL _) as [e|] eqn:E5;
      [right; right; now apply source_regex_valid in E5 |].
    destruct (fallback_guard website_url); [|right; now left].
    destruct (Py.truthy _) eqn:E; [|right; now left].
    right. apply extract_email_from_website_ok.
Qed.

(** On a blocked detail page the website stands in: its address is
    returned when it yields one, and the sentinel only when it does not. *)
Lemma extract_email_from_detail_blocked (detail_url website_url : string) (pg : Page) :
  web detail_url = Some pg ->
  is_blocked (page_source pg) = true ->
  extract_email_from_detail BL site_guard fallback_guard web detail_url website_url
  = if fallback_guard website_url
       && Py.truthy (extract_email_from_website BL site_guard web website_url)
    then extract_email_from_website BL site_guard web website_url
    else BLOCKED.
Proof.
  intros Hw Hb. unfold extract_email_from_detail. rewrite Hw, Hb.
  destruct (fallback_guard website_url); [|reflexivity].
  destruct (Py.truthy _); reflexivity.
Qed.

Lemma extract_email_from_detail_sentinel (detail_url website_url : string) :
  extract_email_from_detail BL site_guard fallback_guard web detail_url website_url
  = BLOCKED ->
  exists pg, web detail_url = Some pg
    /\ is_blocked (page_source pg) = true
    /\ fallback_guard website_url
       && Py.truthy (extract_email_from_website BL site_guard web website_url)
       = false.
Proof.
  intros H. unfold extract_email_from_detail in *.
  destruct (web detail_url) as [pg|]; [|discriminate].
  exists pg. split; [reflexivity |].
  destruct (is_blocked (page_source pg)).
  - split; [reflexivity |].
    destruct (fallback_guard website_url); [|reflexivity].
    destruct (Py.truthy _) eqn:E; [|reflexivity].
    exfalso. pose proof (extract_email_from_website_ok website_url) as [He|He].
    + rewrite He in E. discriminate.
    + rewrite H in He. discriminate.
  - exfalso.
    destruct (source_mailto BL _) as [e|] eqn:E1;
      [apply source_mailto_valid in E1; rewrite H in E1; discriminate |].
    destruct (scan_elements BL (email_elements pg)) as [e|] eqn:E2;
      [apply scan_elements_valid in E2; rewrite H in E2; discriminate |].
    destruct (scan_elements BL (mailto_links pg)) as [e|] eqn:E3;
      [apply scan_elements_valid in E3; rewrite H in E3; discriminate |].
    destruct (scan_hrefs BL (soup_links pg)) as [e|] eqn:E4;
      [apply scan_hrefs_valid in E4; rewrite H in E4; discriminate |].
    destruct (source_regex BL _) as [e|] eqn:E5;
      [apply source_regex_valid in E5; rewrite H in E5; discriminate |].
    destruct (fallback_guard website_url); [|discriminate].
    destruct (Py.truthy _) eqn:E; [|discriminate].
    pose proof (extract_email_from_website_ok website_url) as [He|He].
    + rewrite He in E. discriminate.
    + rewrite H in He. discriminate.
Qed.

End CascadeFacts.

Lemma safety_scan_source_valid (src e : string) :
  Safety.scan_source src = Some e -> Safety.valid_email e = true.
Proof.
  unfold Safety.scan_source.
  destruct (Re.search_mailto src) as [g|]; [|apply find_valid].
  destruct (Safety.valid_email g) eqn:E; [|apply find_valid].
  intros [= <-]. now apply safety_valid_email_strip.
Qed.

Lemma safety_contact_pages_ok (web : string -> option Page) (base : string)
  (paths : list string) :
  email_ok Safety.valid_email (Safety.contact_pages web base paths).
Proof.
  induction paths as [|p rest IH]; simpl; [now left |].
  destruct (web (base +:+ p)) as [pg|]; [|exact IH].
  destruct (Safety.scan_source (page_source pg)) as [e|] eqn:E; [|exact IH].
  right. now apply safety_scan_source_valid in E.
Qed.

Lemma safety_get_email_from_site_ok (web : string -> option Page) (url : string) :
  email_ok Safety.valid_email (Safety.get_email_from_site web url).
Proof.
  unfold Safety.get_email_from_site.
  destruct (negb (Py.truthy url) || negb (Safety.is_valid_website url)); [now left |].
  destruct (web _) as [pg|]; [|now left].
  destruct (Safety.scan_source (page_source pg)) as [e|] eqn:E.
  - right. now apply safety_scan_source_valid in E.
  - apply safety_contact_pages_ok.
Qed.

Lemma safety_get_email_ok (web : string -> option Page) (detail_url website : string) :
  Safety.get_email web detail_url website = BLOCKED
  \/ email_ok Safety.valid_email (Safety.get_email web detail_url website).
Proof.
  unfold Safety.get_email.
  destruct (web detail_url) as [pg|]; [|right; now left].
  destruct (Safety.is_blocked (page_source pg)).
  - destruct (Py.truthy website && Safety.is_valid_website website); [|now left].
    right. apply safety_get_email_from_site_ok.
  - destruct (Safety.scan_source _) as [e|] eqn:E;
      [right; right; now apply safety_scan_source_valid in E |].
    destruct (Py.truthy website && Safety.is_valid_website website);
      [|right; now left].
    right. apply safety_get_email_from_site_ok.
Qed.

Lemma safety_valid_not_blocked (e : string) :
  email_ok Safety.valid_email e -> e <> BLOCKED.
Proof. intros [->| H] Hb; [discriminate | rewrite Hb in H; discriminate]. Qed.

Lemma safety_get_email_sentinel (web : string -> option Page)
  (detail_url website : string) :
  Safety.get_email web detail_url website = BLOCKED ->
  exists pg, web detail_url = Some pg
    /\ Safety.is_blocked (page_source pg) = true
    /\ Py.truthy website && Safety.is_valid_website website = false.
Proof.
  unfold Safety.get_email.
  destruct (web detail_url) as [pg|]; [|discriminate].
  intros H. exists pg. split; [reflexivity |].
  destruct (Safety.is_blocked (page_source pg)).
  - split; [reflexivity |].
    destruct (Py.truthy website && Safety.is_valid_website website); [|reflexivity].
    exfalso. exact (safety_valid_not_blocked _ (safety_get_email_from_site_ok web website) H).
  - exfalso.
    destruct (Safety.scan_source _) as [e|] eqn:E.
    + apply safety_scan_source_valid in E. rewrite H in E. discriminate.
    + destruct (Py.truthy website && Safety.is_valid_website website); [|discriminate].
      exact (safety_valid_not_blocked _ (safety_get_email_from_site_ok web website) H).
Qed.

(** C7.  In the janitor and safety files, when the detail page matches the
    block heuristics and the company website is given, passes the website
    filter and yields an address, the cascade returns that address, which is
    valid and is not the sentinel; the sentinel is returned only on a blocked
    detail page from which no such address was recovered. *)
Theorem blocked_detail_uses_website (web : string -> option Page)
  (detail_url website : string) (pg : Page) :
  web detail_url = Some pg ->
  (is_blocked (page_source pg) = true ->
   Py.truthy website = true ->
   Janitor.is_valid_website website = true ->
   Py.truthy (Janitor.extract_email_from_website web website) = true ->
   Janitor.extract_email_from_detail web detail_url website
     = Janitor.extract_email_from_website web website
   /\ Janitor.is_valid_email (Janitor.extract_email_from_detail web detail_url website) = true
   /\ Janitor.extract_email_from_detail web detail_url website <> BLOCKED)
  /\ (Janitor.extract_email_from_detail web detail_url website = BLOCKED ->
   is_blocked (page_source pg) = true
   /\ Janitor.website_guard website
      && Py.truthy (Janitor.extract_email_from_website web website) = false)
  /\ (Safety.is_blocked (page_source pg) = true ->
   Py.truthy website = true ->
   Safety.is_valid_website website = true ->
   Py.truthy (Safety.get_email_from_site web website) = true ->
   Safety.get_email web detail_url website = Safety.get_email_from_site web website
   /\ Safety.valid_email (Safety.get_email web detail_url website) = true
   /\ Safety.get_email web detail_url website <> BLOCKED)
  /\ (Safety.get_email web detail_url website = BLOCKED ->
   Safety.is_blocked (page_source pg) = true
   /\ Py.truthy website && Safety.is_valid_website website = false).
Proof.
  intros Hw. split; [|split; [|split]].
  - intros Hb Ht Hv He.
    assert (Heq : Janitor.extract_email_from_detail web detail_url website
                  = Janitor.extract_email_from_website web website).
    { unfold Janitor.extract_email_from_detail, Janitor.extract_email_from_website.
      rewrite (extract_email_from_detail_blocked _ _ _ _ _ _ pg Hw Hb).
      unfold Janitor.extract_email_from_website in He.
      unfold Janitor.website_guard at 1. rewrite Ht, Hv, He. reflexivity. }
    rewrite Heq.
    destruct (extract_email_from_website_ok Janitor.EMAIL_BLACKLIST
                Janitor.website_guard web website) as [H0|Hval].
    + unfold Janitor.extract_email_from_website in He. rewrite H0 in He. discriminate.
    + split; [reflexivity |]. split; [exact Hval |].
      now apply (valid_not_blocked Janitor.EMAIL_BLACKLIST).
  - intros H. unfold Janitor.extract_email_from_detail in H.
    apply extract_email_from_detail_sentinel in H as (pg' & Hw' & Hb & Hg).
    rewrite Hw in Hw'. injection Hw' as <-. split; assumption.
  - intros Hb Ht Hv He.
    assert (Heq : Safety.get_email web detail_url website
                  = Safety.get_email_from_site web website).
    { unfold Safety.get_email. rewrite Hw, Hb, Ht, Hv. reflexivity. }
    rewrite Heq.
    destruct (safety_get_email_from_site_ok web website) as [H0|Hval].
    + rewrite H0 in He. discriminate.
    + split; [reflexivity |]. split; [exact Hval |].
      apply safety_valid_not_blocked. now right.
  - intros H. apply safety_get_email_sentinel in H as (pg' & Hw' & Hb & Hg).
    rewrite Hw in Hw'. injection Hw' as <-. split; assumption.
Qed.

Lemma blocked_detail_uses_website_witness :
  Janitor.extract_email_from_detail acme_web acme_detail_url "https://acme.com"
    = Janitor.extract_email_from_website acme_web "https://acme.com"
  /\ Janitor.extract_email_from_website acme_web "https://acme.com" = "info@acme.com"
  /\ Safety.get_email acme_web acme_detail_url "https://acme.com"
    = Safety.get_email_from_site acme_web "https://acme.com"
  /\ Safety.get_email_from_site acme_web "https://acme.com" = "info@acme.com".
Proof.
  split; [|split; [|split]].
  - exact (proj1 (proj1 (blocked_detail_uses_website acme_web acme_detail_url
                           "https://acme.com" challenge_page eq_refl)
                    eq_refl eq_refl eq_refl eq_refl)).
  - vm_compute. reflexivity.
  - exact (proj1 (proj1 (proj2 (proj2 (blocked_detail_uses_website acme_web
                           acme_detail_url "https://acme.com" challenge_page eq_refl)))
                    eq_refl eq_refl eq_refl eq_refl)).
  - vm_compute. reflexivity.
Defined.

(** ** The email field *)

Lemma email_ok_not_blocked (valid : string -> bool) (e : string) :
  valid BLOCKED = false -> email_ok valid e -> e <> BLOCKED.
Proof. intros Hb [->|H] He; [discriminate | rewrite He in H; congruence]. Qed.

Lemma number_rows_emails (P : string -> Prop) (ls : list Lead) (i : nat) :
  Forall (fun l => P (email_address l)) ls ->
  Forall (fun r => P (row_email r)) (number_rows i ls).
Proof.
  intros H. revert i. induction H as [|l ls Hl _ IH]; intros i; simpl.
  - constructor.
  - constructor; [exact Hl | apply IH].
Qed.

Lemma Forall_list_filter {A : Type} (P : A -> Prop) (f : A -> bool) (l : list A) :
  Forall P l -> Forall P (List.filter f l).
Proof.
  induction 1 as [|x l Hx _ IH]; simpl; [constructor |].
  destruct (f x); [constructor; assumption | assumption].
Qed.

Lemma filter_dupes_Forall (P : Lead -> Prop) (ex : gset string) (ls : list Lead) :
  forall local, Forall P ls -> Forall P (fst (filter_dupes ex local ls)).
Proof.
  induction ls as [|l rest IH]; intros local H; [constructor |].
  rewrite filter_dupes_cons. inversion H as [|? ? Hl Hrest]; subst.
  destruct (bool_decide _ && bool_decide _); simpl.
  - constructor; [exact Hl | now apply IH].
  - now apply IH.
Qed.

Section EmailInvariant.

Variable MAX_PAGES : nat.
Variable get_listings : View -> option (list Lead).
Variable extract : string -> string -> string.
Variable save : list Lead -> option (list Row).
Variable nav : string -> nat -> Nav.
Variable base_url : string.
Variable ex : gset string.
Variable valid : string -> bool.

Hypothesis parsed_blank :
  forall v ls, get_listings v = Some ls ->
    Forall (fun l => email_address l = EmptyString) ls.
Hypothesis extract_ok :
  forall d w, extract d w = BLOCKED \/ email_ok valid (extract d w).
Hypothesis save_ok :
  forall leads rows, leads_ok valid leads -> save leads = Some rows ->
    Forall (fun r => email_ok valid (row_email r)) rows.

Lemma fetch_emails_ok (new : list Lead) :
  forall blocked,
    Forall (fun l => email_address l = EmptyString) new ->
    leads_ok valid (fst (fst (fetch_emails extract new blocked)))
    /\ saves_ok valid (snd (fetch_emails extract new blocked)).
Proof.
  induction new as [|l rest IH]; intros blocked H.
  - split; constructor.
  - inversion H as [|? ? Hl Hrest]; subst.
    rewrite fetch_emails_cons. cbv zeta.
    destruct (String.eqb (extract (source l) (website_url l)) BLOCKED) eqn:Eb.
    + destruct (5 <=? blocked + 1)%nat.
      * destruct (IH 0%nat Hrest) as [H1 H2].
        destruct (fetch_emails extract rest 0) as [[ls b] evs]. simpl in *.
        split; [constructor; [left; exact Hl | exact H1] |].
        repeat (constructor; [exact I |]). exact H2.
      * destruct (IH (blocked + 1)%nat Hrest) as [H1 H2].
        destruct (fetch_emails extract rest (blocked + 1)) as [[ls b] evs]. simpl in *.
        split; [constructor; [left; exact Hl | exact H1] | exact H2].
    + destruct (IH blocked Hrest) as [H1 H2].
      destruct (Py.truthy (extract (source l) (website_url l))) eqn:Et;
        destruct (fetch_emails extract rest blocked) as [[ls b] evs]; simpl in *.
      * split; [|exact H2]. constructor; [|exact H1]. simpl.
        destruct (extract_ok (source l) (website_url l)) as [Hk|Hk]; [|exact Hk].
        rewrite Hk in Eb. discriminate.
      * split; [constructor; [left; exact Hl | exact H1] | exact H2].
Qed.

Lemma load_page_saves_ok (url : string) (attempts : list nat) (cur : View) :
  saves_ok valid (snd (load_page nav url attempts cur)).
Proof.
  revert cur. induction attempts as [|a rest IH]; intros cur; simpl; [constructor |].
  destruct (nav url a) as [v|v]; [repeat constructor |].
  specialize (IH v). destruct (load_page nav url rest v) as [v' evs].
  simpl in IH. destruct (a <? _)%nat; simpl; repeat (constructor; [exact I |]); exact IH.
Qed.

Lemma save_events_ok (leads : list Lead) :
  leads_ok valid leads -> saves_ok valid (save_events save leads).
Proof.
  intros H. unfold save_events. destruct (save leads) as [rows|] eqn:E.
  - constructor; [|constructor]. now apply (save_ok leads).
  - constructor.
Qed.

Lemma page_step_email_inv (st : St) (p : nat) :
  leads_ok valid (all_leads st) -> saves_ok valid (log st) ->
  let st' := snd (page_step MAX_PAGES get_listings extract save nav base_url ex st p) in
  leads_ok valid (all_leads st') /\ saves_ok valid (log st').
Proof.
  intros Hl Hs. cbv zeta. unfold page_step, saves_ok in *.
  pose proof (load_page_saves_ok (page_url base_url p) (seq 0 MAX_RETRIES) Blank) as Hload.
  destruct (load_page nav _ _ _) as [v evs]. simpl in Hload.
  destruct (get_listings v) as [ls|] eqn:Eg; simpl;
    [|split; [exact Hl | apply Forall_app; split; assumption]].
  destruct (is_nil ls); simpl;
    [split; [exact Hl | apply Forall_app; split; assumption] |].
  pose proof (filter_dupes_Forall _ ex ls (local_ids st) (parsed_blank v ls Eg)) as Hnew.
  destruct (filter_dupes ex (local_ids st) ls) as [new local']. simpl in Hnew.
  destruct (is_nil new); simpl.
  - split; [exact Hl |].
    repeat (apply Forall_app; split); try assumption.
    destruct (p <? MAX_PAGES)%nat; repeat constructor.
  - unfold FETCH_EMAILS.
    destruct (fetch_emails_ok new (blocked_count st) Hnew) as [Hf1 Hf2].
    destruct (fetch_emails extract new (blocked_count st)) as [[fetched b] fevs].
    simpl in *.
    assert (Hall : leads_ok valid (all_leads st ++ fetched))
      by (apply Forall_app; split; assumption).
    split; [exact Hall |].
    repeat (apply Forall_app; split); try assumption.
    + now apply save_events_ok.
    + destruct (p <? MAX_PAGES)%nat; repeat constructor.
Qed.

Lemma pages_loop_email_inv (pages : list nat) (st : St) :
  leads_ok valid (all_leads st) -> saves_ok valid (log st) ->
  let st' := fst (pages_loop MAX_PAGES get_listings extract save nav base_url ex pages st) in
  leads_ok valid (all_leads st') /\ saves_ok valid (log st').
Proof.
  revert st. induction pages as [|p rest IH]; intros st Hl Hs; simpl; [auto |].
  destruct (page_step_email_inv st p Hl Hs) as [Hl' Hs'].
  destruct (page_step _ _ _ _ _ _ _ st p) as [[| |] st']; simpl in *; auto.
Qed.

Lemma run_task_email_inv (existing : list Lead) :
  leads_ok valid existing ->
  let final := run_task MAX_PAGES get_listings extract save nav base_url ex existing in
  leads_ok valid (all_leads final) /\ saves_ok valid (log final).
Proof.
  intros He. cbv zeta. unfold run_task.
  match goal with |- context [pages_loop _ _ _ _ _ _ _ ?ps ?s0] =>
    destruct (pages_loop_email_inv ps s0 He) as [Hl Hs];
      [repeat constructor |];
    destruct (pages_loop MAX_PAGES get_listings extract save nav base_url ex ps s0)
      as [st raised] end.
  simpl in Hl, Hs. unfold saves_ok in *.
  destruct (raised && negb (is_nil (all_leads st))); simpl.
  - split; [exact Hl |].
    repeat (apply Forall_app; split); try assumption.
    + now apply save_events_ok.
    + repeat constructor.
  - split; [exact Hl |]. apply Forall_app; split; [exact Hs | repeat constructor].
Qed.

End EmailInvariant.

Lemma janitor_parsed_blank (today : string) (v : View) (ls : list Lead) :
  Janitor.get_listings_from_page today v = Some ls ->
  Forall (fun l => email_address l = EmptyString) ls.
Proof.
  unfold Janitor.get_listings_from_page. destruct v as [|d]; [discriminate |].
  destruct (negb _); intros [= <-]; [constructor |].
  apply Forall_forall. intros l Hl.
  apply list_elem_of_omap in Hl as ([f|] & _ & Hf); [|discriminate].
  simpl in Hf. now apply janitor_parse_listing_inv in Hf as (_ & _ & He & _).
Qed.

Lemma b2b_parsed_blank (label today : string) (v : View) (ls : list Lead) :
  B2B.get_listings_from_page label today v = Some ls ->
  Forall (fun l => email_address l = EmptyString) ls.
Proof.
  unfold B2B.get_listings_from_page. destruct v as [|d]; [discriminate |].
  destruct (negb _); intros [= <-]; [constructor |].
  apply Forall_forall. intros l Hl.
  apply list_elem_of_omap in Hl as ([f|] & _ & Hf); [|discriminate].
  simpl in Hf. unfold B2B.parse_listing in Hf.
  destruct (negb _); [discriminate |].
  destruct (website_href f); [|discriminate]. now injection Hf as <-.
Qed.

Lemma safety_parsed_blank (today : string) (v : View) (ls : list Lead) :
  Safety.get_page_listings today v = Some ls ->
  Forall (fun l => email_address l = EmptyString) ls.
Proof.
  unfold Safety.get_page_listings. destruct v as [|d]; [discriminate |].
  destruct (is_nil _); intros [= <-]; [constructor |].
  apply Forall_forall. intros l Hl.
  apply list_elem_of_omap in Hl as ([f|] & _ & Hf); [|discriminate].
  simpl in Hf. now apply safety_parse_listing_inv in Hf as (_ & _ & He & _).
Qed.

Lemma janitor_save_ok (valid : string -> bool) (leads : list Lead) (rows : list Row) :
  leads_ok valid leads -> Janitor.save_leads_to_excel leads = Some rows ->
  Forall (fun r => email_ok valid (row_email r)) rows.
Proof.
  unfold Janitor.save_leads_to_excel. intros H.
  destruct (is_nil leads); [discriminate |].
  destruct (is_nil _); [discriminate |]. intros [= <-].
  apply (number_rows_emails (email_ok valid)). now apply Forall_list_filter.
Qed.

Lemma b2b_save_ok (valid : string -> bool) (leads : list Lead) (rows : list Row) :
  leads_ok valid leads -> B2B.save_leads_to_excel leads = Some rows ->
  Forall (fun r => email_ok valid (row_email r)) rows.
Proof.
  unfold B2B.save_leads_to_excel. intros H.
  destruct (is_nil leads); [discriminate |]. intros [= <-].
  now apply (number_rows_emails (email_ok valid)).
Qed.

Lemma safety_save_ok (valid : string -> bool) (leads : list Lead) (rows : list Row) :
  leads_ok valid leads -> Safety.save_xlsx leads = Some rows ->
  Forall (fun r => email_ok valid (row_email r)) rows.
Proof.
  unfold Safety.save_xlsx. intros H.
  destruct (is_nil leads); [discriminate |].
  destruct (is_nil _); [discriminate |]. intros [= <-].
  apply (number_rows_emails (email_ok valid)). now apply Forall_list_filter.
Qed.

Lemma of_rows_ok (valid : string -> bool) (gen : string -> string -> string)
  (rows : list Row) :
  Forall (fun r => email_ok valid (row_email r)) rows ->
  leads_ok valid (of_row gen <$> rows).
Proof.
  induction 1 as [|r rows Hr _ IH]; [constructor |].
  constructor; [exact Hr | exact IH].
Qed.

Lemma janitor_existing_ok (env : Env) :
  existing_emails_ok Janitor.is_valid_email env ->
  leads_ok Janitor.is_valid_email (Janitor.load_existing env).
Proof.
  unfold existing_emails_ok, Janitor.load_existing.
  destruct (existing_file env) as [rows|]; [|constructor].
  intros H. apply of_rows_ok. now apply Forall_list_filter.
Qed.

Lemma b2b_existing_ok (env : Env) :
  existing_emails_ok B2B.is_valid_email env ->
  leads_ok B2B.is_valid_email (B2B.load_existing env).
Proof.
  unfold existing_emails_ok, B2B.load_existing.
  destruct (existing_file env) as [rows|]; [|constructor].
  apply of_rows_ok.
Qed.

Lemma safety_existing_ok (env : Env) :
  existing_emails_ok Safety.valid_email env ->
  leads_ok Safety.valid_email (Safety.load_existing env).
Proof.
  unfold existing_emails_ok, Safety.load_existing.
  destruct (existing_file env) as [rows|]; [|constructor].
  intros H. apply of_rows_ok. now apply Forall_list_filter.
Qed.

Lemma safety_fetch_emails_ok (web : string -> option Page) (new : list Lead) :
  forall blocks,
    Forall (fun l => email_address l = EmptyString) new ->
    leads_ok Safety.valid_email (fst (fst (Safety.fetch_emails web new blocks)))
    /\ saves_ok Safety.valid_email (snd (Safety.fetch_emails web new blocks)).
Proof.
  induction new as [|l rest IH]; intros blocks H.
  - split; constructor.
  - inversion H as [|? ? Hl Hrest]; subst.
    rewrite safety_fetch_emails_cons. cbv zeta.
    assert (Hl' : email_ok Safety.valid_email
                    (email_address
                       (fst (if String.eqb (Safety.get_email web (source l) (website_url l)) BLOCKED
                             then (l, (blocks + 1)%nat)
                             else if Py.truthy (Safety.get_email web (source l) (website_url l))
                                  then (set_email l (Safety.get_email web (source l) (website_url l)), blocks)
                                  else (l, blocks))))).
    { destruct (String.eqb _ BLOCKED) eqn:Eb; [left; exact Hl |].
      destruct (Py.truthy _); [|left; exact Hl]. simpl.
      destruct (safety_get_email_ok web (source l) (website_url l)) as [Hk|Hk];
        [|exact Hk].
      rewrite Hk in Eb. discriminate. }
    destruct (if String.eqb _ BLOCKED then _ else _) as [l' b1]. simpl in Hl'.
    destruct (5 <=? b1)%nat.
    + destruct (IH 0%nat Hrest) as [H1 H2].
      destruct (Safety.fetch_emails web rest 0) as [[ls b] evs]. simpl in *.
      split; [constructor; assumption |].
      repeat (constructor; [exact I |]). exact H2.
    + destruct (IH b1 Hrest) as [H1 H2].
      destruct (Safety.fetch_emails web rest b1) as [[ls b] evs]. simpl in *.
      split; [constructor; assumption | exact H2].
Qed.

Lemma safety_page_step_email_inv (env : Env) (url : string) (ex : gset string)
  (st : St) (pg : nat) :
  leads_ok Safety.valid_email (all_leads st) ->
  saves_ok Safety.valid_email (log st) ->
  let st' := snd (Safety.page_step env url ex st pg) in
  leads_ok Safety.valid_email (all_leads st')
  /\ saves_ok Safety.valid_email (log st').
Proof.
  intros Hl Hs. cbv zeta. unfold Safety.page_step, saves_ok in *.
  destruct (nav env _ 0) as [v|v]; simpl;
    [|split; [exact Hl | apply Forall_app; split; [exact Hs | repeat constructor]]].
  assert (Hs' : Forall (fun ev => match ev with
                                  | EvSave rows =>
                                      Forall (fun r => email_ok Safety.valid_email (row_email r)) rows
                                  | _ => True
                                  end)
                  (log st ++ [EvGet (page_url url pg); EvSleep 2]))
    by (apply Forall_app; split; [exact Hs | repeat constructor]).
  destruct (Safety.get_page_listings (today env) v) as [ls|] eqn:Eg; simpl;
    [|split; assumption].
  destruct (is_nil ls); simpl; [split; assumption |].
  pose proof (Forall_list_filter _
                (fun l => bool_decide (lead_id l ∉ ex)
                          && bool_decide (lead_id l ∉ local_ids st)) ls
                (safety_parsed_blank _ _ _ Eg)) as Hnew.
  destruct (is_nil _); simpl; [split; assumption |].
  unfold Safety.FETCH_EMAILS.
  match goal with |- context [Safety.fetch_emails ?w ?n ?b] =>
    destruct (safety_fetch_emails_ok w n b Hnew) as [Hf1 Hf2];
    destruct (Safety.fetch_emails w n b) as [[fetched b'] fevs] end.
  cbn [fst snd all_leads log] in *.
  assert (Hall : leads_ok Safety.valid_email (all_leads st ++ fetched))
    by (apply Forall_app; split; assumption).
  split; [exact Hall |].
  repeat (apply Forall_app; split); try assumption.
  - repeat constructor.
  - unfold Safety.save_events.
    destruct (Safety.save_xlsx _) as [rows|] eqn:E; [|constructor].
    constructor; [|constructor].
    exact (safety_save_ok Safety.valid_email _ rows Hall E).
  - destruct (pg <? Safety.MAX_PAGES)%nat; repeat constructor.
Qed.

Lemma safety_pages_loop_email_inv (env : Env) (url : string) (ex : gset string)
  (pages : list nat) (st : St) :
  leads_ok Safety.valid_email (all_leads st) ->
  saves_ok Safety.valid_email (log st) ->
  let st' := fst (Safety.pages_loop env url ex pages st) in
  leads_ok Safety.valid_email (all_leads st')
  /\ saves_ok Safety.valid_email (log st').
Proof.
  revert st. induction pages as [|p rest IH]; intros st Hl Hs; simpl; [auto |].
  destruct (safety_page_step_email_inv env url ex st p Hl Hs) as [Hl' Hs'].
  destruct (Safety.page_step env url ex st p) as [[| |] st']; simpl in *; auto.
Qed.

Lemma safety_scrape_email_inv (env : Env) (term location : string) (ex : gset string) :
  existing_emails_ok Safety.valid_email env ->
  leads_ok Safety.valid_email (all_leads (Safety.scrape env term location ex))
  /\ saves_ok Safety.valid_email (log (Safety.scrape env term location ex)).
Proof.
  intros He. apply safety_existing_ok in He. unfold Safety.scrape.
  match goal with |- context [Safety.pages_loop ?e ?u ?x ?ps ?s0] =>
    destruct (safety_pages_loop_email_inv e u x ps s0 He) as [Hl Hs];
      [repeat constructor |];
    destruct (Safety.pages_loop e u x ps s0) as [st raised] end.
  simpl in *. split; [exact Hl |].
  apply Forall_app; split; [exact Hs | repeat constructor].
Qed.

Lemma janitor_scrape_email_inv (env : Env) (term location : string) (ex : gset string) :
  existing_emails_ok Janitor.is_valid_email env ->
  leads_ok Janitor.is_valid_email (all_leads (Janitor.scrape_search env term location ex))
  /\ saves_ok Janitor.is_valid_email (log (Janitor.scrape_search env term location ex)).
Proof.
  intros He. unfold Janitor.scrape_search.
  apply run_task_email_inv.
  - apply janitor_parsed_blank.
  - intros d w. apply extract_email_from_detail_ok.
  - apply janitor_save_ok.
  - now apply janitor_existing_ok.
Qed.

Lemma b2b_scrape_email_inv (env : Env) (term label location : string) (ex : gset string) :
  existing_emails_ok B2B.is_valid_email env ->
  leads_ok B2B.is_valid_email (all_leads (B2B.scrape_search env term label location ex))
  /\ saves_ok B2B.is_valid_email (log (B2B.scrape_search env term label location ex)).
Proof.
  intros He. unfold B2B.scrape_search.
  apply run_task_email_inv.
  - apply b2b_parsed_blank.
  - intros d w. apply extract_email_from_detail_ok.
  - apply b2b_save_ok.
  - now apply b2b_existing_ok.
Qed.

Lemma leads_ok_not_blocked (valid : string -> bool) (leads : list Lead) :
  valid BLOCKED = false -> leads_ok valid leads ->
  Forall (fun l => email_address l <> BLOCKED) leads.
Proof.
  intros Hb H. eapply Forall_impl; [exact H |].
  intros l Hl. now apply (email_ok_not_blocked valid).
Qed.

(** C10.  In each file, if the email cells already in the task's spreadsheet
    are empty or valid, then after the task every accumulated lead and every
    row of every write has an email that is empty or accepted by the file's
    validator; the sentinel is not such a string, and a lead whose cascade
    returned the sentinel keeps its email as it was. *)
Theorem email_field_invariant (env : Env) (term label location : string)
  (ex : gset string) :
  (existing_emails_ok Janitor.is_valid_email env ->
   leads_ok Janitor.is_valid_email (all_leads (Janitor.scrape_search env term location ex))
   /\ saves_ok Janitor.is_valid_email (log (Janitor.scrape_search env term location ex))
   /\ Forall (fun l => email_address l <> BLOCKED)
             (all_leads (Janitor.scrape_search env term location ex)))
  /\ (existing_emails_ok Safety.valid_email env ->
   leads_ok Safety.valid_email (all_leads (Safety.scrape env term location ex))
   /\ saves_ok Safety.valid_email (log (Safety.scrape env term location ex))
   /\ Forall (fun l => email_address l <> BLOCKED)
             (all_leads (Safety.scrape env term location ex)))
  /\ (existing_emails_ok B2B.is_valid_email env ->
   leads_ok B2B.is_valid_email (all_leads (B2B.scrape_search env term label location ex))
   /\ saves_ok B2B.is_valid_email (log (B2B.scrape_search env term label location ex))
   /\ Forall (fun l => email_address l <> BLOCKED)
             (all_leads (B2B.scrape_search env term label location ex)))
  /\ (forall lead blocked,
        Janitor.extract_email_from_detail (web env) (source lead) (website_url lead) = BLOCKED ->
        fst (fst (fetch_emails (Janitor.extract_email_from_detail (web env)) [lead] blocked))
        = [lead])
  /\ (forall lead blocks,
        Safety.get_email (web env) (source lead) (website_url lead) = BLOCKED ->
        fst (fst (Safety.fetch_emails (web env) [lead] blocks)) = [lead]).
Proof.
  split; [|split; [|split; [|split]]].
  - intros He. destruct (janitor_scrape_email_inv env term location ex He) as [Hl Hs].
    split; [exact Hl | split; [exact Hs |]].
    now apply (leads_ok_not_blocked Janitor.is_valid_email).
  - intros He. destruct (safety_scrape_email_inv env term location ex He) as [Hl Hs].
    split; [exact Hl | split; [exact Hs |]].
    now apply (leads_ok_not_blocked Safety.valid_email).
  - intros He. destruct (b2b_scrape_email_inv env term label location ex He) as [Hl Hs].
    split; [exact Hl | split; [exact Hs |]].
    now apply (leads_ok_not_blocked B2B.is_valid_email).
  - intros lead blocked H. rewrite fetch_emails_cons. cbv zeta. rewrite H.
    change (String.eqb BLOCKED BLOCKED) with true. cbv iota.
    destruct (5 <=? blocked + 1)%nat; reflexivity.
  - intros lead blocks H. rewrite safety_fetch_emails_cons. cbv zeta. rewrite H.
    change (String.eqb BLOCKED BLOCKED) with true. cbv iota.
    destruct (5 <=? blocks + 1)%nat; reflexivity.
Qed.

Lemma email_field_invariant_witness :
  Janitor.extract_email_from_detail (web blocked_site) acme_detail_url
    "https://acme-supply.com" = BLOCKED
  /\ email_address <$> all_leads (Janitor.scrape_search blocked_site "wholesale" "queens-ny" ∅)
     = ["sales@boroughpaper.com"; EmptyString]
  /\ leads_ok Janitor.is_valid_email
       (all_leads (Janitor.scrape_search blocked_site "wholesale" "queens-ny" ∅))
  /\ saves_ok Safety.valid_email
       (log (Safety.scrape blocked_site "wholesale" "queens-ny" ∅)).
Proof.
  split; [vm_compute; reflexivity |].
  split; [vm_compute; reflexivity |].
  split.
  - refine (proj1 (proj1 (email_field_invariant blocked_site "wholesale" "Wholesale"
                            "queens-ny" ∅) _)).
    constructor; [right; vm_compute; reflexivity | constructor].
  - refine (proj1 (proj2 (proj1 (proj2 (email_field_invariant blocked_site "wholesale"
                            "Wholesale" "queens-ny" ∅)) _))).
    constructor; [right; vm_compute; reflexivity | constructor].
Defined.

(** ** One accepted lead per identity, over the whole task *)

Lemma fetch_emails_ids (extract : string -> string -> string) (new : list Lead) :
  forall blocked,
    lead_id <$> fst (fst (fetch_emails extract new blocked)) = lead_id <$> new.
Proof.
  induction new as [|l rest IH]; intros blocked; [reflexivity |].
  rewrite fetch_emails_cons. cbv zeta.
  destruct (String.eqb _ _).
  - destruct (5 <=? blocked + 1)%nat.
    + specialize (IH 0%nat). destruct (fetch_emails extract rest 0) as [[? ?] ?].
      cbn [fst] in *. rewrite !fmap_cons. now f_equal.
    + specialize (IH (blocked + 1)%nat).
      destruct (fetch_emails extract rest (blocked + 1)) as [[? ?] ?].
      cbn [fst] in *. rewrite !fmap_cons. now f_equal.
  - specialize (IH blocked).
    destruct (Py.truthy _); destruct (fetch_emails extract rest blocked) as [[? ?] ?];
      cbn [fst] in *; rewrite !fmap_cons; now f_equal.
Qed.

Section AcceptedOnce.

Variable MAX_PAGES : nat.
Variable get_listings : View -> option (list Lead).
Variable extract : string -> string -> string.
Variable save : list Lead -> option (list Row).
Variable nav : string -> nat -> Nav.
Variable base_url : string.
Variable ex : gset string.
Variable existing : list Lead.

Local Abbreviation once := (accepted_once ex existing).

Lemma page_step_accepted_once (st : St) (p : nat) :
  once st ->
  once (snd (page_step MAX_PAGES get_listings extract save nav base_url ex st p)).
Proof.
  intros (added & Hall & Hnd & Hfresh & Hloc). unfold page_step.
  destruct (load_page nav _ _ _) as [v evs].
  assert (Hemit : once (emit st evs)) by (exists added; auto).
  destruct (get_listings v) as [ls|]; [|exact Hemit].
  destruct (is_nil ls); [exact Hemit |].
  pose proof (filter_dupes_spec ex ls (local_ids st)) as Hspec.
  cbn [all_leads local_ids new_leads_count blocked_count log emit] in *.
  destruct (filter_dupes ex (local_ids st) ls) as [new local'].
  cbn [fst snd] in Hspec. destruct Hspec as (Hloc' & Hnd' & Hnew & _).
  destruct (is_nil new) eqn:En.
  - destruct new; [|discriminate]. cbn [snd].
    exists added. cbn [all_leads local_ids].
    split; [exact Hall |]. split; [exact Hnd |]. split; [exact Hfresh |].
    rewrite Hloc', Hloc. set_solver.
  - unfold FETCH_EMAILS. pose proof (fetch_emails_ids extract new (blocked_count st)) as Hids.
    destruct (fetch_emails extract new (blocked_count st)) as [[fetched b] fevs].
    cbn [fst snd all_leads local_ids] in *.
    assert (Hnew' : forall i, i ∈ lead_id <$> new -> i ∉ ex /\ i ∉ local_ids st).
    { intros i Hi. apply list_elem_of_fmap in Hi as (l & -> & Hl).
      destruct (Hnew l Hl) as (_ & ? & ?). auto. }
    exists (added ++ fetched). cbn [all_leads local_ids]. repeat split.
    + rewrite Hall. now rewrite <- app_assoc.
    + rewrite fmap_app, Hids. apply NoDup_app. split; [exact Hnd |]. split; [|exact Hnd'].
      intros i Hi Hi'. destruct (Hnew' i Hi') as [_ Hn]. apply Hn.
      rewrite Hloc, Hall, fmap_app. set_solver.
    + rewrite fmap_app, Hids in H. apply elem_of_app in H as [H|H].
      * now apply Hfresh.
      * now apply Hnew'.
    + rewrite fmap_app, Hids in H. apply elem_of_app in H as [H|H].
      * now apply Hfresh.
      * destruct (Hnew' i H) as [_ Hn]. intros Hi. apply Hn.
        rewrite Hloc, Hall, fmap_app. set_solver.
    + rewrite Hloc', Hloc, !fmap_app, Hids. set_solver.
Qed.

Lemma pages_loop_accepted_once (pages : list nat) (st : St) :
  once st ->
  once (fst (pages_loop MAX_PAGES get_listings extract save nav base_url ex pages st)).
Proof.
  revert st. induction pages as [|p rest IH]; intros st H; simpl; [exact H |].
  pose proof (page_step_accepted_once st p H) as Hs.
  destruct (page_step _ _ _ _ _ _ _ st p) as [[| |] st']; simpl in *; auto.
Qed.

(** Whatever the site shows, the janitor and B2B loop accepts an identity
    at most once in a task. *)
Lemma run_task_accepted_once :
  once (run_task MAX_PAGES get_listings extract save nav base_url ex existing).
Proof.
  unfold run_task.
  match goal with |- context [pages_loop _ _ _ _ _ _ _ ?ps ?s0] =>
    assert (H0 : once s0);
      [| pose proof (pages_loop_accepted_once ps s0 H0) as Hl;
         destruct (pages_loop MAX_PAGES get_listings extract save nav base_url ex ps s0)
           as [st raised] ] end.
  - exists []. cbn [all_leads local_ids]. rewrite app_nil_r. repeat split.
    + constructor.
    + intros Hi. apply elem_of_nil in H. contradiction.
    + intros Hi. apply elem_of_nil in H. contradiction.
  - cbn [fst] in Hl. destruct Hl as (added & ? & ? & ? & ?).
    exists added. destruct (raised && _); cbn [all_leads local_ids emit]; auto.
Qed.

End AcceptedOnce.

Lemma janitor_accepts_identity_once (env : Env) (term location : string)
  (ex : gset string) :
  accepted_once ex (Janitor.load_existing env)
    (Janitor.scrape_search env term location ex).
Proof. unfold Janitor.scrape_search. apply run_task_accepted_once. Qed.

Lemma b2b_accepts_identity_once (env : Env) (term label location : string)
  (ex : gset string) :
  accepted_once ex (B2B.load_existing env)
    (B2B.scrape_search env term label location ex).
Proof. unfold B2B.scrape_search. apply run_task_accepted_once. Qed.

(** * Further properties of the code *)

(** ** The email loop *)

Lemma fetch_emails_map (extract : string -> string -> string) (new : list Lead) :
  forall blocked,
    fst (fst (fetch_emails extract new blocked))
    = map (fun l => assign_email (extract (source l) (website_url l)) l) new.
Proof.
  induction new as [|l rest IH]; intros blocked; [reflexivity |].
  rewrite fetch_emails_cons. cbv zeta. cbn [map]. unfold assign_email at 1.
  destruct (String.eqb _ _).
  - destruct (5 <=? blocked + 1)%nat.
    + specialize (IH 0%nat). destruct (fetch_emails extract rest 0) as [[? ?] ?].
      cbn [fst] in *. now f_equal.
    + specialize (IH (blocked + 1)%nat).
      destruct (fetch_emails extract rest (blocked + 1)) as [[? ?] ?].
      cbn [fst] in *. now f_equal.
  - specialize (IH blocked).
    destruct (Py.truthy _); destruct (fetch_emails extract rest blocked) as [[? ?] ?];
      cbn [fst] in *; now f_equal.
Qed.

Lemma fetch_emails_counter (extract : string -> string -> string) (new : list Lead) :
  forall blocked,
    (blocked < 5)%nat ->
    snd (fst (fetch_emails extract new blocked))
    = ((blocked + sentinel_count extract new) mod 5)%nat
    /\ creates (snd (fetch_emails extract new blocked))
       = ((blocked + sentinel_count extract new) / 5)%nat.
Proof.
  induction new as [|l rest IH]; intros blocked Hb.
  - unfold sentinel_count, creates.
    cbn [fetch_emails Safety.fetch_emails fst snd List.filter length].
    rewrite Nat.add_0_r, Nat.mod_small, Nat.div_small by lia. auto.
  - rewrite fetch_emails_cons. cbv zeta. unfold sentinel_count. simpl List.filter.
    destruct (String.eqb _ _).
    + simpl length. fold (sentinel_count extract rest).
      destruct (5 <=? blocked + 1)%nat eqn:E.
      * apply Nat.leb_le in E. assert (blocked = 4)%nat by lia. subst blocked.
        destruct (IH 0%nat ltac:(lia)) as [H1 H2].
        destruct (fetch_emails extract rest 0) as [[ls b] evs]. cbn [fst snd] in *.
        replace (4 + S (sentinel_count extract rest))%nat
          with (sentinel_count extract rest + 1 * 5)%nat by lia.
        rewrite Nat.Div0.mod_add, Nat.div_add by lia.
        split; [exact H1 |]. unfold creates in *. simpl. rewrite H2. simpl. lia.
      * apply Nat.leb_gt in E.
        destruct (IH (blocked + 1)%nat ltac:(lia)) as [H1 H2].
        destruct (fetch_emails extract rest (blocked + 1)) as [[ls b] evs].
        cbn [fst snd] in *.
        replace (blocked + S (sentinel_count extract rest))%nat
          with (blocked + 1 + sentinel_count extract rest)%nat by lia.
        auto.
    + fold (sentinel_count extract rest).
      destruct (IH blocked Hb) as [H1 H2].
      destruct (Py.truthy _); destruct (fetch_emails extract rest blocked) as [[ls b] evs];
        cbn [fst snd] in *; auto.
Qed.

Lemma safety_fetch_emails_map (web : string -> option Page) (new : list Lead) :
  forall blocks,
    fst (fst (Safety.fetch_emails web new blocks))
    = map (fun l => assign_email (Safety.get_email web (source l) (website_url l)) l) new.
Proof.
  induction new as [|l rest IH]; intros blocks; [reflexivity |].
  rewrite safety_fetch_emails_cons. cbv zeta. cbn [map]. unfold assign_email at 1.
  destruct (String.eqb _ _).
  - destruct (5 <=? blocks + 1)%nat.
    + specialize (IH 0%nat). destruct (Safety.fetch_emails web rest 0) as [[? ?] ?].
      cbn [fst] in *. now f_equal.
    + specialize (IH (blocks + 1)%nat).
      destruct (Safety.fetch_emails web rest (blocks + 1)) as [[? ?] ?].
      cbn [fst] in *. now f_equal.
  - destruct (Py.truthy _).
    + destruct (5 <=? blocks)%nat.
      * specialize (IH 0%nat). destruct (Safety.fetch_emails web rest 0) as [[? ?] ?].
        cbn [fst] in *. now f_equal.
      * specialize (IH blocks). destruct (Safety.fetch_emails web rest blocks) as [[? ?] ?].
        cbn [fst] in *. now f_equal.
    + destruct (5 <=? blocks)%nat.
      * specialize (IH 0%nat). destruct (Safety.fetch_emails web rest 0) as [[? ?] ?].
        cbn [fst] in *. now f_equal.
      * specialize (IH blocks). destruct (Safety.fetch_emails web rest blocks) as [[? ?] ?].
        cbn [fst] in *. now f_equal.
Qed.

Lemma safety_fetch_emails_counter (web : string -> option Page) (new : list Lead) :
  forall blocks,
    (blocks < 5)%nat ->
    snd (fst (Safety.fetch_emails web new blocks))
    = ((blocks + sentinel_count (Safety.get_email web) new) mod 5)%nat
    /\ creates (snd (Safety.fetch_emails web new blocks))
       = ((blocks + sentinel_count (Safety.get_email web) new) / 5)%nat.
Proof.
  induction new as [|l rest IH]; intros blocks Hb.
  - unfold sentinel_count, creates.
    cbn [fetch_emails Safety.fetch_emails fst snd List.filter length].
    rewrite Nat.add_0_r, Nat.mod_small, Nat.div_small by lia. auto.
  - rewrite safety_fetch_emails_cons. cbv zeta. unfold sentinel_count. simpl List.filter.
    destruct (String.eqb _ _).
    + simpl length. fold (sentinel_count (Safety.get_email web) rest).
      destruct (5 <=? blocks + 1)%nat eqn:E.
      * apply Nat.leb_le in E. assert (blocks = 4)%nat by lia. subst blocks.
        destruct (IH 0%nat ltac:(lia)) as [H1 H2].
        destruct (Safety.fetch_emails web rest 0) as [[ls b] evs]. cbn [fst snd] in *.
        replace (4 + S (sentinel_count (Safety.get_email web) rest))%nat
          with (sentinel_count (Safety.get_email web) rest + 1 * 5)%nat by lia.
        rewrite Nat.Div0.mod_add, Nat.div_add by lia.
        split; [exact H1 |]. unfold creates in *. simpl. rewrite H2. simpl. lia.
      * apply Nat.leb_gt in E.
        destruct (IH (blocks + 1)%nat ltac:(lia)) as [H1 H2].
        destruct (Safety.fetch_emails web rest (blocks + 1)) as [[ls b] evs].
        cbn [fst snd] in *.
        replace (blocks + S (sentinel_count (Safety.get_email web) rest))%nat
          with (blocks + 1 + sentinel_count (Safety.get_email web) rest)%nat by lia.
        auto.
    + fold (sentinel_count (Safety.get_email web) rest).
      assert (E : (5 <=? blocks)%nat = false) by (apply Nat.leb_gt; lia).
      destruct (IH blocks Hb) as [H1 H2].
      destruct (Py.truthy _); rewrite E;
        destruct (Safety.fetch_emails web rest blocks) as [[ls b] evs];
        cbn [fst snd] in *; auto.
Qed.

(** X1.  The email loop gives every new lead the address its cascade
    returned, and leaves it untouched on the sentinel or on no address,
    whatever the block counter; starting from a counter below five, the
    counter ends at the total number of sentinels modulo five and the session
    is restarted once for every five sentinels, even when other results came
    in between. *)
Theorem email_loop_counts_blocks (extract : string -> string -> string)
  (web : string -> option Page) (new : list Lead) (blocked : nat) :
  (blocked < 5)%nat ->
  (fst (fst (fetch_emails extract new blocked))
     = map (fun l => assign_email (extract (source l) (website_url l)) l) new
   /\ snd (fst (fetch_emails extract new blocked))
     = ((blocked + sentinel_count extract new) mod 5)%nat
   /\ creates (snd (fetch_emails extract new blocked))
     = ((blocked + sentinel_count extract new) / 5)%nat)
  /\ (fst (fst (Safety.fetch_emails web new blocked))
     = map (fun l => assign_email (Safety.get_email web (source l) (website_url l)) l) new
   /\ snd (fst (Safety.fetch_emails web new blocked))
     = ((blocked + sentinel_count (Safety.get_email web) new) mod 5)%nat
   /\ creates (snd (Safety.fetch_emails web new blocked))
     = ((blocked + sentinel_count (Safety.get_email web) new) / 5)%nat).
Proof.
  intros Hb. split.
  - split; [apply fetch_emails_map | now apply fetch_emails_counter].
  - split; [apply safety_fetch_emails_map | now apply safety_fetch_emails_counter].
Qed.

Lemma email_loop_counts_blocks_witness :
  (4 < 5)%nat
  /\ snd (fst (fetch_emails (Janitor.extract_email_from_detail (web blocked_site))
                 acme_leads 4)) = 0%nat
  /\ creates (snd (fetch_emails (Janitor.extract_email_from_detail (web blocked_site))
                     acme_leads 4)) = 1%nat.
Proof.
  assert (H : (4 < 5)%nat) by lia.
  split; [exact H |].
  destruct (email_loop_counts_blocks
              (Janitor.extract_email_from_detail (web blocked_site))
              (web blocked_site) acme_leads 4 H) as [(_ & Hc & Hr) _].
  split; [rewrite Hc | rewrite Hr]; vm_compute; reflexivity.
Defined.

(** ** The addresses a task navigates to *)

Lemma gets_app (a b : list Event) : gets (a ++ b) = gets a ++ gets b.
Proof.
  induction a as [|e a IH]; [reflexivity |].
  destruct e; simpl; rewrite ?IH; reflexivity.
Qed.


Lemma fetch_emails_quiet (extract : string -> string -> string) (new : list Lead) :
  forall blocked,
    gets (snd (fetch_emails extract new blocked)) = []
    /\ last_save (snd (fetch_emails extract new blocked)) = None.
Proof.
  induction new as [|l rest IH]; intros blocked; [split; reflexivity |].
  rewrite fetch_emails_cons. cbv zeta.
  destruct (String.eqb _ _).
  - destruct (5 <=? blocked + 1)%nat.
    + destruct (IH 0%nat) as [H1 H2].
      destruct (fetch_emails extract rest 0) as [[? ?] ?]. cbn [snd] in *.
      simpl. rewrite H1, H2. auto.
    + destruct (IH (blocked + 1)%nat) as [H1 H2].
      destruct (fetch_emails extract rest (blocked + 1)) as [[? ?] ?]. auto.
  - destruct (IH blocked) as [H1 H2].
    destruct (Py.truthy _); destruct (fetch_emails extract rest blocked) as [[? ?] ?];
      auto.
Qed.

Lemma safety_fetch_emails_quiet (web : string -> option Page) (new : list Lead) :
  forall blocks,
    gets (snd (Safety.fetch_emails web new blocks)) = []
    /\ last_save (snd (Safety.fetch_emails web new blocks)) = None.
Proof.
  induction new as [|l rest IH]; intros blocks; [split; reflexivity |].
  rewrite safety_fetch_emails_cons. cbv zeta.
  destruct (if String.eqb _ _ then _ else _) as [l' b1].
  destruct (5 <=? b1)%nat.
  - destruct (IH 0%nat) as [H1 H2].
    destruct (Safety.fetch_emails web rest 0) as [[? ?] ?]. cbn [snd] in *.
    simpl. rewrite H1, H2. auto.
  - destruct (IH b1) as [H1 H2].
    destruct (Safety.fetch_emails web rest b1) as [[? ?] ?]. auto.
Qed.


Lemma load_page_gets (nav : string -> nat -> Nav) (url : string) (cur : View) :
  exists k, (1 <= k <= MAX_RETRIES)%nat
    /\ gets (snd (load_page nav url (seq 0 MAX_RETRIES) cur)) = replicate k url.
Proof.
  destruct (load_page_cases nav url cur)
    as [(v & _ & ->)|[(v0 & v & _ & _ & ->)|[(v0 & v1 & v & _ & _ & _ & ->)
       |(v0 & v1 & v & _ & _ & _ & ->)]]].
  - exists 1%nat. unfold MAX_RETRIES. split; [lia | reflexivity].
  - exists 2%nat. unfold MAX_RETRIES. split; [lia | reflexivity].
  - exists 3%nat. unfold MAX_RETRIES. split; [lia | reflexivity].
  - exists 3%nat. unfold MAX_RETRIES. split; [lia | reflexivity].
Qed.

Lemma save_events_gets (save : list Lead -> option (list Row)) (leads : list Lead) :
  gets (save_events save leads) = [].
Proof. unfold save_events. destruct (save leads); reflexivity. Qed.

Section Navigation.

Variable MAX_PAGES : nat.
Variable get_listings : View -> option (list Lead).
Variable extract : string -> string -> string.
Variable save : list Lead -> option (list Row).
Variable nav : string -> nat -> Nav.
Variable base_url : string.
Variable ex : gset string.

Local Abbreviation step := (page_step MAX_PAGES get_listings extract save nav base_url ex).
Local Abbreviation loop := (pages_loop MAX_PAGES get_listings extract save nav base_url ex).

Lemma page_step_gets (st : St) (p : nat) :
  exists k, (1 <= k <= MAX_RETRIES)%nat
    /\ gets (log (snd (step st p))) = gets (log st) ++ replicate k (page_url base_url p).
Proof.
  unfold page_step.
  destruct (load_page_gets nav (page_url base_url p) Blank) as (k & Hk & Hg).
  destruct (load_page nav _ _ _) as [v evs]. cbn [snd] in Hg.
  exists k. split; [exact Hk |].
  destruct (get_listings v) as [ls|]; cbn [snd log emit];
    [|now rewrite gets_app, Hg].
  destruct (is_nil ls); cbn [snd log emit]; [now rewrite gets_app, Hg |].
  destruct (filter_dupes ex _ ls) as [new local'].
  destruct (is_nil new); cbn [snd log].
  - rewrite !gets_app, Hg. destruct (p <? MAX_PAGES)%nat; simpl; now rewrite app_nil_r.
  - unfold FETCH_EMAILS.
    destruct (fetch_emails_quiet extract new (blocked_count (emit st evs))) as [Hf _].
    destruct (fetch_emails extract new _) as [[fetched b] fevs]. cbn [snd log] in *.
    rewrite !gets_app, Hg, Hf, save_events_gets.
    destruct (p <? MAX_PAGES)%nat; simpl; now rewrite app_nil_r.
Qed.

Lemma pages_loop_gets (n : nat) :
  forall (first : nat) (st : St),
    exists tries,
      (length tries <= n)%nat
      /\ Forall (fun k => (1 <= k <= MAX_RETRIES)%nat) tries
      /\ gets (log (fst (loop (seq first n) st)))
         = gets (log st) ++ visits base_url first tries.
Proof.
  induction n as [|n IH]; intros first st.
  - exists []. simpl. rewrite app_nil_r. repeat split; [lia | constructor].
  - simpl seq. simpl pages_loop.
    destruct (page_step_gets st first) as (k & Hk & Hg).
    destruct (step st first) as [[| |] st']; cbn [fst snd] in *.
    + destruct (IH (S first) st') as (tries & Hlen & Hall & Hgets).
      exists (k :: tries). split; [simpl; lia |]. split; [now constructor |].
      rewrite Hgets, Hg. simpl. now rewrite app_assoc.
    + exists [k]. split; [simpl; lia |]. split; [constructor; [exact Hk | constructor] |].
      rewrite Hg. simpl. now rewrite app_nil_r.
    + exists [k]. split; [simpl; lia |]. split; [constructor; [exact Hk | constructor] |].
      rewrite Hg. simpl. now rewrite app_nil_r.
Qed.

Lemma run_task_gets (existing : list Lead) :
  exists tries,
    (length tries <= MAX_PAGES)%nat
    /\ Forall (fun k => (1 <= k <= MAX_RETRIES)%nat) tries
    /\ gets (log (run_task MAX_PAGES get_listings extract save nav base_url ex existing))
       = visits base_url 1 tries.
Proof.
  unfold run_task, START_PAGE.
  replace (MAX_PAGES + 1 - 1)%nat with MAX_PAGES by lia.
  match goal with |- context [pages_loop _ _ _ _ _ _ _ ?ps ?s0] =>
    destruct (pages_loop_gets MAX_PAGES 1 s0) as (tries & Hlen & Hall & Hg);
    destruct (pages_loop MAX_PAGES get_listings extract save nav base_url ex ps s0)
      as [st raised] end.
  cbn [fst log] in Hg. exists tries. split; [exact Hlen |]. split; [exact Hall |].
  destruct (raised && _); cbn [log emit]; rewrite !gets_app, ?save_events_gets, Hg;
    simpl; now rewrite ?app_nil_r.
Qed.

End Navigation.

Lemma safety_page_step_gets (env : Env) (url : string) (ex : gset string)
  (st : St) (pg : nat) :
  gets (log (snd (Safety.page_step env url ex st pg)))
  = gets (log st) ++ [page_url url pg].
Proof.
  unfold Safety.page_step.
  destruct (nav env _ 0) as [v|v]; cbn [snd log emit]; [|now rewrite gets_app].
  destruct (Safety.get_page_listings _ v) as [ls|]; cbn [snd log emit];
    [|now rewrite gets_app].
  destruct (is_nil ls); cbn [snd log emit]; [now rewrite gets_app |].
  destruct (is_nil _); cbn [snd log emit]; [now rewrite gets_app |].
  unfold Safety.FETCH_EMAILS.
  match goal with |- context [Safety.fetch_emails ?w ?n ?b] =>
    destruct (safety_fetch_emails_quiet w n b) as [Hf _];
    destruct (Safety.fetch_emails w n b) as [[fetched b'] fevs] end.
  cbn [snd log] in *. rewrite !gets_app, Hf.
  unfold Safety.save_events. destruct (Safety.save_xlsx _);
    destruct (pg <? Safety.MAX_PAGES)%nat; simpl; now rewrite ?app_nil_r.
Qed.

Lemma safety_pages_loop_gets (env : Env) (url : string) (ex : gset string) (n : nat) :
  forall (first : nat) (st : St),
    exists m, (m <= n)%nat
      /\ gets (log (fst (Safety.pages_loop env url ex (seq first n) st)))
         = gets (log st) ++ (page_url url <$> seq first m).
Proof.
  induction n as [|n IH]; intros first st.
  - exists 0%nat. simpl. rewrite app_nil_r. split; [lia | reflexivity].
  - simpl seq. simpl Safety.pages_loop.
    pose proof (safety_page_step_gets env url ex st first) as Hg.
    destruct (Safety.page_step env url ex st first) as [[| |] st']; cbn [fst snd] in *.
    + destruct (IH (S first) st') as (m & Hm & Hgets).
      exists (S m). split; [lia |]. rewrite Hgets, Hg. simpl. now rewrite <- app_assoc.
    + exists 1%nat. split; [lia | exact Hg].
    + exists 1%nat. split; [lia | exact Hg].
Qed.

(** X2.  A task only ever navigates to the result pages of its own address,
    from page one upwards without a gap and never beyond the page ceiling; the
    janitor and B2B files try each page one to three times in a row, the
    safety file once. *)
Theorem task_navigation_in_page_order (env : Env) (term label location : string)
  (ex : gset string) :
  (exists tries,
     (length tries <= Janitor.MAX_PAGES)%nat
     /\ Forall (fun k => (1 <= k <= MAX_RETRIES)%nat) tries
     /\ gets (log (Janitor.scrape_search env term location ex))
        = visits (task_url location term) 1 tries)
  /\ (exists tries,
     (length tries <= B2B.MAX_PAGES)%nat
     /\ Forall (fun k => (1 <= k <= MAX_RETRIES)%nat) tries
     /\ gets (log (B2B.scrape_search env term label location ex))
        = visits (task_url location term) 1 tries)
  /\ (exists m,
     (m <= Safety.MAX_PAGES)%nat
     /\ gets (log (Safety.scrape env term location ex))
        = page_url (task_url location term) <$> seq 1 m).
Proof.
  split; [apply run_task_gets | split; [apply run_task_gets |]].
  unfold Safety.scrape.
  match goal with |- context [Safety.pages_loop ?e ?u ?x (seq 1 ?n) ?s0] =>
    destruct (safety_pages_loop_gets e u x n 1 s0) as (m & Hm & Hg);
    destruct (Safety.pages_loop e u x (seq 1 n) s0) as [st raised] end.
  cbn [fst log] in Hg. exists m. split; [exact Hm |].
  cbn [log emit]. rewrite gets_app, Hg. simpl. now rewrite app_nil_r.
Qed.

(** ** What the spreadsheet holds when the task ends *)


Section Artifact.

Variable MAX_PAGES : nat.
Variable get_listings : View -> option (list Lead).
Variable extract : string -> string -> string.
Variable save : list Lead -> option (list Row).
Variable nav : string -> nat -> Nav.
Variable base_url : string.
Variable ex : gset string.
Variable existing : list Lead.
Variable Q : Lead -> Prop.

Hypothesis parsed_Q : forall v ls, get_listings v = Some ls -> Forall Q ls.
Hypothesis Q_set_email : forall l e, Q l -> Q (set_email l e).
Hypothesis save_some : forall a b, b <> [] -> Forall Q b -> save (a ++ b) <> None.

Local Abbreviation step := (page_step MAX_PAGES get_listings extract save nav base_url ex).
Local Abbreviation loop := (pages_loop MAX_PAGES get_listings extract save nav base_url ex).








End Artifact.














(** ** Identities over a whole task *)






(** ** The rows of a spreadsheet *)

Lemma number_rows_length (ls : list Lead) : forall i, length (number_rows i ls) = length ls.
Proof. induction ls as [|l ls IH]; intros i; simpl; [reflexivity | now rewrite IH]. Qed.

Lemma number_rows_lookup (ls : list Lead) :
  forall i k, number_rows i ls !! k = to_row (i + k) <$> ls !! k.
Proof.
  induction ls as [|l ls IH]; intros i k; [reflexivity |].
  destruct k as [|k]; simpl.
  - now rewrite Nat.add_0_r.
  - rewrite IH. now replace (S i + k)%nat with (i + S k)%nat by lia.
Qed.

Lemma number_rows_nums (ls : list Lead) :
  forall i, row_num <$> number_rows i ls = seq i (length ls).
Proof.
  induction ls as [|l ls IH]; intros i; [reflexivity |].
  cbn [number_rows length seq]. rewrite fmap_cons. cbn [row_num to_row]. now rewrite IH.
Qed.

Lemma save_rows_numbered (keep : Lead -> bool) (leads : list Lead) (rows : list Row) :
  (if is_nil leads then None
   else if is_nil (List.filter keep leads) then None
        else Some (number_rows 1 (List.filter keep leads))) = Some rows ->
  rows <> []
  /\ length rows = length (List.filter keep leads)
  /\ row_num <$> rows = seq 1 (length rows)
  /\ forall k, rows !! k = to_row (S k) <$> List.filter keep leads !! k.
Proof.
  destruct (is_nil leads); [discriminate |].
  destruct (is_nil (List.filter keep leads)) eqn:E; [discriminate |].
  intros [= <-].
  split; [destruct (List.filter keep leads); discriminate |].
  split; [apply number_rows_length |].
  split; [rewrite number_rows_length; apply number_rows_nums |].
  intros k. apply number_rows_lookup.
Qed.

Lemma filter_true_id {A : Type} (l : list A) : List.filter (fun _ => true) l = l.
Proof. induction l as [|x l IH]; simpl; [reflexivity | now rewrite IH]. Qed.

(** X6.  A spreadsheet that is written is never empty; its rows are, in the
    order of the accumulator, the leads the writer keeps (in the janitor
    and safety files those whose website passes the filter, in the B2B file
    all of them), and the row at position k carries the sequence number
    k + 1, whatever number the lead had before. *)
Theorem saved_rows_numbered (leads : list Lead) (rows : list Row) :
  (Janitor.save_leads_to_excel leads = Some rows ->
     rows <> []
     /\ row_num <$> rows = seq 1 (length rows)
     /\ forall k, rows !! k
          = to_row (S k)
              <$> List.filter (fun l => Janitor.is_valid_website (website_url l)) leads !! k)
  /\ (B2B.save_leads_to_excel leads = Some rows ->
     rows <> []
     /\ row_num <$> rows = seq 1 (length rows)
     /\ forall k, rows !! k = to_row (S k) <$> leads !! k)
  /\ (Safety.save_xlsx leads = Some rows ->
     rows <> []
     /\ row_num <$> rows = seq 1 (length rows)
     /\ forall k, rows !! k
          = to_row (S k)
              <$> List.filter (fun l => Safety.is_valid_website (website_url l)) leads !! k).
Proof.
  split; [|split].
  - intros H. apply save_rows_numbered in H as (? & _ & ? & ?). auto.
  - unfold B2B.save_leads_to_excel. intros H.
    pose proof (save_rows_numbered (fun _ => true) leads rows) as Hs.
    rewrite filter_true_id in Hs.
    destruct (is_nil leads) eqn:E; [discriminate |].
    destruct (Hs H) as (? & _ & ? & ?). auto.
  - intros H. apply save_rows_numbered in H as (? & _ & ? & ?). auto.
Qed.

Lemma saved_rows_numbered_witness :
  Janitor.save_leads_to_excel acme_leads = Some (number_rows 1 acme_leads)
  /\ row_num <$> number_rows 1 acme_leads
     = seq 1 (length (number_rows 1 acme_leads)).
Proof.
  assert (H : Janitor.save_leads_to_excel acme_leads = Some (number_rows 1 acme_leads))
    by (vm_compute; reflexivity).
  split; [exact H |].
  exact (proj1 (proj2 (proj1 (saved_rows_numbered acme_leads (number_rows 1 acme_leads)) H))).
Defined.

(** ** Merging the spreadsheets *)

Lemma rec_get_insert_ne (d : Rec) (k k' : string) (v : Cell) :
  k <> k' -> rec_get (<[k := v]> d) k' = rec_get d k'.
Proof. intros H. unfold rec_get. f_equal. now apply lookup_insert_ne. Qed.

Lemma dedupe_none (key : Rec -> option string) (leads : list Rec) :
  forall seen, dedupe key seen leads = None <-> Exists (fun l => key l = None) leads.
Proof.
  induction leads as [|l rest IH]; intros seen; simpl.
  - split; [discriminate | intros H; inversion H].
  - destruct (key l) as [k|] eqn:Ek.
    + destruct (bool_decide (k ∈ seen)).
      * rewrite IH. split; [now right |].
        intros H. inversion H as [? ? Hl|? ? Hr]; subst; [congruence | exact Hr].
      * rewrite fmap_None, IH. split; [now right |].
        intros H. inversion H as [? ? Hl|? ? Hr]; subst; [congruence | exact Hr].
    + split; [intros _; now left | reflexivity].
Qed.

Lemma dedupe_spec (key : Rec -> option string) (leads : list Rec) :
  forall seen out,
    dedupe key seen leads = Some out ->
    NoDup (key <$> out)
    /\ (forall l, l ∈ out -> l ∈ leads /\ exists k, key l = Some k /\ k ∉ seen)
    /\ (forall l k, l ∈ leads -> key l = Some k -> k ∉ seen -> Some k ∈ key <$> out)
    /\ (forall l, l ∈ out ->
          List.find (fun l' => bool_decide (key l' = key l)) leads = Some l).
Proof.
  induction leads as [|lead rest IH]; intros seen out; simpl.
  - intros [= <-]. split; [constructor |].
    split; [intros l H; now apply elem_of_nil in H |].
    split; [intros l k H; now apply elem_of_nil in H |].
    intros l H. now apply elem_of_nil in H.
  - destruct (key lead) as [k|] eqn:Ek; [|discriminate].
    destruct (bool_decide (k ∈ seen)) eqn:Es.
    + apply bool_decide_eq_true in Es. intros H.
      destruct (IH seen out H) as (Hnd & Hin & Hall & Hfirst).
      split; [exact Hnd |]. split; [|split].
      * intros l Hl. destruct (Hin l Hl) as [? ?]. split; [now right | assumption].
      * intros l k' Hl Hk Hn. apply elem_of_cons in Hl as [->|Hl].
        -- rewrite Ek in Hk. injection Hk as <-. contradiction.
        -- eapply Hall; eassumption.
      * intros l Hl. destruct (Hin l Hl) as (_ & k' & Hk' & Hn).
        cbn [List.find]. rewrite bool_decide_eq_false_2; [now apply Hfirst |].
        rewrite ?Ek, Hk'. intros [= ->]. contradiction.
    + apply bool_decide_eq_false in Es.
      destruct (dedupe key ({[k]} ∪ seen) rest) as [out'|] eqn:Ed; [|discriminate].
      intros [= <-].
      destruct (IH _ out' Ed) as (Hnd & Hin & Hall & Hfirst).
      assert (Hfresh : forall l, l ∈ out' -> key l <> Some k).
      { intros l Hl Heq. destruct (Hin l Hl) as (_ & k' & Hk' & Hn).
        rewrite Hk' in Heq. injection Heq as ->. set_solver. }
      split; [|split; [|split]].
      * rewrite fmap_cons. constructor; [|exact Hnd].
        rewrite Ek. intros Hx. apply list_elem_of_fmap in Hx as (l & Hl & Hlin).
        now apply (Hfresh l Hlin).
      * intros l Hl. apply elem_of_cons in Hl as [->|Hl].
        -- split; [now left |]. exists k. auto.
        -- destruct (Hin l Hl) as (? & k' & ? & ?).
           split; [now right |]. exists k'. split; [assumption | set_solver].
      * intros l k' Hl Hk Hn. rewrite fmap_cons.
        destruct (decide (k' = k)) as [->|Hne].
        -- rewrite Ek. now left.
        -- right. apply elem_of_cons in Hl as [->|Hl]; [congruence |].
           apply (Hall l k' Hl Hk). set_solver.
      * intros l Hl. cbn [List.find]. apply elem_of_cons in Hl as [->|Hl].
        -- now rewrite bool_decide_eq_true_2.
        -- rewrite bool_decide_eq_false_2; [now apply Hfirst |].
           rewrite ?Ek. intros Heq. now apply (Hfresh l Hl).
Qed.

Lemma renumber_length (leads : list Rec) :
  forall i, length (renumber i leads) = length leads.
Proof. induction leads as [|l ls IH]; intros i; simpl; [reflexivity | now rewrite IH]. Qed.

Lemma renumber_lookup (leads : list Rec) :
  forall i k,
    renumber i leads !! k
    = (fun l => <["#" := Num (Z.of_nat (i + k))]> l) <$> leads !! k.
Proof.
  induction leads as [|l ls IH]; intros i k; [reflexivity |].
  destruct k as [|k]; simpl.
  - now rewrite Nat.add_0_r.
  - rewrite IH. now replace (S i + k)%nat with (i + S k)%nat by lia.
Qed.

Lemma renumber_keys {K : Type} (key : Rec -> K) (leads : list Rec) :
  (forall l v, key (<["#" := v]> l) = key l) ->
  forall i, key <$> renumber i leads = key <$> leads.
Proof.
  intros Hkey. induction leads as [|l ls IH]; intros i; [reflexivity |].
  cbn [renumber]. rewrite !fmap_cons, Hkey, IH. reflexivity.
Qed.

Lemma janitor_record_id_renumbered (l : Rec) (v : Cell) :
  Janitor.record_id (<["#" := v]> l) = Janitor.record_id l.
Proof. unfold Janitor.record_id. now rewrite !rec_get_insert_ne by discriminate. Qed.

Lemma b2b_record_id_renumbered (l : Rec) (v : Cell) :
  B2B.record_id (<["#" := v]> l) = B2B.record_id l.
Proof. unfold B2B.record_id. now rewrite !rec_get_insert_ne by discriminate. Qed.

Lemma janitor_filter_valid_none (leads : list Rec) :
  Janitor.filter_valid leads = None
  <-> Exists (fun l => Janitor.is_valid_website_value (rec_get l "Website URL") = None)
        leads.
Proof.
  induction leads as [|l rest IH]; simpl.
  - split; [discriminate | intros H; inversion H].
  - destruct (Janitor.is_valid_website_value _) as [b|] eqn:E.
    + rewrite fmap_None, IH. split; [now right |].
      intros H. inversion H as [? ? Hl|? ? Hr]; subst; [congruence | exact Hr].
    + split; [intros _; now left | reflexivity].
Qed.

Lemma janitor_filter_valid_some (leads kept : list Rec) :
  Janitor.filter_valid leads = Some kept ->
  kept = List.filter
           (fun l => bool_decide
              (Janitor.is_valid_website_value (rec_get l "Website URL") = Some true))
           leads.
Proof.
  revert kept. induction leads as [|l rest IH]; intros kept; simpl.
  - now intros [= <-].
  - destruct (Janitor.is_valid_website_value _) as [b|] eqn:E; [|discriminate].
    destruct (Janitor.filter_valid rest) as [kept'|]; [|discriminate].
    intros [= <-]. rewrite (IH kept' eq_refl).
    destruct b; [now rewrite bool_decide_eq_true_2 |].
    now rewrite bool_decide_eq_false_2 by discriminate.
Qed.

Lemma janitor_valid_value (v : Cell) :
  Janitor.is_valid_website_value v = Some true ->
  exists s, v = Text s /\ Janitor.is_valid_website s = true.
Proof.
  destruct v as [s|z|]; simpl; [|destruct (z =? 0)%Z; discriminate | discriminate].
  intros [= H]. eauto.
Qed.

Lemma janitor_read_valid_ok (f : File) (l : Rec) :
  l ∈ Janitor.read_valid f ->
  exists s, rec_get l "Website URL" = Text s /\ Janitor.is_valid_website s = true.
Proof.
  destruct f as [|records]; simpl; [intros H; now apply elem_of_nil in H |].
  destruct (Janitor.filter_valid records) as [kept|] eqn:E; simpl;
    [|intros H; now apply elem_of_nil in H].
  rewrite (janitor_filter_valid_some _ _ E).
  intros H. apply list_elem_of_In, List.filter_In in H as [_ H].
  apply bool_decide_eq_true in H. now apply janitor_valid_value.
Qed.

Lemma janitor_merge_pool_ok (files : Dir) (l : Rec) :
  l ∈ Janitor.merge_pool files ->
  exists s, rec_get l "Website URL" = Text s /\ Janitor.is_valid_website s = true.
Proof.
  unfold Janitor.merge_pool. intros H.
  apply list_elem_of_In, in_concat in H as (ls & Hls & Hl).
  apply list_elem_of_In, list_elem_of_fmap in Hls as ([name f] & -> & _).
  apply (janitor_read_valid_ok f). now apply list_elem_of_In.
Qed.

Lemma find_pointwise {A : Type} (f g : A -> bool) (l : list A) :
  (forall x, f x = g x) -> List.find f l = List.find g l.
Proof.
  intros H. induction l as [|x l IH]; [reflexivity |].
  simpl. rewrite H, IH. reflexivity.
Qed.

(** X7.  [merge_all_files] of the janitor file never raises.  It returns
    without writing exactly when no record is left after the files were
    read and filtered.  Otherwise the merged records have pairwise distinct
    identities; every identity of the pool of records read has its record
    in the result; the record at position k is the first record of the
    pool with its identity, with only the sequence number changed to k + 1;
    and every merged record has a website text that passes the filter. *)
Theorem janitor_merge_all_files_spec (dir : Dir) :
  (Janitor.merge_all_files dir = None
     <-> Janitor.merge_pool (Janitor.merge_inputs dir) = [])
  /\ forall merged, Janitor.merge_all_files dir = Some merged ->
       NoDup (Janitor.record_id <$> merged)
       /\ (forall l, l ∈ Janitor.merge_pool (Janitor.merge_inputs dir) ->
             Janitor.record_id l ∈ Janitor.record_id <$> merged)
       /\ (forall k r, merged !! k = Some r ->
             exists l,
               r = <["#" := Num (Z.of_nat (S k))]> l
               /\ List.find
                    (fun l' => bool_decide (Janitor.record_id l' = Janitor.record_id l))
                    (Janitor.merge_pool (Janitor.merge_inputs dir)) = Some l
               /\ exists s, rec_get l "Website URL" = Text s
                            /\ Janitor.is_valid_website s = true).
Proof.
  unfold Janitor.merge_all_files. cbv zeta.
  set (files := Janitor.merge_inputs dir). set (pool := Janitor.merge_pool files).
  set (key := fun lead : Rec => Some (Janitor.record_id lead)).
  assert (Htotal : dedupe key ∅ pool <> None).
  { rewrite dedupe_none. intros H. apply Exists_exists in H as (l & _ & Hl).
    discriminate. }
  split.
  - destruct (is_nil files) eqn:Ef.
    + split; [intros _ | reflexivity].
      unfold pool. destruct files; [reflexivity | discriminate].
    + destruct pool as [|l pool'] eqn:Ep; cbn [is_nil]; [split; reflexivity |].
      split; [|discriminate].
      rewrite fmap_None. intros H. contradiction.
  - intros merged. destruct (is_nil files); [discriminate |].
    destruct (is_nil pool); [discriminate |].
    destruct (dedupe key ∅ pool) as [unique|] eqn:Ed; [|contradiction].
    cbn [fmap option_fmap option_map]. intros [= <-].
    destruct (dedupe_spec key pool ∅ unique Ed) as (Hnd & Hin & Hall & Hfirst).
    assert (Hkeys : Janitor.record_id <$> renumber 1 unique = Janitor.record_id <$> unique)
      by (apply renumber_keys, janitor_record_id_renumbered).
    split; [|split].
    + rewrite Hkeys. apply (NoDup_fmap_1 Some).
      rewrite <- list_fmap_compose. exact Hnd.
    + intros l Hl. rewrite Hkeys.
      pose proof (Hall l (Janitor.record_id l) Hl eq_refl) as Hx.
      assert (Hn : Janitor.record_id l ∉ (∅ : gset string)) by set_solver.
      apply Hx in Hn. apply list_elem_of_fmap in Hn as (l' & Hk & Hl').
      apply list_elem_of_fmap. exists l'. split; [|exact Hl'].
      unfold key in Hk. now injection Hk.
    + intros k r Hk. rewrite renumber_lookup in Hk.
      destruct (unique !! k) as [l|] eqn:El; [|discriminate].
      cbn in Hk. injection Hk as <-.
      apply list_elem_of_lookup_2 in El.
      exists l. split; [reflexivity |]. split.
      * rewrite <- (Hfirst l El). apply find_pointwise. intros x.
        apply bool_decide_ext. unfold key. split; [congruence | now intros [= ?]].
      * destruct (Hin l El) as [Hp _].
        apply (janitor_merge_pool_ok files). exact Hp.
Qed.

Lemma janitor_merge_all_files_spec_witness :
  Janitor.merge_all_files janitor_dir = Some (renumber 1 [acme_record; borough_record])
  /\ NoDup (Janitor.record_id <$> renumber 1 [acme_record; borough_record]).
Proof.
  assert (H : Janitor.merge_all_files janitor_dir
              = Some (renumber 1 [acme_record; borough_record]))
    by (vm_compute; reflexivity).
  split; [exact H |].
  exact (proj1 (proj2 (janitor_merge_all_files_spec janitor_dir) _ H)).
Defined.

(** X8.  Reading a file for the janitor merge is all or nothing: the
    website test raises exactly on a cell that is not a text and is not 0
    (an empty cell, read as NaN, or a non-zero number); if it raises on one
    record of a file, the file adds no record at all to the pool, not even
    its records with a good website; otherwise the file adds its records
    whose website is a text that passes the filter, in order. *)
Theorem janitor_merge_reads_all_or_nothing (records : list Rec) :
  (forall v, Janitor.is_valid_website_value v = None
             <-> (forall s, v <> Text s) /\ cell_truthy v = true)
  /\ (Exists (fun l => Janitor.is_valid_website_value (rec_get l "Website URL") = None)
        records ->
      Janitor.read_valid (Sheet records) = [])
  /\ (Forall (fun l => Janitor.is_valid_website_value (rec_get l "Website URL") <> None)
        records ->
      Janitor.read_valid (Sheet records)
      = List.filter
          (fun l => bool_decide
             (Janitor.is_valid_website_value (rec_get l "Website URL") = Some true))
          records).
Proof.
  split; [|split].
  - intros [s|z|]; simpl.
    + split; [discriminate | intros [H _]; now destruct (H s)].
    + destruct (z =? 0)%Z; simpl.
      * split; [discriminate | intros [_ H]; discriminate].
      * split; [intros _; split; [discriminate | reflexivity] | reflexivity].
    + split; [intros _; split; [discriminate | reflexivity] | reflexivity].
  - intros H. apply janitor_filter_valid_none in H. simpl. now rewrite H.
  - intros H. simpl.
    destruct (Janitor.filter_valid records) as [kept|] eqn:E.
    + simpl. now apply janitor_filter_valid_some.
    + apply janitor_filter_valid_none, Exists_exists in E as (l & Hl & Hn).
      rewrite Forall_forall in H. destruct (H l Hl Hn).
Qed.

Lemma janitor_merge_reads_all_or_nothing_witness :
  Exists (fun l => Janitor.is_valid_website_value (rec_get l "Website URL") = None)
    [delta_record; no_site_record]
  /\ Janitor.read_valid (Sheet [delta_record; no_site_record]) = [].
Proof.
  assert (H : Exists
                (fun l => Janitor.is_valid_website_value (rec_get l "Website URL") = None)
                [delta_record; no_site_record])
    by (right; left; vm_compute; reflexivity).
  split; [exact H |].
  exact (proj1 (proj2 (janitor_merge_reads_all_or_nothing _)) H).
Defined.

Lemma b2b_record_id_none (l : Rec) :
  B2B.record_id l = None
  <-> ~ exists c p, rec_get l "Company Name" = Text c
                    /\ rec_get l "Phone Number" = Text p.
Proof.
  unfold B2B.record_id, B2B.generate_lead_id_value.
  destruct (rec_get l "Company Name") as [c|z|];
    [destruct (rec_get l "Phone Number") as [p|z|] | |];
    (split; [intros H (c' & p' & Hc & Hp); discriminate | intros H]);
    try reflexivity.
  destruct H. eauto.
Qed.

(** X9.  [merge_all_files] of the B2B file reads every record of every
    readable file the glob matches, its own merged output included, and
    filters none.  An exception escapes exactly when the pool holds a
    record whose name or phone is not a text (an empty phone cell, read as
    NaN, is enough); it returns without writing exactly when the pool is
    empty; otherwise the merged records have pairwise distinct identities,
    every record of the pool has its identity in the result, and the record
    at position k is the first record of the pool with its identity, with
    only the sequence number changed to k + 1. *)
Theorem b2b_merge_all_files_spec (dir : Dir) :
  (B2B.merge_all_files dir = Raises
     <-> exists l, l ∈ B2B.merge_pool (B2B.merge_inputs dir)
                   /\ ~ exists c p, rec_get l "Company Name" = Text c
                                    /\ rec_get l "Phone Number" = Text p)
  /\ (B2B.merge_all_files dir = Returns None
     <-> B2B.merge_pool (B2B.merge_inputs dir) = [])
  /\ forall merged, B2B.merge_all_files dir = Returns (Some merged) ->
       NoDup (B2B.record_id <$> merged)
       /\ (forall l, l ∈ B2B.merge_pool (B2B.merge_inputs dir) ->
             B2B.record_id l ∈ B2B.record_id <$> merged)
       /\ (forall k r, merged !! k = Some r ->
             exists l,
               r = <["#" := Num (Z.of_nat (S k))]> l
               /\ List.find
                    (fun l' => bool_decide (B2B.record_id l' = B2B.record_id l))
                    (B2B.merge_pool (B2B.merge_inputs dir)) = Some l).
Proof.
  unfold B2B.merge_all_files. cbv zeta.
  set (files := B2B.merge_inputs dir). set (pool := B2B.merge_pool files).
  assert (Hraise : dedupe B2B.record_id ∅ pool = None
                   <-> exists l, l ∈ pool
                         /\ ~ exists c p, rec_get l "Company Name" = Text c
                                          /\ rec_get l "Phone Number" = Text p).
  { rewrite dedupe_none, Exists_exists.
    split; intros (l & Hl & Hn); exists l; (split; [exact Hl |]);
      now apply b2b_record_id_none. }
  assert (Hfiles : is_nil files = true -> pool = []).
  { unfold pool. destruct files; [reflexivity | discriminate]. }
  split; [|split].
  - rewrite <- Hraise. destruct (is_nil files) eqn:Ef.
    + rewrite (Hfiles eq_refl). simpl. split; discriminate.
    + destruct pool as [|l pool'] eqn:Ep; cbn [is_nil]; [simpl; split; discriminate |].
      destruct (dedupe B2B.record_id ∅ (l :: pool')); split; congruence.
  - destruct (is_nil files) eqn:Ef; [split; [intros _; now apply Hfiles | reflexivity] |].
    destruct pool as [|l pool'] eqn:Ep; cbn [is_nil]; [split; reflexivity |].
    destruct (dedupe B2B.record_id ∅ (l :: pool')); split; discriminate.
  - intros merged. destruct (is_nil files); [discriminate |].
    destruct (is_nil pool); [discriminate |].
    destruct (dedupe B2B.record_id ∅ pool) as [unique|] eqn:Ed; [|discriminate].
    intros [= <-].
    destruct (dedupe_spec B2B.record_id pool ∅ unique Ed) as (Hnd & Hin & Hall & Hfirst).
    assert (Hkeys : B2B.record_id <$> renumber 1 unique = B2B.record_id <$> unique)
      by (apply renumber_keys, b2b_record_id_renumbered).
    split; [|split].
    + now rewrite Hkeys.
    + intros l Hl. rewrite Hkeys.
      destruct (B2B.record_id l) as [k|] eqn:Ek.
      * apply (Hall l k Hl Ek). set_solver.
      * assert (Hx : dedupe B2B.record_id ∅ pool = None).
        { apply dedupe_none, Exists_exists. eauto. }
        congruence.
    + intros k r Hk. rewrite renumber_lookup in Hk.
      destruct (unique !! k) as [l|] eqn:El; [|discriminate].
      cbn in Hk. injection Hk as <-.
      apply list_elem_of_lookup_2 in El.
      exists l. split; [reflexivity | now apply Hfirst].
Qed.

Lemma b2b_merge_all_files_spec_witness :
  B2B.merge_all_files b2b_dir = Returns (Some (renumber 1 [acme_record; delta_record]))
  /\ NoDup (B2B.record_id <$> renumber 1 [acme_record; delta_record]).
Proof.
  assert (H : B2B.merge_all_files b2b_dir
              = Returns (Some (renumber 1 [acme_record; delta_record])))
    by (vm_compute; reflexivity).
  split; [exact H |].
  exact (proj1 (proj2 (proj2 (b2b_merge_all_files_spec b2b_dir)) _ H)).
Defined.

(** ** The global scope *)

Lemma fold_scope_elem {A : Type} (step : gset string -> A -> gset string)
  (contrib : A -> gset string) :
  (forall ids a i, i ∈ step ids a <-> i ∈ ids \/ i ∈ contrib a) ->
  forall l ids i,
    i ∈ fold_left step l ids <-> i ∈ ids \/ exists a, a ∈ l /\ i ∈ contrib a.
Proof.
  intros Hstep. induction l as [|a l IH]; intros ids i; simpl.
  - split; [now left | intros [H|(a & Ha & _)]; [exact H | now apply elem_of_nil in Ha]].
  - rewrite IH, Hstep. split.
    + intros [[H|H]|(b & Hb & H)].
      * now left.
      * right. exists a. split; [now left | exact H].
      * right. exists b. split; [now right | exact H].
    + intros [H|(b & Hb & H)]; [now left; left |].
      apply elem_of_cons in Hb as [->|Hb]; [left; now right | right; eauto].
Qed.



Lemma janitor_global_scope_elem (dir : Dir) (i : string) :
  i ∈ Janitor.load_all_existing_lead_ids (Some dir)
  <-> exists name records r,
        (name, Sheet records) ∈ dir /\ Py.endswith ".xlsx" name = true
        /\ r ∈ records /\ i = Janitor.record_id r.
Proof.
  unfold Janitor.load_all_existing_lead_ids.
  rewrite (fold_scope_elem _
    (fun '(name, f) => if Py.endswith ".xlsx" name
                       then Janitor.load_existing_leads f else ∅)).
  - split.
    + intros [H|([name f] & Hin & H)]; [now apply elem_of_empty in H |].
      destruct (Py.endswith ".xlsx" name) eqn:E; [|now apply elem_of_empty in H].
      destruct f as [|records]; simpl in H; [now apply elem_of_empty in H |].
      apply elem_of_list_to_set, list_elem_of_fmap in H as (r & -> & Hr).
      exists name, records, r. auto.
    + intros (name & records & r & Hin & E & Hr & ->). right.
      exists (name, Sheet records). split; [exact Hin |]. rewrite E. simpl.
      apply elem_of_list_to_set, list_elem_of_fmap. eauto.
  - intros ids [name f] j. destruct (Py.endswith ".xlsx" name); set_solver.
Qed.




Lemma drop_length (s : string) : forall n, String.length (Py.drop n s) = (String.length s - n)%nat.
Proof.
  induction s as [|c s IH]; intros [|n]; simpl; try reflexivity. apply IH.
Qed.

Lemma drop_drop (s : string) : forall m n, Py.drop n (Py.drop m s) = Py.drop (m + n) s.
Proof.
  induction s as [|c s IH]; intros [|m] n; simpl; try reflexivity.
  - now destruct n.
  - apply IH.
Qed.

Lemma drop_all (s : string) : Py.drop (String.length s) s = EmptyString.
Proof. induction s as [|c s IH]; simpl; [reflexivity | exact IH]. Qed.

Lemma endswith_drop (suffix s : string) (n : nat) :
  Py.endswith suffix (Py.drop n s) = true -> Py.endswith suffix s = true.
Proof.
  unfold Py.endswith. intros H. apply andb_prop in H as [Hlen Heq].
  apply Nat.leb_le in Hlen. rewrite drop_length in Hlen, Heq.
  rewrite drop_drop in Heq.
  apply andb_true_intro. split; [apply Nat.leb_le; lia |].
  destruct (Nat.le_gt_cases n (String.length s)) as [Hn|Hn].
  - now replace (String.length s - String.length suffix)%nat
      with (n + (String.length s - n - String.length suffix))%nat by lia.
  - assert (Hs : String.length suffix = 0%nat) by lia.
    destruct suffix; [|discriminate]. simpl. rewrite Nat.sub_0_r, drop_all. reflexivity.
Qed.

Lemma janitor_filter_valid_sub (records kept : list Rec) (l : Rec) :
  Janitor.filter_valid records = Some kept -> l ∈ kept -> l ∈ records.
Proof.
  intros H Hl. rewrite (janitor_filter_valid_some _ _ H) in Hl.
  apply list_elem_of_In, List.filter_In in Hl as [Hl _]. now apply list_elem_of_In.
Qed.

Lemma janitor_pool_origin (dir : Dir) (l : Rec) :
  l ∈ Janitor.merge_pool (Janitor.merge_inputs dir) ->
  exists name records,
    (name, Sheet records) ∈ dir /\ Py.endswith ".xlsx" name = true /\ l ∈ records.
Proof.
  unfold Janitor.merge_pool. intros H.
  apply list_elem_of_In, in_concat in H as (ls & Hls & Hl).
  apply list_elem_of_In, list_elem_of_fmap in Hls as ([name f] & -> & Hf).
  apply list_elem_of_In in Hl. cbn in Hl.
  unfold Janitor.merge_inputs in Hf.
  apply list_elem_of_In, List.filter_In in Hf as [Hdir Hname].
  apply list_elem_of_In in Hdir.
  destruct f as [|records]; [now apply elem_of_nil in Hl |].
  simpl in Hl. destruct (Janitor.filter_valid records) as [kept|] eqn:E;
    [|now apply elem_of_nil in Hl].
  exists name, records. split; [exact Hdir |]. split.
  - do 3 (apply andb_prop in Hname as [Hname _]).
    unfold Py.fnmatch_star in Hname. apply andb_prop in Hname as [_ Hname].
    now apply endswith_drop in Hname.
  - now apply (janitor_filter_valid_sub records kept).
Qed.

Lemma janitor_merged_from_pool (dir : Dir) (merged : list Rec) (r : Rec) :
  Janitor.merge_all_files dir = Some merged -> r ∈ merged ->
  exists l, l ∈ Janitor.merge_pool (Janitor.merge_inputs dir)
            /\ Janitor.record_id r = Janitor.record_id l.
Proof.
  unfold Janitor.merge_all_files. cbv zeta.
  destruct (is_nil _); [discriminate |]. destruct (is_nil _); [discriminate |].
  destruct (dedupe _ ∅ _) as [unique|] eqn:Ed; [|discriminate].
  cbn [fmap option_fmap option_map]. intros [= <-] Hr.
  apply list_elem_of_lookup_1 in Hr as [k Hk]. rewrite renumber_lookup in Hk.
  destruct (unique !! k) as [l|] eqn:El; [|discriminate].
  cbn in Hk. injection Hk as <-. apply list_elem_of_lookup_2 in El.
  destruct (dedupe_spec _ _ _ _ Ed) as (_ & Hin & _).
  exists l. split; [now apply Hin | apply janitor_record_id_renumbered].
Qed.

(** X11.  Every record the janitor merge writes has its identity in the
    global scope the scraper loads from the same directory: the merge reads
    no file the loader skips, and both compute the identity of a record
    the same way, whatever sequence number the merge gave it. *)
Theorem janitor_merged_within_global_scope (dir : Dir) (merged : list Rec) (r : Rec) :
  Janitor.merge_all_files dir = Some merged ->
  r ∈ merged ->
  Janitor.record_id r ∈ Janitor.load_all_existing_lead_ids (Some dir).
Proof.
  intros H Hr.
  destruct (janitor_merged_from_pool dir merged r H Hr) as (l & Hl & ->).
  destruct (janitor_pool_origin dir l Hl) as (name & records & Hdir & Hx & Hrec).
  apply janitor_global_scope_elem. exists name, records, l. auto.
Qed.

Lemma janitor_merged_within_global_scope_witness :
  Janitor.record_id (<["#" := Num 1]> acme_record)
    ∈ Janitor.load_all_existing_lead_ids (Some janitor_dir).
Proof.
  apply (janitor_merged_within_global_scope janitor_dir
           (renumber 1 [acme_record; borough_record])).
  - vm_compute; reflexivity.
  - left.
Defined.



(** ** The drivers of the B2B file *)

Lemma py_index_nat {A : Type} (l : list A) (i : nat) : py_index l (Z.of_nat i) = l !! i.
Proof.
  unfold py_index. rewrite (proj2 (Z.leb_le 0 (Z.of_nat i))) by lia.
  now rewrite Nat2Z.id.
Qed.


Lemma scrapes_app (a b : list Op) : scrapes (a ++ b) = scrapes a ++ scrapes b.
Proof. unfold scrapes. apply omap_app. Qed.

Lemma waits_app (a b : list Op) : waits (a ++ b) = (waits a + waits b)%nat.
Proof. unfold waits. now rewrite List.filter_app, length_app. Qed.

Lemma existsb_app_completed (a b : list Op) :
  existsb is_completed (a ++ b) = existsb is_completed a || existsb is_completed b.
Proof. apply existsb_app. Qed.

Section DriverFacts.

Variable SEARCHES : list (string * string).
Variable LOCATIONS : list string.

(** The tasks of one search, over the given locations. *)
Local Abbreviation row := (fun (search : string * string) (locations : list string) =>
  (fun location => (fst search, snd search, location)) <$> locations).

Lemma all_locations_spec (total si : nat) (search : string * string)
  (locations : list string) :
  forall li combo,
    scrapes (fst (B2B.all_locations total si search li locations combo))
      = row search locations
    /\ snd (B2B.all_locations total si search li locations combo)
      = (combo + length locations)%nat
    /\ existsb is_completed (fst (B2B.all_locations total si search li locations combo))
      = false
    /\ waits (fst (B2B.all_locations total si search li locations combo))
      = (Nat.min (combo + length locations) (total - 1) - Nat.min combo (total - 1))%nat.
Proof.
  induction locations as [|location rest IH]; intros li combo.
  - cbn. repeat split; lia.
  - cbn [B2B.all_locations]. cbv zeta.
    destruct (IH (S li) (S combo)) as (H1 & H2 & H3 & H4).
    destruct (B2B.all_locations total si search (S li) rest (S combo)) as [ops combo'].
    cbn [fst snd] in *. rewrite <- !app_assoc, !scrapes_app, !existsb_app_completed, !waits_app.
    rewrite H1, H2, H3, H4. cbn [length].
    split; [|split; [lia |split]].
    + destruct (S combo <? total)%nat; reflexivity.
    + destruct (S combo <? total)%nat; reflexivity.
    + destruct (S combo <? total)%nat eqn:E;
        [apply Nat.ltb_lt in E | apply Nat.ltb_ge in E];
        cbn -[Nat.min Nat.sub Nat.add]; lia.
Qed.

Lemma all_searches_spec (total : nat) (searches : list (string * string)) :
  forall si combo,
    scrapes (B2B.all_searches LOCATIONS total si searches combo)
      = searches ≫= (fun search => row search LOCATIONS)
    /\ existsb is_completed (B2B.all_searches LOCATIONS total si searches combo) = false
    /\ waits (B2B.all_searches LOCATIONS total si searches combo)
      = (Nat.min (combo + length searches * length LOCATIONS) (total - 1)
         - Nat.min combo (total - 1))%nat.
Proof.
  induction searches as [|search rest IH]; intros si combo.
  - cbn. repeat split; lia.
  - cbn [B2B.all_searches].
    destruct (all_locations_spec total si search LOCATIONS 0 combo) as (H1 & H2 & H3 & H4).
    destruct (B2B.all_locations total si search 0 LOCATIONS combo) as [ops combo'].
    cbn [fst snd] in *. subst combo'.
    destruct (IH (S si) (combo + length LOCATIONS)%nat) as (I1 & I2 & I3).
    rewrite scrapes_app, existsb_app_completed, waits_app, H1, H3, H4, I1, I2, I3.
    split; [reflexivity |]. split; [reflexivity |]. cbn [length]. lia.
Qed.




End DriverFacts.

(** X13.  [run_all_searches] of the B2B file runs one task for every pair of
    a search and a location, each pair once, search by search and, within a
    search, in the order of the locations; it pauses between two tasks but
    not after the last one; and its last step writes the progress file with
    the status completed and the last indices. *)
Theorem b2b_run_all_searches_schedule (SEARCHES : list (string * string))
  (LOCATIONS : list string) :
  scrapes (B2B.run_all_searches SEARCHES LOCATIONS)
    = SEARCHES ≫= (fun search =>
        (fun location => (fst search, snd search, location)) <$> LOCATIONS)
  /\ waits (B2B.run_all_searches SEARCHES LOCATIONS)
    = (length SEARCHES * length LOCATIONS - 1)%nat
  /\ last (B2B.run_all_searches SEARCHES LOCATIONS)
    = Some (OpProgress (Z.of_nat (length SEARCHES) - 1)
                       (Z.of_nat (length LOCATIONS) - 1) 0 "completed").
Proof.
  unfold B2B.run_all_searches. cbv zeta.
  destruct (all_searches_spec LOCATIONS (length SEARCHES * length LOCATIONS)
              SEARCHES 0 0) as (H1 & _ & H3).
  split; [|split].
  - rewrite !scrapes_app, H1. cbn. now rewrite app_nil_r.
  - rewrite !waits_app, H3. cbn -[Nat.min Nat.sub Nat.mul]. lia.
  - rewrite app_assoc. apply last_snoc.
Qed.



(** ** The drivers of the janitor and safety files *)

Lemma tasks_app (a b : list Op) : tasks (a ++ b) = tasks a ++ tasks b.
Proof. unfold tasks. apply omap_app. Qed.

Lemma janitor_all_locations_spec (total ti : nat) (term : string)
  (locations : list string) :
  forall li combo,
    tasks (fst (Janitor.all_locations total ti term li locations combo))
      = (fun location => (term, location)) <$> locations
    /\ snd (Janitor.all_locations total ti term li locations combo)
      = (combo + length locations)%nat
    /\ waits (fst (Janitor.all_locations total ti term li locations combo))
      = (Nat.min (combo + length locations) (total - 1) - Nat.min combo (total - 1))%nat.
Proof.
  induction locations as [|location rest IH]; intros li combo.
  - cbn. repeat split; lia.
  - cbn [Janitor.all_locations]. cbv zeta.
    destruct (IH (S li) (S combo)) as (H1 & H2 & H3).
    destruct (Janitor.all_locations total ti term (S li) rest (S combo)) as [ops combo'].
    cbn [fst snd] in *. rewrite <- !app_assoc, !tasks_app, !waits_app.
    rewrite H1, H2, H3. cbn [length].
    split; [|split; [lia |]].
    + destruct (S combo <? total)%nat; reflexivity.
    + destruct (S combo <? total)%nat eqn:E;
        [apply Nat.ltb_lt in E | apply Nat.ltb_ge in E];
        cbn -[Nat.min Nat.sub Nat.add]; lia.
Qed.

Lemma janitor_all_terms_spec (LOCATIONS : list string) (total : nat)
  (terms : list string) :
  forall ti combo,
    tasks (Janitor.all_terms LOCATIONS total ti terms combo)
      = terms ≫= (fun term => (fun location => (term, location)) <$> LOCATIONS)
    /\ waits (Janitor.all_terms LOCATIONS total ti terms combo)
      = (Nat.min (combo + length terms * length LOCATIONS) (total - 1)
         - Nat.min combo (total - 1))%nat.
Proof.
  induction terms as [|term rest IH]; intros ti combo.
  - cbn. split; [reflexivity | lia].
  - cbn [Janitor.all_terms].
    destruct (janitor_all_locations_spec total ti term LOCATIONS 0 combo) as (H1 & H2 & H3).
    destruct (Janitor.all_locations total ti term 0 LOCATIONS combo) as [ops combo'].
    cbn [fst snd] in *. subst combo'.
    destruct (IH (S ti) (combo + length LOCATIONS)%nat) as (I1 & I2).
    rewrite tasks_app, waits_app, H1, H3, I1, I2.
    split; [reflexivity |]. cbn [length]. lia.
Qed.

Lemma janitor_batch_locations_spec (LOCATIONS : list string) (idx : Z) (term : string)
  (locations : list string) :
  forall li, (li + length locations)%nat = length LOCATIONS ->
    tasks (Janitor.batch_locations LOCATIONS idx term li locations)
      = (fun location => (term, location)) <$> locations
    /\ waits (Janitor.batch_locations LOCATIONS idx term li locations)
      = (length locations - 1)%nat.
Proof.
  induction locations as [|location rest IH]; intros li Hli.
  - cbn. split; reflexivity.
  - cbn [Janitor.batch_locations length] in *.
    destruct (IH (S li) ltac:(lia)) as (H1 & H2).
    rewrite !tasks_app, !waits_app, H1, H2. split.
    + destruct (_ <? _)%Z; reflexivity.
    + destruct (Z.of_nat li <? Z.of_nat (length LOCATIONS) - 1)%Z eqn:E;
        [apply Z.ltb_lt in E | apply Z.ltb_ge in E];
        cbn -[Nat.sub Nat.add]; lia.
Qed.

Lemma safety_run_locations_spec (term : string) (locations : list string) :
  tasks (Safety.run_locations term locations)
    = (fun location => (term, location)) <$> locations
  /\ waits (Safety.run_locations term locations) = length locations.
Proof.
  induction locations as [|loc rest [IH1 IH2]]; [split; reflexivity |].
  cbn [Safety.run_locations]. rewrite tasks_app, waits_app, IH1, IH2.
  split; reflexivity.
Qed.

Lemma safety_run_terms_spec (LOCATIONS : list string) (terms : list string) :
  tasks (Safety.run_terms LOCATIONS terms)
    = terms ≫= (fun term => (fun location => (term, location)) <$> LOCATIONS)
  /\ waits (Safety.run_terms LOCATIONS terms) = (length terms * length LOCATIONS)%nat.
Proof.
  induction terms as [|term rest [IH1 IH2]]; [split; reflexivity |].
  cbn [Safety.run_terms].
  destruct (safety_run_locations_spec term LOCATIONS) as [H1 H2].
  rewrite tasks_app, waits_app, H1, H2, IH1, IH2. split; [reflexivity |].
  cbn [length]. lia.
Qed.

(** X15.  The drivers of the janitor and safety files.  [run_all_searches]
    of the janitor file and the run of the safety file with RUN_ALL set run
    the same tasks: one for every pair of a term and a location, each pair
    once, term by term and in the order of the locations.  The janitor file
    pauses between two tasks only and ends by writing the status completed
    with the last indices; the safety file pauses after every task, the
    last one included, and raises nothing.  [run_batch_search] of the
    janitor file, for a current term index within the list, runs the tasks
    of that term over all locations in order, pauses between them only, and
    ends by writing the status completed for that term. *)
Theorem janitor_and_safety_drivers (SEARCH_TERMS LOCATIONS : list string)
  (ti : nat) (term : string) (i j : Z) :
  (tasks (Janitor.run_all_searches SEARCH_TERMS LOCATIONS)
     = SEARCH_TERMS ≫= (fun term => (fun location => (term, location)) <$> LOCATIONS)
   /\ waits (Janitor.run_all_searches SEARCH_TERMS LOCATIONS)
     = (length SEARCH_TERMS * length LOCATIONS - 1)%nat
   /\ last (Janitor.run_all_searches SEARCH_TERMS LOCATIONS)
     = Some (OpMark (Z.of_nat (length SEARCH_TERMS) - 1)
                    (Z.of_nat (length LOCATIONS) - 1) "completed"))
  /\ (snd (Safety.run SEARCH_TERMS LOCATIONS i j true) = false
   /\ tasks (fst (Safety.run SEARCH_TERMS LOCATIONS i j true))
     = tasks (Janitor.run_all_searches SEARCH_TERMS LOCATIONS)
   /\ waits (fst (Safety.run SEARCH_TERMS LOCATIONS i j true))
     = (length SEARCH_TERMS * length LOCATIONS)%nat)
  /\ (SEARCH_TERMS !! ti = Some term ->
      snd (Janitor.run_batch_search SEARCH_TERMS LOCATIONS (Z.of_nat ti)) = false
      /\ tasks (fst (Janitor.run_batch_search SEARCH_TERMS LOCATIONS (Z.of_nat ti)))
        = (fun location => (term, location)) <$> LOCATIONS
      /\ waits (fst (Janitor.run_batch_search SEARCH_TERMS LOCATIONS (Z.of_nat ti)))
        = (length LOCATIONS - 1)%nat
      /\ last (fst (Janitor.run_batch_search SEARCH_TERMS LOCATIONS (Z.of_nat ti)))
        = Some (OpMark (Z.of_nat ti) (Z.of_nat (length LOCATIONS) - 1) "completed")).
Proof.
  assert (Hall : tasks (Janitor.run_all_searches SEARCH_TERMS LOCATIONS)
                 = SEARCH_TERMS ≫= (fun term =>
                     (fun location => (term, location)) <$> LOCATIONS)).
  { unfold Janitor.run_all_searches. cbv zeta.
    destruct (janitor_all_terms_spec LOCATIONS (length SEARCH_TERMS * length LOCATIONS)
                SEARCH_TERMS 0 0) as (H1 & _).
    rewrite !tasks_app, H1. cbn. now rewrite app_nil_r. }
  split; [|split].
  - split; [exact Hall |]. unfold Janitor.run_all_searches. cbv zeta. split.
    + destruct (janitor_all_terms_spec LOCATIONS (length SEARCH_TERMS * length LOCATIONS)
                  SEARCH_TERMS 0 0) as (_ & H2).
      rewrite !waits_app, H2. cbn -[Nat.min Nat.sub Nat.mul]. lia.
    + rewrite app_assoc. apply last_snoc.
  - destruct (safety_run_terms_spec LOCATIONS SEARCH_TERMS) as [H1 H2].
    unfold Safety.run. cbn [fst snd]. split; [reflexivity |].
    rewrite Hall, tasks_app, waits_app, H1, H2. split; reflexivity.
  - intros Ht. unfold Janitor.run_batch_search. rewrite py_index_nat, Ht. cbn [fst snd].
    destruct (janitor_batch_locations_spec LOCATIONS (Z.of_nat ti) term LOCATIONS 0 eq_refl)
      as [H1 H2].
    split; [reflexivity |].
    rewrite !tasks_app, !waits_app, H1, H2.
    split; [cbn; now rewrite app_nil_r |]. split; [cbn; lia |].
    rewrite app_assoc. apply last_snoc.
Qed.

Lemma janitor_and_safety_drivers_witness :
  sample_terms !! 1%nat = Some "cleaning-supplies"
  /\ tasks (fst (Janitor.run_batch_search sample_terms sample_locations (Z.of_nat 1)))
     = [ ("cleaning-supplies", "queens-ny"); ("cleaning-supplies", "brooklyn-ny");
         ("cleaning-supplies", "bronx-ny") ].
Proof.
  assert (H : sample_terms !! 1%nat = Some "cleaning-supplies") by reflexivity.
  split; [exact H |].
  destruct (proj2 (proj2 (janitor_and_safety_drivers sample_terms sample_locations
                            1 "cleaning-supplies" 0 0)) H) as (_ & Ht & _).
  rewrite Ht. reflexivity.
Defined.

(** ** The three email validators *)

Lemma any_in_mono (ps qs : list string) (s : string) :
  forallb (fun p => existsb (String.eqb p) qs) ps = true ->
  Py.any_in ps s = true -> Py.any_in qs s = true.
Proof.
  intros Hsub H. unfold Py.any_in in *.
  apply existsb_exists in H as (p & Hp & Hc).
  rewrite forallb_forall in Hsub. specialize (Hsub p Hp).
  apply existsb_exists in Hsub as (q & Hq & Heq).
  apply String.eqb_eq in Heq. subst q.
  apply existsb_exists. eauto.
Qed.

(** X16.  The three email validators are nested: the blacklist of the
    safety file is part of that of the B2B file, which is part of that of
    the janitor file, and the other tests are the same; so an address the
    janitor file accepts is accepted by the B2B file, and an address the B2B
    file accepts is accepted by the safety file. *)
Theorem email_validators_nested (e : string) :
  (Janitor.is_valid_email e = true -> B2B.is_valid_email e = true)
  /\ (B2B.is_valid_email e = true -> Safety.valid_email e = true).
Proof.
  split.
  - unfold Janitor.is_valid_email, B2B.is_valid_email, is_valid_email.
    destruct (negb (Py.truthy e) || negb (Py.contains "@" e)); [discriminate |].
    intros H. apply negb_true_iff in H. apply negb_true_iff.
    destruct (Py.any_in B2B.EMAIL_BLACKLIST (Py.lower e)) eqn:E; [|reflexivity].
    rewrite <- H. symmetry.
    apply (any_in_mono B2B.EMAIL_BLACKLIST Janitor.EMAIL_BLACKLIST); [reflexivity | exact E].
  - unfold B2B.is_valid_email, Safety.valid_email, is_valid_email.
    destruct (Py.truthy e); [|discriminate].
    destruct (Py.contains "@" e); [|discriminate].
    cbn [negb orb andb]. intros H. apply negb_true_iff in H. apply negb_true_iff.
    destruct (Py.any_in Safety.EMAIL_BLACKLIST (Py.lower e)) eqn:E; [|reflexivity].
    rewrite <- H. symmetry.
    apply (any_in_mono Safety.EMAIL_BLACKLIST B2B.EMAIL_BLACKLIST); [reflexivity | exact E].
Qed.

Lemma email_validators_nested_witness :
  Janitor.is_valid_email "info@acme.com" = true
  /\ B2B.is_valid_email "info@acme.com" = true.
Proof.
  assert (H : Janitor.is_valid_email "info@acme.com" = true) by (vm_compute; reflexivity).
  split; [exact H |].
  exact (proj1 (email_validators_nested "info@acme.com") H).
Defined.
